(** * RBS design search of RBS_cal (src/app.py), shallow embedding

    Python floats are modelled as rationals [Q] (exact arithmetic);
    [float("inf")] as the extra constructor [PInf] of [xfloat].  The two
    transcendental functions of the search, [math.log10] and [math.exp],
    are a parameter [Libm] of every definition that calls them.  The
    generator [random.Random] is modelled bit for bit: MT19937 as in
    CPython's _randommodule.c and the methods of Lib/random.py that the
    search calls. *)

From Stdlib Require Import ZArith List String Ascii QArith Qminmax Qabs Lia Bool.
From Stdlib Require Import Sorting.Sorted Permutation Lqa.
Import ListNotations.
Open Scope Z_scope.

(** ** Python exceptions and a generator-state monad *)

Inductive exn := ValueError | IndexError.

Inductive res (A : Type) := Ok (a : A) | Err (e : exn).
Arguments Ok {A} a.
Arguments Err {A} e.

(** strict comparison of rationals as a boolean *)
Definition Qltb (x y : Q) : bool := negb (Qle_bool y x).

(** ** MT19937 (CPython _randommodule.c) *)
Module MT.

Definition N : nat := 624%nat.
Definition M : nat := 397%nat.
Definition mask32 (z : Z) : Z := Z.land z (2 ^ 32 - 1).

Record state := mk { mt : list Z; mti : nat }.

Definition get (l : list Z) (i : nat) : Z := nth i l 0.
Definition upd (l : list Z) (i : nat) (v : Z) : list Z :=
  firstn i l ++ v :: skipn (S i) l.

Fixpoint init_genrand_aux (n i : nat) (prev : Z) : list Z :=
  match n with
  | O => []
  | S n' =>
      let v := mask32 (1812433253 * Z.lxor prev (Z.shiftr prev 30) + Z.of_nat i) in
      v :: init_genrand_aux n' (S i) v
  end.

(** [init_genrand(s)] *)
Definition init_genrand (s : Z) : list Z :=
  let s := mask32 s in s :: init_genrand_aux (N - 1) 1 s.

(** first loop of [init_by_array]: [k] steps, indices [i], [j] *)
Fixpoint iba_loop1 (k : nat) (key : list Z) (l : list Z) (i j : nat) : list Z * nat :=
  match k with
  | O => (l, i)
  | S k' =>
      let p := get l (i - 1) in
      let v := mask32 (Z.lxor (get l i) ((Z.lxor p (Z.shiftr p 30)) * 1664525)
                       + nth j key 0 + Z.of_nat j) in
      let l := upd l i v in
      let i := S i in
      let j := S j in
      let '(l, i) := if (N <=? i)%nat then (upd l 0 (get l (N - 1)), 1%nat) else (l, i) in
      let j := if (List.length key <=? j)%nat then O else j in
      iba_loop1 k' key l i j
  end.

Fixpoint iba_loop2 (k : nat) (l : list Z) (i : nat) : list Z :=
  match k with
  | O => l
  | S k' =>
      let p := get l (i - 1) in
      let v := mask32 (Z.lxor (get l i) ((Z.lxor p (Z.shiftr p 30)) * 1566083941)
                       - Z.of_nat i) in
      let l := upd l i v in
      let i := S i in
      let '(l, i) := if (N <=? i)%nat then (upd l 0 (get l (N - 1)), 1%nat) else (l, i) in
      iba_loop2 k' l i
  end.

Definition init_by_array (key : list Z) : state :=
  let l := init_genrand 19650218 in
  let '(l, i) := iba_loop1 (Nat.max N (List.length key)) key l 1 0 in
  let l := iba_loop2 (N - 1) l i in
  mk (upd l 0 2147483648) N.

(** the little-endian 32-bit words of [n >= 0] ([random_seed]) *)
Fixpoint words_of (fuel : nat) (n : Z) : list Z :=
  match fuel with
  | O => []
  | S f => if n <=? 0 then [] else mask32 n :: words_of f (Z.shiftr n 32)
  end.

(** [random.Random(n)] for an int [n] *)
Definition seed (n : Z) : state :=
  let n := Z.abs n in
  let key := match words_of (Z.to_nat (Z.log2 n / 32 + 1)) n with
             | [] => [0]
             | k => k
             end in
  init_by_array key.

Definition mag01 (y : Z) : Z := if Z.odd y then 2567483615 else 0.
Definition mix (a b : Z) : Z :=
  Z.lor (Z.land a 2147483648) (Z.land b 2147483647).

Fixpoint twist_loop (n kk : nat) (l : list Z) : list Z :=
  match n with
  | O => l
  | S n' =>
      let y := mix (get l kk) (get l (S kk)) in
      let src := if (kk <? N - M)%nat then (kk + M)%nat else (kk + M - N)%nat in
      let l := upd l kk (Z.lxor (Z.lxor (get l src) (Z.shiftr y 1)) (mag01 y)) in
      twist_loop n' (S kk) l
  end.

Definition twist (l : list Z) : list Z :=
  let l := twist_loop (N - 1) 0 l in
  let y := mix (get l (N - 1)) (get l 0) in
  upd l (N - 1) (Z.lxor (Z.lxor (get l (M - 1)) (Z.shiftr y 1)) (mag01 y)).

Definition temper (y : Z) : Z :=
  let y := Z.lxor y (Z.shiftr y 11) in
  let y := Z.lxor y (Z.land (mask32 (Z.shiftl y 7)) 2636928640) in
  let y := Z.lxor y (Z.land (mask32 (Z.shiftl y 15)) 4022730752) in
  mask32 (Z.lxor y (Z.shiftr y 18)).

(** [genrand_uint32] *)
Definition genrand_uint32 (s : state) : Z * state :=
  let '(l, i) := if (N <=? mti s)%nat then (twist (mt s), O) else (mt s, mti s) in
  (temper (get l i), mk l (S i)).

End MT.

(** ** The methods of [random.Random] the search calls (Lib/random.py) *)
Module PyRandom.
Import MT.

Definition Rnd (A : Type) := MT.state -> res (A * MT.state).

Definition ret {A} (a : A) : Rnd A := fun s => Ok (a, s).
Definition bind {A B} (m : Rnd A) (f : A -> Rnd B) : Rnd B :=
  fun s => match m s with Ok (a, s') => f a s' | Err e => Err e end.
Definition raise {A} (e : exn) : Rnd A := fun _ => Err e.

Notation "x <- m ;; k" := (bind m (fun x => k)) (at level 61, m at next level, right associativity).

Definition word : Rnd Z := fun s => Ok (genrand_uint32 s).

Fixpoint gather (n : nat) (k : Z) : Rnd (list Z) :=
  match n with
  | O => ret []
  | S n' =>
      r <- word ;;
      let r := if k <? 32 then Z.shiftr r (32 - k) else r in
      rs <- gather n' (k - 32) ;;
      ret (r :: rs)
  end.

Fixpoint of_words (ws : list Z) : Z :=
  match ws with [] => 0 | w :: ws' => w + Z.shiftl (of_words ws') 32 end.

(** [getrandbits(k)] for [k >= 0] *)
Definition getrandbits (k : Z) : Rnd Z :=
  if k =? 0 then ret 0
  else if k <=? 32 then (r <- word ;; ret (Z.shiftr r (32 - k)))
  else (ws <- gather (Z.to_nat ((k - 1) / 32 + 1)) k ;; ret (of_words ws)).

Definition bit_length (n : Z) : Z := if n <=? 0 then 0 else Z.log2 n + 1.

(** [_randbelow_with_getrandbits(n)]: the rejection loop is cut after
    [randbelow_fuel] draws (each draw is rejected with probability below
    one half); past the cut the last draw is reduced modulo [n]. *)
Definition randbelow_fuel : nat := 64%nat.

Fixpoint randbelow_loop (fuel : nat) (n k : Z) : Rnd Z :=
  r <- getrandbits k ;;
  if r <? n then ret r
  else match fuel with O => ret (r mod n) | S f => randbelow_loop f n k end.

Definition randbelow (n : Z) : Rnd Z := randbelow_loop randbelow_fuel n (bit_length n).

(** [randrange(start, stop)] with step 1; [randrange(n)] is [randrange 0 n] *)
Definition randrange (start stop : Z) : Rnd Z :=
  if 0 <? stop - start then (r <- randbelow (stop - start) ;; ret (start + r))
  else raise ValueError.

Definition randint (a b : Z) : Rnd Z := randrange a (b + 1).

Definition choice {A} (d : A) (l : list A) : Rnd A :=
  match l with
  | [] => raise IndexError
  | _ => i <- randbelow (Z.of_nat (List.length l)) ;; ret (nth (Z.to_nat i) l d)
  end.

(** [random()]: 53 bits from two words *)
Definition random : Rnd Q :=
  a <- word ;; b <- word ;;
  ret ((Z.shiftr a 5 * 67108864 + Z.shiftr b 6) # 9007199254740992)%Q.

Fixpoint accumulate (acc : Q) (ws : list Q) : list Q :=
  match ws with [] => [] | w :: ws' => (acc + w)%Q :: accumulate (acc + w) ws' end.

(** [bisect.bisect_right(a, x, lo, hi)] *)
Fixpoint bisect_right (fuel : nat) (a : list Q) (x : Q) (lo hi : Z) : Z :=
  match fuel with
  | O => lo
  | S f =>
      if lo <? hi then
        let mid := (lo + hi) / 2 in
        if Qltb x (nth (Z.to_nat mid) a 0%Q) then bisect_right f a x lo mid
        else bisect_right f a x (mid + 1) hi
      else lo
  end.

(** [choices(population, weights=weights, k=1)[0]] *)
Definition choices1 {A} (d : A) (pop : list A) (weights : list Q) : Rnd A :=
  let n := List.length pop in
  let cum := accumulate 0 weights in
  if negb (Nat.eqb (List.length cum) n) then raise ValueError
  else match rev cum with
       | [] => raise IndexError
       | total :: _ =>
           if Qle_bool total 0 then raise ValueError
           else u <- random ;;
                ret (nth (Z.to_nat (bisect_right (S n) cum (u * total) 0 (Z.of_nat n - 1))) pop d)
       end.

End PyRandom.

(** ** Strings as the generator and the mutation operator use them *)
Open Scope string_scope.
Open Scope Z_scope.

Module Seq.

Definition len (s : string) : Z := Z.of_nat (String.length s).

(** Python [range(a, b)] *)
Definition zrange (a b : Z) : list Z :=
  map (fun i => a + Z.of_nat i) (seq 0 (Z.to_nat (b - a))).

(** [s.ljust(n, "A")] *)
Definition ljust_A (s : string) (n : Z) : string :=
  s ++ string_of_list_ascii (repeat "A"%char (Z.to_nat (n - len s))).

(** [s[:n]] for [n >= 0] *)
Definition prefix (s : string) (n : Z) : string := substring 0 (Z.to_nat n) s.

Definition upper_char (c : ascii) : ascii :=
  let n := nat_of_ascii c in
  if ((97 <=? n) && (n <=? 122))%nat then ascii_of_nat (n - 32) else c.

(** [s.upper()] on ASCII text *)
Definition upper (s : string) : string :=
  string_of_list_ascii (map upper_char (list_ascii_of_string s)).

End Seq.

Import PyRandom.

Definition RBS_NUCLEOTIDES : list ascii := ["A"; "C"; "G"; "T"]%char.
Definition DESIGN_SD_CORE : string := "AGGAGG".

(** "".join(rnd.choice(RBS_NUCLEOTIDES) for _ in range(n)) *)
Fixpoint draw_letters (n : nat) : Rnd string :=
  match n with
  | O => ret EmptyString
  | S n' => c <- choice "A"%char RBS_NUCLEOTIDES ;;
            rest <- draw_letters n' ;;
            ret (String c rest)
  end.

(** [random_rbs(rnd, min_length, max_length, seed, spacing_min, spacing_max,
    sd_cores)]; [sd_cores = None] is [None]. *)
Definition random_rbs (min_length max_length : Z) (seed : string)
    (spacing_min spacing_max : Z) (sd_cores : option (list string)) : Rnd string :=
  let min_length := Z.max 4 min_length in
  let max_length := Z.max min_length max_length in
  length <- randint min_length max_length ;;
  let sd_cores := match sd_cores with None => [DESIGN_SD_CORE] | Some l => l end in
  let sd_cores := filter (fun core => negb (String.eqb core "")) sd_cores in
  let sd_cores := match sd_cores with [] => [DESIGN_SD_CORE] | _ => sd_cores end in
  let feasible_spacings :=
    filter (fun spacing => existsb (fun core => Seq.len core + spacing <=? length) sd_cores)
           (Seq.zrange spacing_min (spacing_max + 1)) in
  match feasible_spacings with
  | _ :: _ =>
      spacing <- choice 0 feasible_spacings ;;
      let valid_cores := filter (fun core => Seq.len core + spacing <=? length) sd_cores in
      let valid_cores := match valid_cores with [] => [hd "" sd_cores] | _ => valid_cores end in
      sd_core <- choice "" valid_cores ;;
      let core_start := length - Seq.len sd_core - spacing in
      left <- draw_letters (Z.to_nat core_start) ;;
      right <- draw_letters (Z.to_nat (length - core_start - Seq.len sd_core)) ;;
      ret (left ++ sd_core ++ right)%string
  | [] =>
      if negb (String.eqb seed "") then
        let canonical := Seq.ljust_A (Seq.prefix seed length) length in
        ret (if length <? Seq.len canonical then Seq.prefix canonical length else canonical)
      else
        let canonical := Seq.ljust_A (hd "" sd_cores) length in
        ret (if length <? Seq.len canonical then Seq.prefix canonical length else canonical)
  end.

(** the move tags of [mutate_rbs] and of the search loop *)
Inductive move := Sub | Ins | Del | Noop | RandomMove.

Definition move_eqb (a b : move) : bool :=
  match a, b with
  | Sub, Sub | Ins, Ins | Del, Del | Noop, Noop | RandomMove, RandomMove => true
  | _, _ => false
  end.

(** [seq[idx] = c], [seq.insert(idx, c)], [del seq[idx]] on a list *)
Definition list_set {A} (l : list A) (i : nat) (c : A) : list A := app (firstn i l) (c :: skipn (S i) l).
Definition list_insert {A} (l : list A) (i : nat) (c : A) : list A := app (firstn i l) (c :: skipn i l).
Definition list_delete {A} (l : list A) (i : nat) : list A := app (firstn i l) (skipn (S i) l).

Definition qsum (ws : list Q) : Q := fold_left Qplus ws 0%Q.

(** [mutate_rbs(rnd, sequence, min_length, max_length, sub_weight,
    ins_weight, del_weight)] *)
Definition mutate_rbs (spacing_min spacing_max : Z) (sequence : string)
    (min_length max_length : Z) (sub_weight ins_weight del_weight : Q) : Rnd (string * move) :=
  if String.eqb sequence "" then
    s <- random_rbs min_length max_length "" spacing_min spacing_max None ;; ret (s, RandomMove)
  else
  let seq := list_ascii_of_string sequence in
  let n := Z.of_nat (List.length seq) in
  let choices := [(Sub, sub_weight); (Ins, ins_weight); (Del, del_weight)] in
  let choices := if n <=? min_length then filter (fun p => negb (move_eqb (fst p) Del)) choices
                 else choices in
  let choices := if max_length <=? n then filter (fun p => negb (move_eqb (fst p) Ins)) choices
                 else choices in
  match choices with
  | [] => ret (sequence, Noop)
  | (first, _) :: _ =>
      let total_weight := qsum (map snd choices) in
      action <- (if Qle_bool total_weight 0 then ret first
                 else choices1 Noop (map fst choices) (map snd choices)) ;;
      match action with
      | Sub =>
          idx <- randrange 0 n ;;
          let cur := nth (Z.to_nat idx) seq "A"%char in
          let replacements := filter (fun nt => negb (Ascii.eqb nt cur)) RBS_NUCLEOTIDES in
          c <- choice "A"%char replacements ;;
          ret (string_of_list_ascii (list_set seq (Z.to_nat idx) c), Sub)
      | Ins =>
          if n <? max_length then
            idx <- randrange 0 (n + 1) ;;
            c <- choice "A"%char RBS_NUCLEOTIDES ;;
            ret (string_of_list_ascii (list_insert seq (Z.to_nat idx) c), Ins)
          else ret (sequence, Noop)
      | Del =>
          if min_length <? n then
            idx <- randrange 0 n ;;
            ret (string_of_list_ascii (list_delete seq (Z.to_nat idx)), Del)
          else ret (sequence, Noop)
      | _ => ret (sequence, Noop)
      end
  end.

(** ** Numbers: [float] with its infinity, and the C math library *)

Inductive xfloat := Fin (q : Q) | PInf.

Definition is_inf (x : xfloat) : bool := match x with PInf => true | Fin _ => false end.
Definition isfinite (x : xfloat) : bool := negb (is_inf x).

(** [x == y] and [x < y] on floats without NaN *)
Definition xeqb (x y : xfloat) : bool :=
  match x, y with
  | Fin a, Fin b => Qeq_bool a b
  | PInf, PInf => true
  | _, _ => false
  end.
Definition xltb (x y : xfloat) : bool :=
  match x, y with
  | Fin a, Fin b => Qltb a b
  | Fin _, PInf => true
  | PInf, _ => false
  end.

(** [x - y] for a finite [y] *)
Definition xsub (x : xfloat) (y : Q) : xfloat :=
  match x with Fin a => Fin (a - y)%Q | PInf => PInf end.

Record Libm := { log10 : Q -> Q; exp : Q -> Q }.

(** Python [int(x)] of a float: truncation towards zero *)
Definition py_int (q : Q) : Z := Z.quot (Qnum q) (Zpos (Qden q)).

(** ** The oracle's row and the Candidate *)

(** The answer of [run_ostir_for_start_position]: [None] when it returns
    nothing (or an empty dict); the fields after [_coerce_float] /
    [str(...)], so [None] is a missing or unparsable number. *)
Module OstirRow.
Record t := mk { expression : option Q; start_position : option Q; start_codon : string }.
End OstirRow.

Record Candidate := {
  rbs_sequence : string;
  full_sequence : string;
  start_position : option Q;
  start_codon : string;
  predicted_expression : Q;
  error : xfloat;
  row : option OstirRow.t;
  rejected : bool;
  reject_reason : option string }.

(** The per-run cache [evaluated], the list [top_candidates] that
    [ensure_cache] appends to, and the fragments it sent to the oracle,
    oldest first. *)
Record Cache := {
  evaluated : list (string * Candidate);
  top_candidates : list Candidate;
  oracle_calls : list string }.

Definition empty_cache : Cache := {| evaluated := []; top_candidates := []; oracle_calls := [] |}.

Fixpoint lookup (k : string) (m : list (string * Candidate)) : option Candidate :=
  match m with
  | [] => None
  | (k', v) :: m' => if String.eqb k k' then Some v else lookup k m'
  end.

Section Evaluation.
Variable lm : Libm.
Variables pre_seq post_seq : string.
(** the oracle adapter: full sequence and expected start -> row *)
Variable oracle : string -> Z -> option OstirRow.t.
Variable target_log : Q.

Definition expected_start : Z := Seq.len pre_seq + 1.
Definition start_codon_expected : string := Seq.upper (Seq.prefix post_seq 3).

Definition build_invalid_candidate (rbs_seq full_seq reason : string) (r : option OstirRow.t)
    (observed_position : option Q) (observed_codon : string) : Candidate :=
  {| rbs_sequence := rbs_seq;
     full_sequence := full_seq;
     start_position := observed_position;
     start_codon := if String.eqb observed_codon "" then Seq.upper (Seq.prefix post_seq 3)
                    else observed_codon;
     predicted_expression := 0;
     error := PInf;
     row := r;
     rejected := true;
     reject_reason := Some reason |}.

(** [ensure_cache(rbs_seq)] *)
Definition ensure_cache (rbs_seq : string) (c : Cache) : Candidate * Cache :=
  match lookup rbs_seq (evaluated c) with
  | Some hit => (hit, c)
  | None =>
    let full_seq := pre_seq ++ rbs_seq ++ post_seq in
    let calls := app (oracle_calls c) [rbs_seq] in
    let store (cand : Candidate) (top : list Candidate) : Candidate * Cache :=
      (cand, {| evaluated := (rbs_seq, cand) :: evaluated c;
                top_candidates := top; oracle_calls := calls |}) in
    match oracle full_seq (expected_start + Seq.len rbs_seq) with
    | None =>
        store (build_invalid_candidate rbs_seq full_seq "no_valid_ostir_row" None None "")
              (top_candidates c)
    | Some r =>
      let observed_codon := Seq.upper (OstirRow.start_codon r) in
      match OstirRow.expression r with
      | Some expr =>
        if Qle_bool expr 0 then
          store (build_invalid_candidate rbs_seq full_seq "non_positive_expression" (Some r)
                   (OstirRow.start_position r) observed_codon) (top_candidates c)
        else if negb (String.eqb observed_codon start_codon_expected) then
          store (build_invalid_candidate rbs_seq full_seq "start_codon_mismatch" (Some r)
                   (OstirRow.start_position r) observed_codon) (top_candidates c)
        else
          let expected_pos := expected_start + Seq.len rbs_seq in
          match OstirRow.start_position r with
          | Some observed_pos =>
            if negb (py_int observed_pos =? expected_pos) then
              store (build_invalid_candidate rbs_seq full_seq "start_position_mismatch" (Some r)
                       (Some observed_pos) observed_codon) (top_candidates c)
            else
              let predicted_expr := if Qltb expr (1 # 1000000000000) then (1 # 1000000000000)%Q
                                    else expr in
              let result :=
                {| rbs_sequence := rbs_seq;
                   full_sequence := full_seq;
                   start_position := Some (inject_Z expected_pos);
                   start_codon := start_codon_expected;
                   predicted_expression := predicted_expr;
                   error := Fin (Qabs (log10 lm predicted_expr - target_log));
                   row := Some r;
                   rejected := false;
                   reject_reason := None |} in
              store result (app (top_candidates c) [result])
          | None =>
              store (build_invalid_candidate rbs_seq full_seq "start_position_mismatch" (Some r)
                       None observed_codon) (top_candidates c)
          end
      | None =>
          store (build_invalid_candidate rbs_seq full_seq "non_positive_expression" (Some r)
                   (OstirRow.start_position r) observed_codon) (top_candidates c)
      end
    end
  end.
End Evaluation.

(** [accept_probability(delta, temp)] *)
Definition accept_probability (lm : Libm) (delta temp : xfloat) : Q :=
  match temp, delta with
  | Fin t, Fin d =>
      if Qle_bool t 0 then 0 else if Qle_bool d 0 then 1 else exp lm (- d / t)
  | _, _ => 0
  end.

(** ** Configuration (module constants read from the environment) *)
Record Config := {
  DESIGN_SD_CORES : list string;
  DESIGN_SD_SPACING_MIN : Z;
  DESIGN_SD_SPACING_MAX : Z;
  DESIGN_RESTART_PATIENCE : Z;
  DESIGN_ACCEPT_WINDOW : Z;
  DESIGN_TEMPERATURE_INIT : Q;
  DESIGN_TEMPERATURE_MIN : Q;
  DESIGN_TEMPERATURE_MAX : Q }.

(** the values when no environment variable is set *)
Definition default_config : Config := {|
  DESIGN_SD_CORES := [DESIGN_SD_CORE];
  DESIGN_SD_SPACING_MIN := 5;
  DESIGN_SD_SPACING_MAX := 9;
  DESIGN_RESTART_PATIENCE := 100;
  DESIGN_ACCEPT_WINDOW := 20;
  DESIGN_TEMPERATURE_INIT := 1;
  DESIGN_TEMPERATURE_MIN := 1 # 10000;
  DESIGN_TEMPERATURE_MAX := 8 |}.

(** the counters [move_type_attempts] / [move_type_accepts] *)
Record MoveCounts := { n_sub : Z; n_ins : Z; n_del : Z; n_noop : Z; n_random : Z }.

Definition zero_counts : MoveCounts := {| n_sub := 0; n_ins := 0; n_del := 0; n_noop := 0; n_random := 0 |}.

Definition bump (m : move) (c : MoveCounts) : MoveCounts :=
  match m with
  | Sub => {| n_sub := n_sub c + 1; n_ins := n_ins c; n_del := n_del c; n_noop := n_noop c; n_random := n_random c |}
  | Ins => {| n_sub := n_sub c; n_ins := n_ins c + 1; n_del := n_del c; n_noop := n_noop c; n_random := n_random c |}
  | Del => {| n_sub := n_sub c; n_ins := n_ins c; n_del := n_del c + 1; n_noop := n_noop c; n_random := n_random c |}
  | Noop => {| n_sub := n_sub c; n_ins := n_ins c; n_del := n_del c; n_noop := n_noop c + 1; n_random := n_random c |}
  | RandomMove => {| n_sub := n_sub c; n_ins := n_ins c; n_del := n_del c; n_noop := n_noop c; n_random := n_random c + 1 |}
  end.

(** ** The run state: the local variables of [design_rbs_candidates] that
    its nested functions and its loop update *)
Record RunState := {
  cache : Cache;
  rnd : MT.state;
  best_candidate : option Candidate;
  best_error : xfloat;
  best_iteration : option Z;
  pool_index : nat;
  temperature : Q;
  current_error : xfloat;
  current_rbs : string;
  stagnation_count : Z;
  accept_history : list bool;
  restart_count : Z;
  iteration : Z;
  move_type_attempts : MoveCounts;
  move_type_accepts : MoveCounts }.

Definition mkRunState := Build_RunState.

Definition set_cache (v : Cache) (st : RunState) : RunState :=
  mkRunState v (rnd st) (best_candidate st) (best_error st) (best_iteration st) (pool_index st) (temperature st) (current_error st) (current_rbs st) (stagnation_count st) (accept_history st) (restart_count st) (iteration st) (move_type_attempts st) (move_type_accepts st).
Definition set_rnd (v : MT.state) (st : RunState) : RunState :=
  mkRunState (cache st) v (best_candidate st) (best_error st) (best_iteration st) (pool_index st) (temperature st) (current_error st) (current_rbs st) (stagnation_count st) (accept_history st) (restart_count st) (iteration st) (move_type_attempts st) (move_type_accepts st).
Definition set_best_candidate (v : option Candidate) (st : RunState) : RunState :=
  mkRunState (cache st) (rnd st) v (best_error st) (best_iteration st) (pool_index st) (temperature st) (current_error st) (current_rbs st) (stagnation_count st) (accept_history st) (restart_count st) (iteration st) (move_type_attempts st) (move_type_accepts st).
Definition set_best_error (v : xfloat) (st : RunState) : RunState :=
  mkRunState (cache st) (rnd st) (best_candidate st) v (best_iteration st) (pool_index st) (temperature st) (current_error st) (current_rbs st) (stagnation_count st) (accept_history st) (restart_count st) (iteration st) (move_type_attempts st) (move_type_accepts st).
Definition set_best_iteration (v : option Z) (st : RunState) : RunState :=
  mkRunState (cache st) (rnd st) (best_candidate st) (best_error st) v (pool_index st) (temperature st) (current_error st) (current_rbs st) (stagnation_count st) (accept_history st) (restart_count st) (iteration st) (move_type_attempts st) (move_type_accepts st).
Definition set_pool_index (v : nat) (st : RunState) : RunState :=
  mkRunState (cache st) (rnd st) (best_candidate st) (best_error st) (best_iteration st) v (temperature st) (current_error st) (current_rbs st) (stagnation_count st) (accept_history st) (restart_count st) (iteration st) (move_type_attempts st) (move_type_accepts st).
Definition set_temperature (v : Q) (st : RunState) : RunState :=
  mkRunState (cache st) (rnd st) (best_candidate st) (best_error st) (best_iteration st) (pool_index st) v (current_error st) (current_rbs st) (stagnation_count st) (accept_history st) (restart_count st) (iteration st) (move_type_attempts st) (move_type_accepts st).
Definition set_current_error (v : xfloat) (st : RunState) : RunState :=
  mkRunState (cache st) (rnd st) (best_candidate st) (best_error st) (best_iteration st) (pool_index st) (temperature st) v (current_rbs st) (stagnation_count st) (accept_history st) (restart_count st) (iteration st) (move_type_attempts st) (move_type_accepts st).
Definition set_current_rbs (v : string) (st : RunState) : RunState :=
  mkRunState (cache st) (rnd st) (best_candidate st) (best_error st) (best_iteration st) (pool_index st) (temperature st) (current_error st) v (stagnation_count st) (accept_history st) (restart_count st) (iteration st) (move_type_attempts st) (move_type_accepts st).
Definition set_stagnation_count (v : Z) (st : RunState) : RunState :=
  mkRunState (cache st) (rnd st) (best_candidate st) (best_error st) (best_iteration st) (pool_index st) (temperature st) (current_error st) (current_rbs st) v (accept_history st) (restart_count st) (iteration st) (move_type_attempts st) (move_type_accepts st).
Definition set_accept_history (v : list bool) (st : RunState) : RunState :=
  mkRunState (cache st) (rnd st) (best_candidate st) (best_error st) (best_iteration st) (pool_index st) (temperature st) (current_error st) (current_rbs st) (stagnation_count st) v (restart_count st) (iteration st) (move_type_attempts st) (move_type_accepts st).
Definition set_restart_count (v : Z) (st : RunState) : RunState :=
  mkRunState (cache st) (rnd st) (best_candidate st) (best_error st) (best_iteration st) (pool_index st) (temperature st) (current_error st) (current_rbs st) (stagnation_count st) (accept_history st) v (iteration st) (move_type_attempts st) (move_type_accepts st).
Definition set_iteration (v : Z) (st : RunState) : RunState :=
  mkRunState (cache st) (rnd st) (best_candidate st) (best_error st) (best_iteration st) (pool_index st) (temperature st) (current_error st) (current_rbs st) (stagnation_count st) (accept_history st) (restart_count st) v (move_type_attempts st) (move_type_accepts st).
Definition set_move_type_attempts (v : MoveCounts) (st : RunState) : RunState :=
  mkRunState (cache st) (rnd st) (best_candidate st) (best_error st) (best_iteration st) (pool_index st) (temperature st) (current_error st) (current_rbs st) (stagnation_count st) (accept_history st) (restart_count st) (iteration st) v (move_type_accepts st).
Definition set_move_type_accepts (v : MoveCounts) (st : RunState) : RunState :=
  mkRunState (cache st) (rnd st) (best_candidate st) (best_error st) (best_iteration st) (pool_index st) (temperature st) (current_error st) (current_rbs st) (stagnation_count st) (accept_history st) (restart_count st) (iteration st) (move_type_attempts st) v.

Definition bindr {A B} (m : res A) (f : A -> res B) : res B :=
  match m with Ok a => f a | Err e => Err e end.

Notation "' p <-- m ;; k" := (bindr m (fun x => match x with p => k end))
  (at level 61, p pattern, m at next level, right associativity).

(** Python's [sum(1 for v in h if v) / float(len(h))] or [0.0] *)
Definition accept_ratio (h : list bool) : Q :=
  match h with
  | [] => 0%Q
  | _ => (Z.of_nat (List.length (filter (fun b => b) h)) # 1) / (Z.of_nat (List.length h) # 1)
  end.

(** [accept_history.append(accepted)] then [pop(0)] past the window *)
Definition push_history (accept_window : Z) (h : list bool) (accepted : bool) : list bool :=
  let h := app h [accepted] in
  if accept_window <? Z.of_nat (List.length h) then tl h else h.

(** the temperature update once the history is read *)
Definition adapt_temperature (cfg : Config) (accept_window : Z) (h : list bool) (t : Q) : Q :=
  let accept_ratio := accept_ratio h in
  if Z.of_nat (List.length h) =? accept_window then
    if Qltb (1 # 2) accept_ratio then Qmax (DESIGN_TEMPERATURE_MIN cfg) (t * (1 # 2))%Q
    else if Qltb accept_ratio (5 # 100) then Qmin (DESIGN_TEMPERATURE_MAX cfg) (t * 2)%Q
    else t
  else t.

(** [current_move_weights(step, total_steps, current_temperature)] *)
Definition current_move_weights (cfg : Config) (step total_steps : Z) (current_temperature : Q)
    : Q * Q * Q :=
  let ratio := if 1 <? total_steps
               then Qmin 1%Q (inject_Z (step - 1) / inject_Z (Z.max 1 (total_steps - 1)))
               else 0%Q in
  let sub_weight := (1 + 7 * ratio)%Q in
  let max_temp := Qmax (DESIGN_TEMPERATURE_MAX cfg) (DESIGN_TEMPERATURE_INIT cfg) in
  let temp_factor := ((current_temperature - DESIGN_TEMPERATURE_MIN cfg)
                     / Qmax (1 # 1000000000000) (max_temp - DESIGN_TEMPERATURE_MIN cfg))%Q in
  let temp_factor := Qmax 0%Q (Qmin 1%Q temp_factor) in
  let exploration_scale := (1 + 2 * temp_factor)%Q in
  let ins_weight := Qmax (2 # 10) (exploration_scale * (1 - (3 # 10) * ratio))%Q in
  let del_weight := Qmax (2 # 10) (exploration_scale * (1 - (3 # 10) * ratio))%Q in
  (sub_weight, ins_weight, del_weight).

Section Search.
Variable lm : Libm.
Variable cfg : Config.
Variables pre_seq post_seq : string.
Variable oracle : string -> Z -> option OstirRow.t.
Variable target_log : Q.
(** the run's clamped bounds and derived constants *)
Variables min_length max_length : Z.
Variable sd_cores : list string.
Variable seed_pool : list string.
Variables accept_window restart_patience max_iter : Z.

Definition with_rnd {A} (st : RunState) (m : Rnd A) : res (A * RunState) :=
  match m (rnd st) with Ok (a, r) => Ok (a, set_rnd r st) | Err e => Err e end.

Definition eval_cached (rbs_seq : string) (st : RunState) : Candidate * RunState :=
  let '(c, ca) := ensure_cache lm pre_seq post_seq oracle target_log rbs_seq (cache st) in
  (c, set_cache ca st).

Definition fresh_random_rbs : Rnd string :=
  random_rbs min_length max_length "" (DESIGN_SD_SPACING_MIN cfg) (DESIGN_SD_SPACING_MAX cfg)
    (Some sd_cores).

(** [restart_from_pool(restart_index)] *)
Definition restart_from_pool (restart_index : Z) (st : RunState) : res RunState :=
  '(cur, st) <-- (if (pool_index st <? List.length seed_pool)%nat
                  then Ok (nth (pool_index st) seed_pool "", set_pool_index (S (pool_index st)) st)
                  else with_rnd st fresh_random_rbs) ;;
  let st := set_current_rbs cur st in
  let '(result, st) := eval_cached cur st in
  let st := set_current_error (if negb (rejected result) then error result else PInf) st in
  let st := set_stagnation_count 0 st in
  let st := set_temperature (Qmax (DESIGN_TEMPERATURE_MIN cfg)
               (Qmin (DESIGN_TEMPERATURE_MAX cfg) (DESIGN_TEMPERATURE_INIT cfg))) st in
  Ok (set_restart_count restart_index st).

(** the acceptance decision of one iteration, for a candidate that
    differs from [current_rbs]; it draws [rnd.random()] when the
    incumbent is finite *)
Definition decide (result : Candidate) (st : RunState) : res (bool * RunState) :=
  let candidate_error := error result in
  let rej := rejected result in
  match current_error st with
  | PInf => Ok (isfinite candidate_error && negb rej, st)
  | Fin cur =>
      let delta := xsub candidate_error cur in
      let acceptance_prob := accept_probability lm delta (Fin (temperature st)) in
      '(u, st) <-- with_rnd st random ;;
      Ok (Qle_bool u acceptance_prob && negb rej, st)
  end.

(** the bookkeeping after the decision on [result] *)
Definition record_decision (move_type : move) (candidate : string) (result : Candidate)
    (accepted : bool) (st : RunState) : RunState :=
  let candidate_error := error result in
  if accepted then
    let st := set_current_error candidate_error (set_current_rbs candidate st) in
    let st := set_move_type_accepts (bump move_type (move_type_accepts st)) st in
    if negb (rejected result) && xltb candidate_error (best_error st) then
      set_stagnation_count 0 (set_best_iteration (Some (iteration st))
        (set_best_error candidate_error (set_best_candidate (Some result) st)))
    else set_stagnation_count (stagnation_count st + 1) st
  else set_stagnation_count (stagnation_count st + 1) st.

(** one pass of the inner [for] loop (the trace and progress output apart) *)
Definition search_step (st : RunState) : res RunState :=
  let st := set_iteration (iteration st + 1) st in
  let step := iteration st in
  '((candidate, move_type), st) <--
    (if negb (String.eqb (current_rbs st) "") then
       let '(sub_weight, ins_weight, del_weight) :=
         current_move_weights cfg step max_iter (temperature st) in
       with_rnd st (mutate_rbs (DESIGN_SD_SPACING_MIN cfg) (DESIGN_SD_SPACING_MAX cfg)
                      (current_rbs st) min_length max_length sub_weight ins_weight del_weight)
     else
       with_rnd st (s <- fresh_random_rbs ;; ret (s, RandomMove))) ;;
  let st := set_move_type_attempts (bump move_type (move_type_attempts st)) st in
  '(accepted, st) <--
    (if String.eqb candidate (current_rbs st) then
       Ok (false, set_accept_history (app (accept_history st) [false]) st)
     else
       let '(result, st) := eval_cached candidate st in
       '(accepted, st) <-- decide result st ;;
       let st := record_decision move_type candidate result accepted st in
       Ok (accepted, set_accept_history (app (accept_history st) [accepted]) st)) ;;
  let h := accept_history st in
  let st := set_accept_history
              (if accept_window <? Z.of_nat (List.length h) then tl h else h) st in
  let st := set_temperature
              (adapt_temperature cfg accept_window (accept_history st) (temperature st)) st in
  match best_candidate st, current_error st with
  | None, Fin _ =>
      let '(current_best, st) := eval_cached (current_rbs st) st in
      if negb (rejected current_best) then
        Ok (set_best_iteration (Some (iteration st))
              (set_best_error (error current_best) (set_best_candidate (Some current_best) st)))
      else Ok st
  | _, _ => Ok st
  end.

(** [for _ in range(inner_limit): ... if stagnation_count >= restart_patience: break] *)
Fixpoint inner_loop (n : nat) (st : RunState) : res RunState :=
  match n with
  | O => Ok st
  | S n' =>
      '(st) <-- search_step st ;;
      if restart_patience <=? stagnation_count st then Ok st else inner_loop n' st
  end.

(** [while iteration < max_iter:]; every round runs at least one
    iteration, so [max_iter] rounds of fuel reach the exit test *)
Fixpoint outer_loop (fuel : nat) (st : RunState) : res RunState :=
  match fuel with
  | O => Ok st
  | S fuel' =>
      if iteration st <? max_iter then
        let st := set_restart_count (restart_count st + 1) st in
        '(st) <-- restart_from_pool (restart_count st) st ;;
        let inner_limit := Z.min restart_patience (max_iter - iteration st) in
        '(st) <-- inner_loop (Z.to_nat inner_limit) st ;;
        outer_loop fuel' st
      else Ok st
  end.
End Search.

(** ** Ranking of the cached candidates *)

(** [(a["error"], -a["predicted_expression"]) < (b["error"], -b["predicted_expression"])]
    as Python compares tuples *)
Definition key_lt (a b : Candidate) : bool :=
  if xeqb (error a) (error b)
  then Qltb (- predicted_expression a) (- predicted_expression b)
  else xltb (error a) (error b).

(** [sorted(l, key=...)]: stable, a later item goes after the items with
    an equal key *)
Fixpoint insert_sorted (x : Candidate) (l : list Candidate) : list Candidate :=
  match l with
  | [] => [x]
  | y :: l' => if key_lt x y then x :: l else y :: insert_sorted x l'
  end.

Definition sort_candidates (l : list Candidate) : list Candidate :=
  fold_left (fun acc x => insert_sorted x acc) l [].

(** the [for item in sorted(...)] loop that fills [unique_candidates] *)
Fixpoint take_unique (top_n : Z) (seen : list string) (acc l : list Candidate) : list Candidate :=
  match l with
  | [] => acc
  | item :: l' =>
      if existsb (String.eqb (rbs_sequence item)) seen then take_unique top_n seen acc l'
      else if String.eqb (rbs_sequence item) "" then take_unique top_n seen acc l'
      else if rejected item || Qle_bool (predicted_expression item) 0 then take_unique top_n seen acc l'
      else
        let acc := app acc [item] in
        if top_n <=? Z.of_nat (List.length acc) then acc
        else take_unique top_n (rbs_sequence item :: seen) acc l'
  end.

(** ** [design_rbs_candidates] *)

(** the keys of the diagnostics dict the model keeps ([trace] and
    [restart_log] are printed text); [None] is a key the dict lacks *)
Module Diagnostics.
Record t := {
  early_exit : bool;
  restart_count : Z;
  accept_window : Z;
  iterations_requested : Z;
  best_error : option xfloat;
  best_iteration : option Z;
  move_type_attempts : MoveCounts;
  move_type_accepts : MoveCounts }.
End Diagnostics.

(** the returned triple, and the run's cache (its oracle calls included) *)
Record Design := {
  ranked : list Candidate;
  best : option Candidate;
  diagnostics : Diagnostics.t;
  run_cache : Cache }.

Definition is_ascii_digit (c : ascii) : bool :=
  let n := nat_of_ascii c in ((48 <=? n) && (n <=? 57))%nat.

(** [s.isdigit()] on ASCII text *)
Definition isdigit (s : string) : bool :=
  negb (String.eqb s "") && forallb is_ascii_digit (list_ascii_of_string s).

(** [int(s)] for a string of decimal digits *)
Definition parse_int (s : string) : Z :=
  fold_left (fun acc c => acc * 10 + Z.of_nat (nat_of_ascii c - 48)) (list_ascii_of_string s) 0.

(** [int(random_seed) if random_seed and random_seed.isdigit() else None] *)
Definition rnd_seed (random_seed : option string) : option Z :=
  match random_seed with
  | Some s => if isdigit s then Some (parse_int s) else None
  | None => None
  end.

(** the argument of [random.Random(rnd_seed or random.randint(1, 2**31 - 1))];
    [global_draw] is the value the process-wide generator (seeded from the
    operating system) returns for that [randint] call *)
Definition generator_seed (random_seed : option string) (global_draw : Z) : Z :=
  match rnd_seed random_seed with
  | Some n => if n =? 0 then global_draw else n
  | None => global_draw
  end.

(** the [for _ in range(pool_size)] loop that fills [seed_pool] *)
Fixpoint build_pool (cfg : Config) (min_length max_length : Z) (sd_cores : list string)
    (n : nat) (pool_size : Z) (seed_pool : list string) : Rnd (list string) :=
  match n with
  | O => ret seed_pool
  | S n' =>
      candidate <- random_rbs min_length max_length "" (DESIGN_SD_SPACING_MIN cfg)
                     (DESIGN_SD_SPACING_MAX cfg) (Some sd_cores) ;;
      let seed_pool := if existsb (String.eqb candidate) seed_pool then seed_pool
                       else app seed_pool [candidate] in
      if pool_size <=? Z.of_nat (List.length seed_pool) then ret seed_pool
      else build_pool cfg min_length max_length sd_cores n' pool_size seed_pool
  end.

Definition early_exit_result (cfg : Config) (iterations : Z) : Design :=
  {| ranked := [];
     best := None;
     diagnostics := {| Diagnostics.early_exit := true;
                       Diagnostics.restart_count := 0;
                       Diagnostics.accept_window := DESIGN_ACCEPT_WINDOW cfg;
                       Diagnostics.iterations_requested := iterations;
                       Diagnostics.best_error := None;
                       Diagnostics.best_iteration := None;
                       Diagnostics.move_type_attempts := zero_counts;
                       Diagnostics.move_type_accepts := zero_counts |};
     run_cache := empty_cache |}.

Definition design_rbs_candidates (lm : Libm) (cfg : Config) (oracle : string -> Z -> option OstirRow.t)
    (global_draw : Z) (pre_seq post_seq : string) (target_expression : Q)
    (min_length max_length iterations top_n : Z) (random_seed : option string) : res Design :=
  if (iterations <=? 0) || (top_n <=? 0) then Ok (early_exit_result cfg iterations)
  else
  let r0 := MT.seed (generator_seed random_seed global_draw) in
  let min_length := Z.max 4 min_length in
  let max_length := Z.max min_length max_length in
  if Qle_bool target_expression 0 then Err ValueError
  else
  let target_log := log10 lm target_expression in
  let sd_cores := filter (fun core => negb (String.eqb core "")) (DESIGN_SD_CORES cfg) in
  let pool_size := Z.max 4 (Z.min 12 (Z.max 4 (iterations / 5))) in
  '(seed_pool, r) <-- build_pool cfg min_length max_length sd_cores (Z.to_nat pool_size)
                        pool_size [] r0 ;;
  '(seed_pool, r) <-- (match seed_pool with
                       | [] => match random_rbs min_length max_length "" (DESIGN_SD_SPACING_MIN cfg)
                                       (DESIGN_SD_SPACING_MAX cfg) None r with
                               | Ok (s, r) => Ok ([s], r)
                               | Err e => Err e
                               end
                       | _ => Ok (seed_pool, r)
                       end) ;;
  let accept_window := Z.max 4 (Z.min (DESIGN_ACCEPT_WINDOW cfg) iterations) in
  let restart_patience := Z.max 1 (DESIGN_RESTART_PATIENCE cfg) in
  let max_iter := Z.max 1 iterations in
  let st0 := mkRunState empty_cache r None PInf None O (DESIGN_TEMPERATURE_INIT cfg) PInf "" 0 []
               0 0 zero_counts zero_counts in
  '(st) <-- outer_loop lm cfg pre_seq post_seq oracle target_log min_length max_length sd_cores
              seed_pool accept_window restart_patience max_iter (S (Z.to_nat max_iter)) st0 ;;
  Ok {| ranked := take_unique top_n [] [] (sort_candidates (top_candidates (cache st)));
        best := best_candidate st;
        diagnostics := {| Diagnostics.early_exit := false;
                          Diagnostics.restart_count := restart_count st;
                          Diagnostics.accept_window := accept_window;
                          Diagnostics.iterations_requested := iterations;
                          Diagnostics.best_error := Some (best_error st);
                          Diagnostics.best_iteration := best_iteration st;
                          Diagnostics.move_type_attempts := move_type_attempts st;
                          Diagnostics.move_type_accepts := move_type_accepts st |};
        run_cache := cache st |}.

(** ** [_run_design_core]: optional full-length refinement, output records *)

(** [_evaluate_design_candidate_full_sequence(pre_seq, post_seq, rbs_seq,
    target_log, start_codon=start_codon)] *)
Definition evaluate_full (lm : Libm) (oracle : string -> Z -> option OstirRow.t)
    (pre_seq post_seq rbs_seq : string) (target_log : Q) (start_codon : option string)
    : option Candidate :=
  if String.eqb rbs_seq "" then None
  else
  let expected_start := Seq.len pre_seq + Seq.len rbs_seq + 1 in
  let expected_start_codon :=
    Seq.upper (match start_codon with
               | Some c => if String.eqb c "" then Seq.prefix post_seq 3 else c
               | None => Seq.prefix post_seq 3
               end) in
  let full_seq := pre_seq ++ rbs_seq ++ post_seq in
  let invalid (sp : option Q) (sc : string) (r : option OstirRow.t) (reason : string) : option Candidate :=
    Some {| rbs_sequence := rbs_seq; full_sequence := full_seq; start_position := sp;
            start_codon := sc; predicted_expression := 0; error := PInf; row := r;
            rejected := true; reject_reason := Some reason |} in
  match oracle full_seq expected_start with
  | None => invalid None expected_start_codon None "no_valid_ostir_row"
  | Some r =>
      let observed_codon := Seq.upper (OstirRow.start_codon r) in
      let non_positive :=
        invalid (OstirRow.start_position r)
          (if String.eqb observed_codon "" then expected_start_codon else observed_codon)
          (Some r) "non_positive_expression" in
      match OstirRow.expression r with
      | None => non_positive
      | Some expr =>
          if Qle_bool expr 0 then non_positive
          else if negb (String.eqb observed_codon expected_start_codon) then
            invalid (OstirRow.start_position r) observed_codon (Some r) "start_codon_mismatch"
          else
            match OstirRow.start_position r with
            | Some observed_position =>
                if negb (py_int observed_position =? expected_start) then
                  invalid (Some observed_position) observed_codon (Some r) "start_position_mismatch"
                else
                  let predicted_expr := if Qltb expr (1 # 1000000000000) then (1 # 1000000000000)%Q
                                        else expr in
                  Some {| rbs_sequence := rbs_seq; full_sequence := full_seq;
                          start_position := Some (inject_Z expected_start);
                          start_codon := expected_start_codon;
                          predicted_expression := predicted_expr;
                          error := Fin (Qabs (log10 lm predicted_expr - target_log));
                          row := Some r; rejected := false; reject_reason := None |}
            | None => invalid None observed_codon (Some r) "start_position_mismatch"
            end
      end
  end.

(** the refinement loop: [refined_candidates] *)
Fixpoint refine (lm : Libm) (oracle : string -> Z -> option OstirRow.t) (full_pre_seq full_post_seq : string)
    (target_log : Q) (start_codon : string) (l : list Candidate) : list Candidate :=
  match l with
  | [] => []
  | candidate :: l' =>
      let rest := refine lm oracle full_pre_seq full_post_seq target_log start_codon l' in
      if String.eqb (rbs_sequence candidate) "" then rest
      else match evaluate_full lm oracle full_pre_seq full_post_seq (rbs_sequence candidate)
                   target_log (Some start_codon) with
           | None => rest
           | Some evaluated => if rejected evaluated then rest else evaluated :: rest
           end
  end.

(** an element of the returned [ranked] list *)
Module Output.
Record t := {
  rank : Z;
  rbs_sequence : string;
  predicted_expression : Q;
  target_expression : Q;
  error : xfloat;
  fold_ratio : option Q;
  start_position : option Q;
  start_codon : string;
  full_sequence : string }.
End Output.

Fixpoint build_ranked (target_expression : Q) (index : Z) (l : list Candidate) : list Output.t :=
  match l with
  | [] => []
  | candidate :: l' =>
      let predicted := predicted_expression candidate in
      {| Output.rank := index;
         Output.rbs_sequence := rbs_sequence candidate;
         Output.predicted_expression := predicted;
         Output.target_expression := target_expression;
         Output.error := error candidate;
         Output.fold_ratio := if Qltb 0 predicted && Qltb 0 target_expression
                              then Some (predicted / target_expression)%Q else None;
         Output.start_position := start_position candidate;
         Output.start_codon := start_codon candidate;
         Output.full_sequence := full_sequence candidate |}
      :: build_ranked target_expression (index + 1) l'
  end.

(** [_run_design_core(payload)]: [truncated] is
    [truncation_info["pre"]["truncated"] or truncation_info["cds"]["truncated"]],
    [refinement_multiplier] is [RBS_DESIGN_FULL_REFINEMENT_MULTIPLIER] *)
Definition run_design_core (lm : Libm) (cfg : Config) (oracle : string -> Z -> option OstirRow.t)
    (global_draw : Z) (pre_seq post_seq full_pre_seq full_post_seq : string) (truncated : bool)
    (target_expression : Q) (min_len_i max_len_i iterations_i top_n_i : Z)
    (random_seed : string) (refinement_multiplier : Z) : res (list Output.t) :=
  '(out) <-- design_rbs_candidates lm cfg oracle global_draw pre_seq post_seq target_expression
               min_len_i max_len_i iterations_i top_n_i (Some random_seed) ;;
  let candidates := ranked out in
  (* math.log10 raises ValueError outside its domain *)
  if Qle_bool target_expression 0 then Err ValueError
  else
  let target_log := log10 lm target_expression in
  let refinement_multiplier := Z.max 1 refinement_multiplier in
  let refinement_limit := Z.min (Z.of_nat (List.length candidates)) (top_n_i * refinement_multiplier) in
  let candidates :=
    if truncated then
      let start_codon_expected :=
        if String.eqb full_post_seq "" then Seq.upper (Seq.prefix post_seq 3)
        else Seq.upper (Seq.prefix full_post_seq 3) in
      sort_candidates (refine lm oracle full_pre_seq full_post_seq target_log start_codon_expected
                         (firstn (Z.to_nat refinement_limit) candidates))
    else candidates in
  Ok (build_ranked target_expression 1 candidates).

(** ** A concrete [Libm] for running the model

    Coarse stand-ins: [log10] is exact at powers of ten and linear in
    between, [exp] a rational approximation.  It is only used to run the
    model on concrete inputs; the general theorems hold for every [Libm]. *)
Fixpoint digits (fuel : nat) (n : Z) : Z :=
  match fuel with O => 0 | S f => if n <=? 0 then 0 else 1 + digits f (n / 10) end.

Definition ndigits (n : Z) : Z := digits (Z.to_nat (Z.log2 n + 2)) n.

Definition pow10 (k : Z) : Q := if 0 <=? k then inject_Z (10 ^ k) else (1 # Z.to_pos (10 ^ (- k))).

Definition ilog10 (q : Q) : Z :=
  let d := ndigits (Qnum q) - ndigits (Zpos (Qden q)) in
  if Qle_bool (pow10 d) q then d else d - 1.

Definition libm_coarse : Libm := {|
  log10 := fun q => if Qle_bool q 0 then 0%Q
                    else let k := ilog10 q in (inject_Z k + (q / pow10 k - 1) / 9)%Q;
  exp := fun x => if Qle_bool x 0 then Qinv (1 - x + x * x / 2) else (1 + x + x * x / 2)%Q |}.

(** ** Input normalisation, sequence context and the OSTIR row selection *)

(** [c] matches the regular-expression character class [[cls]] *)
Definition in_class (cls : string) (c : ascii) : bool :=
  existsb (Ascii.eqb c) (list_ascii_of_string cls).

Definition IUPAC_CHARS : string := "ACGTUNRYSWKMBDHVNacgtunryswkmbdvh".
Definition IUPAC_UPPER : string := "ACGTUNRYSWKMBDHVN".

(** [normalize_sequence(raw)]:
    [re.sub(r"[^ACGTUNRYSWKMBDHVNacgtunryswkmbdvh]", "", raw).upper()] *)
Definition normalize_sequence (raw : string) : string :=
  Seq.upper (string_of_list_ascii (filter (in_class IUPAC_CHARS) (list_ascii_of_string raw))).

(** [re.fullmatch(r"[ACGTUNRYSWKMBDHVN]+", s)] as a truth value *)
Definition fullmatch_iupac_plus (s : string) : bool :=
  negb (String.eqb s "") && forallb (in_class IUPAC_UPPER) (list_ascii_of_string s).

(** [_looks_like_sequence_text(value, min_length)] *)
Definition looks_like_sequence_text (value : string) (min_length : Z) : bool :=
  let normalized := normalize_sequence value in
  if Seq.len normalized <? min_length then false
  else fullmatch_iupac_plus normalized.

(** [s.replace("U", "T")] *)
Definition replace_U_T (s : string) : string :=
  string_of_list_ascii
    (map (fun c => if Ascii.eqb c "U"%char then "T"%char else c) (list_ascii_of_string s)).

(** [_format_sequence(raw, keep_rna)] *)
Definition format_sequence (raw : string) (keep_rna : bool) : string :=
  let value := normalize_sequence raw in
  if negb keep_rna then replace_U_T value else value.

(** Python's index normalisation of a slice bound, and [s[a:b]] *)
Definition py_index (i n : Z) : Z := if i <? 0 then Z.max 0 (i + n) else Z.min i n.

Definition py_slice (s : string) (a b : Z) : string :=
  let n := Seq.len s in
  let a := py_index a n in
  let b := py_index b n in
  substring (Z.to_nat a) (Z.to_nat (b - a)) s.

(** [str(n)] of an int *)
Fixpoint str_digits (fuel : nat) (n : Z) (acc : string) : string :=
  match fuel with
  | O => acc
  | S f =>
      let acc := String (ascii_of_nat (48 + Z.to_nat (n mod 10))) acc in
      if n / 10 =? 0 then acc else str_digits f (n / 10) acc
  end.

Definition py_str_int (n : Z) : string :=
  if n <? 0 then "-" ++ str_digits (S (Z.to_nat (Z.log2 (- n)))) (- n) ""
  else str_digits (S (Z.to_nat (Z.log2 n))) n "".

(** one entry of [truncation_info] *)
Module TruncInfo.
Record t := mk { input_length : Z; used_length : Z; max_length : Z; truncated : bool }.
End TruncInfo.

(** [_truncate_design_sequences(pre_seq, post_seq)]; [pre_max] and
    [cds_max] are [RBS_DESIGN_PRESEQ_MAX_BP] and [RBS_DESIGN_CDS_MAX_BP] *)
Definition truncate_design_sequences (pre_max cds_max : Z) (pre_seq post_seq : string)
    : string * string * list string * (TruncInfo.t * TruncInfo.t) :=
  let pre_original_len := Seq.len pre_seq in
  let post_original_len := Seq.len post_seq in
  let info :=
    (TruncInfo.mk pre_original_len (Z.min pre_original_len pre_max) pre_max
                  (pre_max <? pre_original_len),
     TruncInfo.mk post_original_len (Z.min post_original_len cds_max) cds_max
                  (cds_max <? post_original_len)) in
  let '(pre_seq, warnings) :=
    if pre_max <? pre_original_len then
      let pre_seq := py_slice pre_seq (- pre_max) pre_original_len in
      (pre_seq,
       ["Pre-sequence was longer than " ++ py_str_int pre_max ++ " bp. " ++
        "Only the nearest " ++ py_str_int pre_max ++ " bp to RBS was kept " ++
        "(" ++ py_str_int pre_original_len ++ " -> " ++ py_str_int (Seq.len pre_seq) ++ ")."])
    else (pre_seq, []) in
  let '(post_seq, warnings) :=
    if cds_max <? post_original_len then
      let post_seq := py_slice post_seq 0 cds_max in
      (post_seq,
       app warnings
         ["CDS sequence was longer than " ++ py_str_int cds_max ++ " bp. " ++
          "Only the first " ++ py_str_int cds_max ++ " bp from the start codon was kept " ++
          "(" ++ py_str_int post_original_len ++ " -> " ++ py_str_int (Seq.len post_seq) ++ ")."])
    else (post_seq, warnings) in
  (pre_seq, post_seq, warnings, info).

(** [build_sequence_context(sequence, start_position, flank_bp)]: [start] is
    [int(start_position)], [None] when that conversion raises; the result
    [None] is the empty dict, [Some (start, end, context)] the three keys *)
Definition build_sequence_context (sequence : string) (start : option Z) (flank_bp : Z)
    : option (Z * Z * string) :=
  match start with
  | None => None
  | Some start =>
      if (start <=? 0) || String.eqb sequence "" then None
      else
        let start_idx := Z.max 1 (start - flank_bp) in
        let end_idx := Z.min (Seq.len sequence) (start + flank_bp + 2) in
        if (Seq.len sequence <? start_idx) || (end_idx <? 1) || (end_idx <? start_idx) then None
        else Some (start_idx, end_idx, py_slice sequence (start_idx - 1) end_idx)
  end.

(** the inner loop of [infer_spacing_from_sequence] for one core:
    [for idx in range(i, -1, -1)] *)
Fixpoint infer_spacing_at (spacing_min spacing_max : Z) (core sequence : string) (idx : nat)
    : option Z :=
  let here :=
    (* [sequence[idx : idx + core_len] == core] *)
    if String.eqb (substring idx (String.length core) sequence) core then
      let spacing := Seq.len sequence - (Z.of_nat idx + Seq.len core) in
      if (spacing_min <=? spacing) && (spacing <=? spacing_max) then Some spacing else None
    else None in
  match here with
  | Some s => Some s
  | None => match idx with O => None | S i => infer_spacing_at spacing_min spacing_max core sequence i end
  end.

(** [infer_spacing_from_sequence(sequence)], the helper of
    [design_rbs_candidates] whose result the restart log prints *)
Fixpoint infer_spacing_from_sequence (sd_cores : list string) (spacing_min spacing_max : Z)
    (sequence : string) : option Z :=
  match sd_cores with
  | [] => None
  | core :: cores =>
      match infer_spacing_at spacing_min spacing_max core sequence
              (Z.to_nat (Z.max 0 (Seq.len sequence - Seq.len core))) with
      | Some s => Some s
      | None => infer_spacing_from_sequence cores spacing_min spacing_max sequence
      end
  end.

(** [_coerce_float(row.get("start_position")) == expected_start] *)
Definition position_is (expected_start : Z) (r : OstirRow.t) : bool :=
  match OstirRow.start_position r with
  | Some q => Qeq_bool q (inject_Z expected_start)
  | None => false
  end.

(** [run_ostir_for_start_position(...)] once OSTIR has returned [rows] *)
Definition run_ostir_for_start_position (rows : list OstirRow.t) (expected_start : Z)
    (post_seq : string) : option OstirRow.t :=
  match rows with
  | [] => None
  | _ =>
      if negb (String.eqb post_seq "") then
        let expected_codon := Seq.upper (Seq.prefix post_seq 3) in
        find (fun r => position_is expected_start r &&
                       String.eqb (Seq.upper (OstirRow.start_codon r)) expected_codon) rows
      else find (position_is expected_start) rows
  end.

(** the oracle of [ensure_cache] when OSTIR answers [ostir_rows sequence start] *)
Definition ostir_oracle (ostir_rows : string -> Z -> list OstirRow.t) (post_seq : string)
    : string -> Z -> option OstirRow.t :=
  fun sequence expected_start =>
    run_ostir_for_start_position (ostir_rows sequence expected_start) expected_start post_seq.

(** * Specification-side definitions *)

(** ** Total correctness of generator programs

    [ok_with m P]: from every generator state, [m] returns (raises no
    exception) a value satisfying [P]. *)
Definition ok_with {A} (m : Rnd A) (P : A -> Prop) : Prop :=
  forall s, exists a s', m s = Ok (a, s') /\ P a.

(** the cache states reachable by evaluations *)
Inductive cache_reach (lm : Libm) (pre_seq post_seq : string) (oracle : string -> Z -> option OstirRow.t)
    (target_log : Q) : Cache -> Cache -> Prop :=
| cache_reach_refl c : cache_reach lm pre_seq post_seq oracle target_log c c
| cache_reach_step c k c' :
    cache_reach lm pre_seq post_seq oracle target_log
      (snd (ensure_cache lm pre_seq post_seq oracle target_log k c)) c' ->
    cache_reach lm pre_seq post_seq oracle target_log c c'.

(** the oracle log of a cache: no fragment twice, and exactly the cached ones *)
Definition calls_ok (c : Cache) : Prop :=
  NoDup (oracle_calls c) /\
  (forall k, In k (oracle_calls c) <-> lookup k (evaluated c) <> None).

(** the entries of a cache whose keys are at least [M] long *)
Definition cache_wf (M : Z) (c : Cache) : Prop :=
  (forall k, In k (oracle_calls c) -> M <= Seq.len k) /\
  (forall k v, In (k, v) (evaluated c) ->
     M <= Seq.len k /\ rbs_sequence v = k /\ (rejected v = false -> isfinite (error v) = true)) /\
  (forall x, In x (top_candidates c) ->
     M <= Seq.len (rbs_sequence x) /\ rejected x = false /\ isfinite (error x) = true).

(** the invariant of a run's state: every key, incumbent and best at least [min_length] long *)
Definition state_wf (min_length : Z) (st : RunState) : Prop :=
  cache_wf min_length (cache st) /\
  (min_length <= Seq.len (current_rbs st) \/ (current_rbs st = "" /\ current_error st = PInf)) /\
  (forall b, best_candidate st = Some b -> min_length <= Seq.len (rbs_sequence b) /\ rejected b = false).

(** the initial state of a run *)
Definition init_state (cfg : Config) (r : MT.state) : RunState :=
  mkRunState empty_cache r None PInf None O (DESIGN_TEMPERATURE_INIT cfg) PInf "" 0 [] 0 0
    zero_counts zero_counts.

(** the order of the ranked output: ascending error, descending expression on ties *)
Definition ranked_order (a b : Candidate) : Prop :=
  xltb (error a) (error b) = true \/
  (xeqb (error a) (error b) = true /\ (predicted_expression b <= predicted_expression a)%Q).

(** an element [take_unique] may keep *)
Definition keep_ok (x : Candidate) : Prop :=
  rejected x = false /\ (0 < predicted_expression x)%Q /\ rbs_sequence x <> "".

(** the temperature lies within the configured bounds *)
Definition temp_in_range (cfg : Config) (st : RunState) : Prop :=
  (DESIGN_TEMPERATURE_MIN cfg <= temperature st <= DESIGN_TEMPERATURE_MAX cfg)%Q.


(** how one step may change the best candidate *)
Definition best_update (st st' : RunState) : Prop :=
  best_candidate st' = best_candidate st /\ best_error st' = best_error st \/
  exists b, best_candidate st' = Some b /\ rejected b = false /\ best_error st' = error b /\
    (best_candidate st = None \/ xltb (error b) (best_error st) = true).

(** ** Properties of the input helpers and of the search's results *)

(** a row [run_ostir_for_start_position] may select *)
Definition row_ok (expected_start : Z) (post_seq : string) (r : OstirRow.t) : Prop :=
  (exists q, OstirRow.start_position r = Some q /\ (q == inject_Z expected_start)%Q) /\
  (post_seq <> "" -> Seq.upper (OstirRow.start_codon r) = Seq.upper (Seq.prefix post_seq 3)).

(** a string over the generator's alphabet [RBS_NUCLEOTIDES] *)
Definition acgt (s : string) : bool :=
  forallb (fun c => existsb (Ascii.eqb c) RBS_NUCLEOTIDES) (list_ascii_of_string s).

(** the move counters of a run: the attempts add up to the iterations,
    no [noop] and no [random] move, and no more accepts than attempts *)
Definition counts_ok (st : RunState) : Prop :=
  let a := move_type_attempts st in
  let c := move_type_accepts st in
  n_sub a + n_ins a + n_del a + n_noop a + n_random a = iteration st /\
  n_noop a = 0 /\ n_random a = 0 /\ n_noop c = 0 /\ n_random c = 0 /\
  0 <= n_sub c <= n_sub a /\ 0 <= n_ins c <= n_ins a /\ 0 <= n_del c <= n_del a.

(** a valid candidate evaluated against [pre_seq] and [post_seq]: its full
    sequence and its start position *)
Definition placed (pre_seq post_seq : string) (x : Candidate) : Prop :=
  full_sequence x = (pre_seq ++ rbs_sequence x ++ post_seq)%string /\
  start_position x = Some (inject_Z (Seq.len pre_seq + Seq.len (rbs_sequence x) + 1)).

(** * Example inputs for running the model *)

Definition c4_candidate : Candidate :=
  {| rbs_sequence := "AGGAGGAAAAAA"; full_sequence := "AGGAGGAAAAAAATG"; start_position := Some 13%Q;
     start_codon := "ATG"; predicted_expression := 1; error := Fin 0; row := None;
     rejected := false; reject_reason := None |}.

Definition c4_state : RunState :=
  mkRunState empty_cache (MT.seed 1) None PInf None O 0 (Fin 1) "AGGAGGAAAAAT" 0 [] 1 1
    zero_counts zero_counts.

Definition oracle_any_valid (full_seq : string) (pos : Z) : option OstirRow.t :=
  Some (OstirRow.mk (Some 1%Q) (Some (inject_Z pos)) "ATG").

(** the reject reasons as the specification lists them *)
Definition spec_reject_reasons : list string :=
  ["no_valid_oracle_row"; "non_positive_expression"; "start_codon_mismatch"; "start_position_mismatch"].

Definition c6_state : RunState :=
  mkRunState empty_cache (MT.seed 1) None PInf None O 1 PInf "" 0 (repeat true 9) 0 1
    zero_counts zero_counts.


(** the default configuration with other temperature settings *)
Definition temperature_config (tinit tmin tmax : Q) : Config := {|
  DESIGN_SD_CORES := [DESIGN_SD_CORE];
  DESIGN_SD_SPACING_MIN := 5;
  DESIGN_SD_SPACING_MAX := 9;
  DESIGN_RESTART_PATIENCE := 100;
  DESIGN_ACCEPT_WINDOW := 20;
  DESIGN_TEMPERATURE_INIT := tinit;
  DESIGN_TEMPERATURE_MIN := tmin;
  DESIGN_TEMPERATURE_MAX := tmax |}.



Definition c1_out : list Output.t :=
  match run_design_core libm_coarse default_config oracle_any_valid 1 "" "ATG" "" "ATG" true 1
          12 12 5 1 "42" 1 with
  | Ok o => o
  | Err _ => []
  end.

Definition c3_design : Design :=
  match design_rbs_candidates libm_coarse default_config oracle_any_valid 1 "" "ATG" 1 12 12 5 1
          (Some "42") with
  | Ok d => d
  | Err _ => early_exit_result default_config 5
  end.

(** * Properties *)

(** ** Strings *)

Lemma str_length_append (a b : string) :
  String.length (a ++ b) = (String.length a + String.length b)%nat.
Proof. induction a as [|c a IH]; simpl; [reflexivity | now rewrite IH]. Qed.

Lemma str_length_of_list (l : list ascii) :
  String.length (string_of_list_ascii l) = List.length l.
Proof. induction l as [|c l IH]; simpl; [reflexivity | now rewrite IH]. Qed.

Lemma str_length_as_list (s : string) :
  String.length s = List.length (list_ascii_of_string s).
Proof. induction s as [|c s IH]; simpl; [reflexivity | now rewrite IH]. Qed.

Lemma len_nonneg (s : string) : 0 <= Seq.len s.
Proof. unfold Seq.len; lia. Qed.

Lemma len_append (a b : string) : Seq.len (a ++ b) = Seq.len a + Seq.len b.
Proof. unfold Seq.len; rewrite str_length_append; lia. Qed.

Lemma substring_0_length (n : nat) (s : string) :
  String.length (substring 0 n s) = Nat.min n (String.length s).
Proof.
  revert n; induction s as [|c s IH]; intros [|n]; simpl; try reflexivity.
  now rewrite IH.
Qed.

Lemma len_nonempty (s : string) : 0 < Seq.len s -> s <> "".
Proof. intros H ->. unfold Seq.len in H; simpl in H; lia. Qed.

(** the length fix-up at the end of [random_rbs]'s fallback branch *)
Lemma ljust_fit_length (s : string) (n : Z) :
  0 <= n ->
  n <= Seq.len (let canonical := Seq.ljust_A s n in
                if n <? Seq.len canonical then Seq.prefix canonical n else canonical).
Proof.
  intros Hn. cbv zeta.
  assert (Hl : n <= Seq.len (Seq.ljust_A s n)).
  { unfold Seq.ljust_A. rewrite len_append.
    unfold Seq.len at 2. rewrite str_length_of_list, repeat_length. lia. }
  destruct (n <? Seq.len (Seq.ljust_A s n)) eqn:E; [|exact Hl].
  apply Z.ltb_lt in E. unfold Seq.prefix, Seq.len at 1. rewrite substring_0_length.
  unfold Seq.len in E. lia.
Qed.

(** ** Total correctness of generator programs *)

Lemma ok_with_ret {A} (P : A -> Prop) (a : A) : P a -> ok_with (ret a) P.
Proof. intros H s. exists a, s. split; [reflexivity | exact H]. Qed.

Lemma ok_with_bind {A B} (m : Rnd A) (f : A -> Rnd B) (P : A -> Prop) (R : B -> Prop) :
  ok_with m P -> (forall a, P a -> ok_with (f a) R) -> ok_with (bind m f) R.
Proof.
  intros Hm Hf s. destruct (Hm s) as (a & s' & E & Ha).
  destruct (Hf a Ha s') as (b & s'' & E' & Hb).
  exists b, s''. unfold bind. rewrite E. auto.
Qed.

Lemma ok_with_mono {A} (m : Rnd A) (P R : A -> Prop) :
  ok_with m P -> (forall a, P a -> R a) -> ok_with m R.
Proof. intros Hm HPR s. destruct (Hm s) as (a & s' & E & Ha). eauto. Qed.

Lemma ok_with_elim {A} (m : Rnd A) (P : A -> Prop) s a s' :
  ok_with m P -> m s = Ok (a, s') -> P a.
Proof. intros Hm E. destruct (Hm s) as (b & s'' & E' & Hb). congruence. Qed.

Lemma ok_with_conj {A} (m : Rnd A) (P R : A -> Prop) :
  ok_with m P -> ok_with m R -> ok_with m (fun a => P a /\ R a).
Proof.
  intros HP HR s. destruct (HP s) as (a & s' & E & Ha). destruct (HR s) as (a' & s'' & E' & Ha').
  rewrite E in E'. injection E' as <- <-. eauto.
Qed.

Lemma mask32_range (z : Z) : 0 <= MT.mask32 z < 2 ^ 32.
Proof.
  unfold MT.mask32. change (2 ^ 32 - 1) with (Z.ones 32).
  rewrite Z.land_ones by lia. apply Z.mod_pos_bound. lia.
Qed.

Lemma ok_word : ok_with word (fun w => 0 <= w < 2 ^ 32).
Proof.
  intros s. unfold word, MT.genrand_uint32.
  destruct (if (MT.N <=? MT.mti s)%nat then _ else _) as [l i].
  eexists _, _. split; [reflexivity | apply mask32_range].
Qed.

Lemma ok_gather (n : nat) (k : Z) : ok_with (gather n k) (Forall (fun r => 0 <= r)).
Proof.
  revert k; induction n as [|n IH]; intros k; simpl.
  - apply ok_with_ret. constructor.
  - eapply ok_with_bind; [apply ok_word|]. intros w Hw; cbv beta in Hw.
    eapply ok_with_bind; [apply IH|]. intros rs Hrs; cbv beta in Hrs.
    apply ok_with_ret. constructor; [|exact Hrs].
    cbv beta zeta in *. destruct (k <? 32); [apply Z.shiftr_nonneg|]; lia.
Qed.

Lemma of_words_nonneg (ws : list Z) : Forall (fun r => 0 <= r) ws -> 0 <= of_words ws.
Proof.
  induction 1 as [|w ws Hw Hws IH]; cbn [of_words]; [lia|].
  assert (0 <= Z.shiftl (of_words ws) 32) by (apply Z.shiftl_nonneg; exact IH). lia.
Qed.

Lemma ok_getrandbits (k : Z) : ok_with (getrandbits k) (fun r => 0 <= r).
Proof.
  unfold getrandbits.
  destruct (k =? 0); [apply ok_with_ret; lia|].
  destruct (k <=? 32).
  - eapply ok_with_bind; [apply ok_word|]. intros w Hw; cbv beta in Hw.
    apply ok_with_ret. apply Z.shiftr_nonneg. lia.
  - eapply ok_with_bind; [apply ok_gather|]. intros ws Hws; cbv beta in Hws.
    apply ok_with_ret. now apply of_words_nonneg.
Qed.

Lemma ok_randbelow_loop (fuel : nat) (n k : Z) :
  0 < n -> ok_with (randbelow_loop fuel n k) (fun r => 0 <= r < n).
Proof.
  intros Hn. induction fuel as [|f IH]; simpl;
    (eapply ok_with_bind; [apply ok_getrandbits|]); intros r Hr; cbv beta in Hr;
    (destruct (r <? n) eqn:E; [apply ok_with_ret; apply Z.ltb_lt in E; lia|]).
  - apply ok_with_ret. apply Z.mod_pos_bound. exact Hn.
  - exact IH.
Qed.

Lemma ok_randbelow (n : Z) : 0 < n -> ok_with (randbelow n) (fun r => 0 <= r < n).
Proof. apply ok_randbelow_loop. Qed.

Lemma ok_randrange (a b : Z) : a < b -> ok_with (randrange a b) (fun r => a <= r < b).
Proof.
  intros Hab. unfold randrange.
  replace (0 <? b - a) with true by (symmetry; apply Z.ltb_lt; lia).
  eapply ok_with_bind; [apply ok_randbelow; lia|]. intros r Hr; cbv beta in Hr.
  apply ok_with_ret. lia.
Qed.

Lemma ok_randint (a b : Z) : a <= b -> ok_with (randint a b) (fun r => a <= r <= b).
Proof.
  intros Hab. unfold randint.
  eapply ok_with_mono; [apply ok_randrange; lia|]. simpl. lia.
Qed.

Lemma ok_choice {A} (d : A) (l : list A) : l <> [] -> ok_with (choice d l) (fun x => In x l).
Proof.
  intros Hl. unfold choice. destruct l as [|y l']; [congruence|].
  eapply ok_with_bind; [apply ok_randbelow; simpl; lia|]. intros i Hi; cbv beta in Hi.
  apply ok_with_ret. apply nth_In. lia.
Qed.

Lemma ok_random : ok_with random (fun u => 0 <= u /\ u < 1)%Q.
Proof.
  unfold random.
  eapply ok_with_bind; [apply ok_word|]. intros a Ha; cbv beta in Ha.
  eapply ok_with_bind; [apply ok_word|]. intros b Hb; cbv beta in Hb.
  apply ok_with_ret.
  rewrite !Z.shiftr_div_pow2 by lia.
  assert (0 <= a / 2 ^ 5 < 2 ^ 27) by (split; [apply Z.div_pos | apply Z.div_lt_upper_bound]; lia).
  assert (0 <= b / 2 ^ 6 < 2 ^ 26) by (split; [apply Z.div_pos | apply Z.div_lt_upper_bound]; lia).
  unfold Qle, Qlt; simpl. lia.
Qed.

Lemma ok_draw_letters (n : nat) : ok_with (draw_letters n) (fun s => String.length s = n).
Proof.
  induction n as [|n IH]; cbn [draw_letters].
  - apply ok_with_ret. reflexivity.
  - eapply ok_with_bind; [apply ok_choice; discriminate|]. intros c _.
    eapply ok_with_bind; [apply IH|]. intros rest Hr; cbv beta in Hr.
    apply ok_with_ret. simpl. now rewrite Hr.
Qed.

Lemma accumulate_length (acc : Q) (ws : list Q) : List.length (accumulate acc ws) = List.length ws.
Proof. revert acc; induction ws; simpl; auto. Qed.

(** the last running total is the sum *)
Lemma accumulate_last (ws : list Q) (acc : Q) :
  ws <> [] -> exists t, rev (accumulate acc ws) = fold_left Qplus ws acc :: t.
Proof.
  revert acc; induction ws as [|w ws IH]; intros acc Hne; [congruence|].
  destruct ws as [|w' ws'].
  - exists []. reflexivity.
  - destruct (IH (acc + w)%Q) as [t Ht]; [discriminate|].
    exists (app t [(acc + w)%Q]). simpl accumulate. simpl rev.
    simpl in Ht. rewrite Ht. reflexivity.
Qed.

Lemma bisect_right_bounds (fuel : nat) (a : list Q) (x : Q) (lo hi : Z) :
  lo <= hi -> lo <= bisect_right fuel a x lo hi <= hi.
Proof.
  revert lo hi; induction fuel as [|f IH]; intros lo hi H; simpl; [lia|].
  destruct (lo <? hi) eqn:E; [|lia]. apply Z.ltb_lt in E.
  assert (lo <= (lo + hi) / 2 < hi).
  { split; [apply Z.div_le_lower_bound | apply Z.div_lt_upper_bound]; lia. }
  destruct (Qltb _ _).
  - specialize (IH lo ((lo + hi) / 2)). lia.
  - specialize (IH ((lo + hi) / 2 + 1) hi). lia.
Qed.

Lemma ok_choices1 {A} (d : A) (pop : list A) (ws : list Q) :
  List.length pop = List.length ws -> pop <> [] -> Qle_bool (qsum ws) 0 = false ->
  ok_with (choices1 d pop ws) (fun a => In a pop).
Proof.
  intros Hlen Hne Hpos. unfold choices1.
  rewrite accumulate_length, Hlen, Nat.eqb_refl. simpl negb. cbv iota.
  assert (Hws : ws <> []) by (intros ->; destruct pop; simpl in Hlen; congruence).
  destruct (accumulate_last ws 0 Hws) as [t Ht]. rewrite Ht.
  unfold qsum in Hpos. rewrite Hpos.
  eapply ok_with_bind; [apply ok_random|]. intros u _.
  apply ok_with_ret. apply nth_In.
  destruct pop as [|p pop']; [congruence|].
  pose proof (bisect_right_bounds (S (List.length (p :: pop'))) (accumulate 0 ws)
                (u * fold_left Qplus ws 0)%Q 0 (Z.of_nat (List.length (p :: pop')) - 1)) as B.
  rewrite <- Hlen. cbn [List.length] in *. specialize (B ltac:(lia)). lia.
Qed.

Lemma len_of_length (s : string) (n : nat) : String.length s = n -> Seq.len s = Z.of_nat n.
Proof. intros H. unfold Seq.len. now rewrite H. Qed.

(** [random_rbs] never raises and its result is at least the clamped
    minimum length long *)
Lemma ok_random_rbs (min_length max_length : Z) (seed : string) (spacing_min spacing_max : Z)
    (sd_cores : option (list string)) :
  ok_with (random_rbs min_length max_length seed spacing_min spacing_max sd_cores)
          (fun s => Z.max 4 min_length <= Seq.len s).
Proof.
  unfold random_rbs.
  eapply ok_with_bind; [apply ok_randint; lia|]. intros L HL; cbv beta in HL.
  cbv zeta.
  match goal with |- context [existsb (fun core => _) ?c] => set (cores := c) end.
  match goal with |- ok_with (match ?f with [] => _ | _ :: _ => _ end) _ =>
    destruct f as [|sp sps] eqn:Hfeas end.
  - destruct (negb (String.eqb seed "")).
    + apply ok_with_ret. pose proof (ljust_fit_length (Seq.prefix seed L) L ltac:(lia)) as H.
      cbv zeta in H. lia.
    + apply ok_with_ret. pose proof (ljust_fit_length (hd "" cores) L ltac:(lia)) as H.
      cbv zeta in H. lia.
  - eapply ok_with_bind; [apply ok_choice; discriminate|]. intros spacing Hsp; cbv beta in Hsp.
    rewrite <- Hfeas in Hsp. apply filter_In in Hsp as [_ Hex].
    apply existsb_exists in Hex as [core0 [Hc0 Hle0]].
    destruct (filter (fun core => Seq.len core + spacing <=? L) cores) as [|v vs] eqn:Hval.
    + exfalso. assert (Hin : In core0 (filter (fun core => Seq.len core + spacing <=? L) cores))
        by (apply filter_In; auto).
      rewrite Hval in Hin. exact Hin.
    + eapply ok_with_bind; [apply ok_choice; discriminate|]. intros core Hcore; cbv beta in Hcore.
      rewrite <- Hval in Hcore. apply filter_In in Hcore as [_ Hle]. apply Z.leb_le in Hle.
      eapply ok_with_bind; [apply ok_draw_letters|]. intros left Hleft; cbv beta in Hleft.
      eapply ok_with_bind; [apply ok_draw_letters|]. intros right Hright; cbv beta in Hright.
      apply ok_with_ret. rewrite !len_append.
      rewrite (len_of_length _ _ Hleft), (len_of_length _ _ Hright).
      pose proof (len_nonneg core). lia.
Qed.

(** ** [mutate_rbs] *)

Lemma list_set_length {A} (l : list A) (i : nat) (c : A) :
  (i < List.length l)%nat -> List.length (list_set l i c) = List.length l.
Proof.
  intros H. unfold list_set. rewrite length_app, firstn_length_le by lia.
  cbn [List.length]. rewrite length_skipn. lia.
Qed.

Lemma nth_list_set {A} (l : list A) (i : nat) (c d : A) :
  (i < List.length l)%nat -> nth i (list_set l i c) d = c.
Proof.
  intros H. unfold list_set.
  rewrite app_nth2; rewrite firstn_length_le by lia; [|lia].
  rewrite Nat.sub_diag. reflexivity.
Qed.

Lemma list_insert_length {A} (l : list A) (i : nat) (c : A) :
  (i <= List.length l)%nat -> List.length (list_insert l i c) = S (List.length l).
Proof.
  intros H. unfold list_insert. rewrite length_app, firstn_length_le by lia.
  cbn [List.length]. rewrite length_skipn. lia.
Qed.

Lemma list_delete_length {A} (l : list A) (i : nat) :
  (i < List.length l)%nat -> List.length (list_delete l i) = pred (List.length l).
Proof.
  intros H. unfold list_delete. rewrite length_app, firstn_length_le by lia.
  rewrite length_skipn. lia.
Qed.

Lemma replacements_nonempty (cur : ascii) :
  filter (fun nt => negb (Ascii.eqb nt cur)) RBS_NUCLEOTIDES <> [].
Proof.
  unfold RBS_NUCLEOTIDES. cbn [filter].
  destruct (Ascii.eqb "A"%char cur) eqn:EA; [|discriminate].
  apply Ascii.eqb_eq in EA. subst cur. vm_compute. discriminate.
Qed.

Lemma replacement_differs (cur c : ascii) (l : list ascii) :
  In c (filter (fun nt => negb (Ascii.eqb nt cur)) l) -> c <> cur.
Proof.
  intros H. apply filter_In in H as [_ H].
  destruct (Ascii.eqb_spec c cur); [discriminate | assumption].
Qed.

Lemma string_of_list_ascii_inj (l l' : list ascii) :
  string_of_list_ascii l = string_of_list_ascii l' -> l = l'.
Proof.
  intros H. rewrite <- (list_ascii_of_string_of_list_ascii l), <- (list_ascii_of_string_of_list_ascii l').
  now rewrite H.
Qed.

Lemma len_string_of_list (l : list ascii) : Seq.len (string_of_list_ascii l) = Z.of_nat (List.length l).
Proof. unfold Seq.len. now rewrite str_length_of_list. Qed.

(** the draw of the move type: always one of the offered moves *)
Lemma ok_pick_move (choices : list (move * Q)) (first : move) :
  In first (map fst choices) ->
  ok_with (if Qle_bool (qsum (map snd choices)) 0 then ret first
           else choices1 Noop (map fst choices) (map snd choices))
          (fun a => In a (map fst choices)).
Proof.
  intros Hf. destruct (Qle_bool (qsum (map snd choices)) 0) eqn:E.
  - now apply ok_with_ret.
  - apply ok_choices1; [now rewrite !length_map | | exact E].
    intros Hn. rewrite Hn in Hf. exact Hf.
Qed.

(** for a non-empty sequence, [mutate_rbs] never raises, applies a
    substitution, an insertion or a deletion, always changes the
    sequence, and never goes below [min(min_length, len(sequence))] *)
Lemma ok_mutate_rbs (spacing_min spacing_max : Z) (sequence : string) (min_length max_length : Z)
    (sub_weight ins_weight del_weight : Q) :
  sequence <> "" ->
  ok_with (mutate_rbs spacing_min spacing_max sequence min_length max_length
             sub_weight ins_weight del_weight)
          (fun r => (snd r = Sub \/ snd r = Ins \/ snd r = Del) /\ fst r <> sequence /\
                    Z.min min_length (Seq.len sequence) <= Seq.len (fst r)).
Proof.
  intros Hne. unfold mutate_rbs.
  destruct (String.eqb_spec sequence "") as [|_]; [contradiction|].
  assert (Hseq : sequence = string_of_list_ascii (list_ascii_of_string sequence))
    by (symmetry; apply string_of_list_ascii_of_string).
  assert (Hpos : (0 < List.length (list_ascii_of_string sequence))%nat).
  { destruct sequence; [congruence | simpl; lia]. }
  assert (Hlen : Seq.len sequence = Z.of_nat (List.length (list_ascii_of_string sequence)))
    by (unfold Seq.len; now rewrite str_length_as_list).
  set (seq := list_ascii_of_string sequence) in *.
  set (n := Z.of_nat (List.length seq)) in *.
  (* the three move kinds, once the guards have filtered the choices *)
  assert (Hsub : ok_with
      (idx <- randrange 0 n ;;
       let cur := nth (Z.to_nat idx) seq "A"%char in
       let replacements := filter (fun nt => negb (Ascii.eqb nt cur)) RBS_NUCLEOTIDES in
       c <- choice "A"%char replacements ;;
       ret (string_of_list_ascii (list_set seq (Z.to_nat idx) c), Sub))
      (fun r => (snd r = Sub \/ snd r = Ins \/ snd r = Del) /\ fst r <> sequence /\
                Z.min min_length (Seq.len sequence) <= Seq.len (fst r))).
  { eapply ok_with_bind; [apply ok_randrange; lia|]. intros idx Hidx; cbv beta in Hidx.
    cbv zeta.
    eapply ok_with_bind; [apply ok_choice, replacements_nonempty|]. intros c Hc; cbv beta in Hc.
    apply replacement_differs in Hc.
    apply ok_with_ret. simpl fst; simpl snd.
    split; [now left|]. split.
    - intros Heq. rewrite Hseq in Heq. apply string_of_list_ascii_inj in Heq.
      apply Hc. rewrite <- (nth_list_set seq (Z.to_nat idx) c "A"%char) by lia.
      now rewrite Heq.
    - rewrite len_string_of_list, list_set_length by lia. lia. }
  assert (Hins : n < max_length -> ok_with
      (if n <? max_length then
         idx <- randrange 0 (n + 1) ;;
         c <- choice "A"%char RBS_NUCLEOTIDES ;;
         ret (string_of_list_ascii (list_insert seq (Z.to_nat idx) c), Ins)
       else ret (sequence, Noop))
      (fun r => (snd r = Sub \/ snd r = Ins \/ snd r = Del) /\ fst r <> sequence /\
                Z.min min_length (Seq.len sequence) <= Seq.len (fst r))).
  { intros Hlt. replace (n <? max_length) with true by (symmetry; now apply Z.ltb_lt).
    eapply ok_with_bind; [apply ok_randrange; lia|]. intros idx Hidx; cbv beta in Hidx.
    eapply ok_with_bind; [apply ok_choice; discriminate|]. intros c _.
    apply ok_with_ret. simpl fst; simpl snd.
    assert (Hl : Seq.len (string_of_list_ascii (list_insert seq (Z.to_nat idx) c)) = n + 1)
      by (rewrite len_string_of_list, list_insert_length by lia; unfold n; lia).
    split; [now right; left|]. split.
    - intros Heq. rewrite Heq in Hl. lia.
    - rewrite Hl. lia. }
  assert (Hdel : min_length < n -> ok_with
      (if min_length <? n then
         idx <- randrange 0 n ;;
         ret (string_of_list_ascii (list_delete seq (Z.to_nat idx)), Del)
       else ret (sequence, Noop))
      (fun r => (snd r = Sub \/ snd r = Ins \/ snd r = Del) /\ fst r <> sequence /\
                Z.min min_length (Seq.len sequence) <= Seq.len (fst r))).
  { intros Hlt. replace (min_length <? n) with true by (symmetry; now apply Z.ltb_lt).
    eapply ok_with_bind; [apply ok_randrange; lia|]. intros idx Hidx; cbv beta in Hidx.
    apply ok_with_ret. simpl fst; simpl snd.
    assert (Hl : Seq.len (string_of_list_ascii (list_delete seq (Z.to_nat idx))) = n - 1)
      by (rewrite len_string_of_list, list_delete_length by lia; unfold n; lia).
    split; [now right; right|]. split.
    - intros Heq. rewrite Heq in Hl. lia.
    - rewrite Hl. lia. }
  destruct (n <=? min_length) eqn:Hmin; destruct (max_length <=? n) eqn:Hmax;
    cbn [filter fst move_eqb negb];
    (eapply ok_with_bind; [apply ok_pick_move; simpl; auto|]);
    intros a Ha; simpl in Ha.
  - destruct Ha as [<-|[]]. exact Hsub.
  - destruct Ha as [<-|[<-|[]]]; [exact Hsub|]. apply Hins. lia.
  - destruct Ha as [<-|[<-|[]]]; [exact Hsub|]. apply Hdel. lia.
  - destruct Ha as [<-|[<-|[<-|[]]]]; [exact Hsub| |]; [apply Hins | apply Hdel]; lia.
Qed.

Lemma ok_mutate_rbs_total (spacing_min spacing_max : Z) (sequence : string) (min_length max_length : Z)
    (sub_weight ins_weight del_weight : Q) :
  ok_with (mutate_rbs spacing_min spacing_max sequence min_length max_length
             sub_weight ins_weight del_weight) (fun _ => True).
Proof.
  destruct (String.eqb_spec sequence "") as [->|Hne].
  - unfold mutate_rbs. simpl String.eqb. cbv iota.
    eapply ok_with_bind; [apply ok_random_rbs|]. intros s _. now apply ok_with_ret.
  - eapply ok_with_mono; [apply ok_mutate_rbs; exact Hne|]. auto.
Qed.

(** the shape of a mutation: a substitution by a different letter, or an
    insertion or a deletion of one letter *)
Lemma ok_mutate_rbs_shape (spacing_min spacing_max : Z) (sequence : string) (min_length max_length : Z)
    (sub_weight ins_weight del_weight : Q) :
  sequence <> "" ->
  ok_with (mutate_rbs spacing_min spacing_max sequence min_length max_length
             sub_weight ins_weight del_weight)
          (fun r =>
             (snd r = Sub /\
              exists i c, (i < String.length sequence)%nat /\
                c <> nth i (list_ascii_of_string sequence) "A"%char /\
                fst r = string_of_list_ascii (list_set (list_ascii_of_string sequence) i c)) \/
             (snd r = Ins /\ Seq.len (fst r) = Seq.len sequence + 1) \/
             (snd r = Del /\ Seq.len (fst r) = Seq.len sequence - 1)).
Proof.
  intros Hne. unfold mutate_rbs.
  destruct (String.eqb_spec sequence "") as [|_]; [contradiction|].
  assert (Hpos : (0 < List.length (list_ascii_of_string sequence))%nat).
  { destruct sequence; [congruence | simpl; lia]. }
  assert (Hlen : Seq.len sequence = Z.of_nat (List.length (list_ascii_of_string sequence)))
    by (unfold Seq.len; now rewrite str_length_as_list).
  assert (Hslen : String.length sequence = List.length (list_ascii_of_string sequence))
    by now rewrite str_length_as_list.
  set (seq := list_ascii_of_string sequence) in *.
  set (n := Z.of_nat (List.length seq)) in *.
  set (P := fun r : string * move =>
             (snd r = Sub /\
              exists i c, (i < String.length sequence)%nat /\
                c <> nth i seq "A"%char /\
                fst r = string_of_list_ascii (list_set seq i c)) \/
             (snd r = Ins /\ Seq.len (fst r) = Seq.len sequence + 1) \/
             (snd r = Del /\ Seq.len (fst r) = Seq.len sequence - 1)).
  assert (Hsub : ok_with
      (idx <- randrange 0 n ;;
       let cur := nth (Z.to_nat idx) seq "A"%char in
       let replacements := filter (fun nt => negb (Ascii.eqb nt cur)) RBS_NUCLEOTIDES in
       c <- choice "A"%char replacements ;;
       ret (string_of_list_ascii (list_set seq (Z.to_nat idx) c), Sub)) P).
  { eapply ok_with_bind; [apply ok_randrange; lia|]. intros idx Hidx; cbv beta in Hidx.
    cbv zeta.
    eapply ok_with_bind; [apply ok_choice, replacements_nonempty|]. intros c Hc; cbv beta in Hc.
    apply replacement_differs in Hc.
    apply ok_with_ret. left. split; [reflexivity|].
    exists (Z.to_nat idx), c. split; [unfold n in Hidx; lia|]. split; [exact Hc | reflexivity]. }
  assert (Hins : n < max_length -> ok_with
      (if n <? max_length then
         idx <- randrange 0 (n + 1) ;;
         c <- choice "A"%char RBS_NUCLEOTIDES ;;
         ret (string_of_list_ascii (list_insert seq (Z.to_nat idx) c), Ins)
       else ret (sequence, Noop)) P).
  { intros Hlt. replace (n <? max_length) with true by (symmetry; now apply Z.ltb_lt).
    eapply ok_with_bind; [apply ok_randrange; lia|]. intros idx Hidx; cbv beta in Hidx.
    eapply ok_with_bind; [apply ok_choice; discriminate|]. intros c _.
    apply ok_with_ret. right; left. split; [reflexivity|]. simpl fst.
    rewrite len_string_of_list, list_insert_length by lia. unfold n in *. lia. }
  assert (Hdel : min_length < n -> ok_with
      (if min_length <? n then
         idx <- randrange 0 n ;;
         ret (string_of_list_ascii (list_delete seq (Z.to_nat idx)), Del)
       else ret (sequence, Noop)) P).
  { intros Hlt. replace (min_length <? n) with true by (symmetry; now apply Z.ltb_lt).
    eapply ok_with_bind; [apply ok_randrange; lia|]. intros idx Hidx; cbv beta in Hidx.
    apply ok_with_ret. right; right. split; [reflexivity|]. simpl fst.
    rewrite len_string_of_list, list_delete_length by lia. unfold n in *. lia. }
  destruct (n <=? min_length) eqn:Hmin; destruct (max_length <=? n) eqn:Hmax;
    cbn [filter fst move_eqb negb];
    (eapply ok_with_bind; [apply ok_pick_move; simpl; auto|]);
    intros a Ha; simpl in Ha.
  - destruct Ha as [<-|[]]. exact Hsub.
  - destruct Ha as [<-|[<-|[]]]; [exact Hsub|]. apply Hins. lia.
  - destruct Ha as [<-|[<-|[]]]; [exact Hsub|]. apply Hdel. lia.
  - destruct Ha as [<-|[<-|[<-|[]]]]; [exact Hsub| |]; [apply Hins | apply Hdel]; lia.
Qed.

(** ** The evaluation cache *)

Lemma ensure_cache_cases (lm : Libm) (pre_seq post_seq : string)
    (oracle : string -> Z -> option OstirRow.t) (target_log : Q) (rbs_seq : string) (c : Cache) :
  let p := ensure_cache lm pre_seq post_seq oracle target_log rbs_seq c in
  (lookup rbs_seq (evaluated c) = Some (fst p) /\ snd p = c) \/
  (lookup rbs_seq (evaluated c) = None /\
   evaluated (snd p) = (rbs_seq, fst p) :: evaluated c /\
   oracle_calls (snd p) = app (oracle_calls c) [rbs_seq] /\
   rbs_sequence (fst p) = rbs_seq /\
   (top_candidates (snd p) = top_candidates c \/
    (top_candidates (snd p) = app (top_candidates c) [fst p] /\ rejected (fst p) = false))).
Proof.
  cbv zeta. unfold ensure_cache.
  destruct (lookup rbs_seq (evaluated c)) as [hit|] eqn:E; [left; auto|right].
  repeat match goal with |- context [match ?x with _ => _ end] => destruct x end;
    simpl; repeat split; auto.
Qed.

Lemma ensure_cache_hit (lm : Libm) (pre_seq post_seq : string)
    (oracle : string -> Z -> option OstirRow.t) (target_log : Q) (rbs_seq : string) (c : Cache)
    (hit : Candidate) :
  lookup rbs_seq (evaluated c) = Some hit ->
  ensure_cache lm pre_seq post_seq oracle target_log rbs_seq c = (hit, c).
Proof. intros E. unfold ensure_cache. now rewrite E. Qed.

Lemma lookup_cons_other (k k' : string) (v : Candidate) (m : list (string * Candidate)) :
  k <> k' -> lookup k ((k', v) :: m) = lookup k m.
Proof. intros H. simpl. destruct (String.eqb_spec k k'); [contradiction | reflexivity]. Qed.

Lemma lookup_cons_same (k : string) (v : Candidate) (m : list (string * Candidate)) :
  lookup k ((k, v) :: m) = Some v.
Proof. simpl. now rewrite String.eqb_refl. Qed.

(** entries are written once: an evaluation keeps every stored entry *)
Lemma ensure_cache_keeps (lm : Libm) (pre_seq post_seq : string)
    (oracle : string -> Z -> option OstirRow.t) (target_log : Q) (rbs_seq : string) (c : Cache)
    (k : string) (v : Candidate) :
  lookup k (evaluated c) = Some v ->
  lookup k (evaluated (snd (ensure_cache lm pre_seq post_seq oracle target_log rbs_seq c))) = Some v.
Proof.
  intros Hk.
  destruct (ensure_cache_cases lm pre_seq post_seq oracle target_log rbs_seq c)
    as [[_ ->] | (Hnone & Hev & _)]; [exact Hk|].
  rewrite Hev. destruct (String.eqb_spec k rbs_seq) as [->|Hne]; [congruence|].
  now rewrite lookup_cons_other.
Qed.

(** reachability facts *)
Section CacheReach.
Variable lm : Libm.
Variables pre_seq post_seq : string.
Variable oracle : string -> Z -> option OstirRow.t.
Variable target_log : Q.

Local Abbreviation cache_reach := (cache_reach lm pre_seq post_seq oracle target_log).

Lemma cache_reach_trans c1 c2 c3 : cache_reach c1 c2 -> cache_reach c2 c3 -> cache_reach c1 c3.
Proof. induction 1; intros; [assumption | eapply cache_reach_step; eauto]. Qed.

Lemma cache_reach_one c k :
  cache_reach c (snd (ensure_cache lm pre_seq post_seq oracle target_log k c)).
Proof. eapply cache_reach_step, cache_reach_refl. Qed.

Lemma cache_reach_invariant (I : Cache -> Prop) :
  (forall c k, I c -> I (snd (ensure_cache lm pre_seq post_seq oracle target_log k c))) ->
  forall c c', cache_reach c c' -> I c -> I c'.
Proof. intros Hstep c c' H. induction H; auto. Qed.
End CacheReach.

Lemma calls_ok_empty : calls_ok empty_cache.
Proof. split; [constructor | simpl; tauto]. Qed.

Lemma calls_ok_step (lm : Libm) (pre_seq post_seq : string)
    (oracle : string -> Z -> option OstirRow.t) (target_log : Q) (rbs_seq : string) (c : Cache) :
  calls_ok c -> calls_ok (snd (ensure_cache lm pre_seq post_seq oracle target_log rbs_seq c)).
Proof.
  intros [Hnd Hin].
  destruct (ensure_cache_cases lm pre_seq post_seq oracle target_log rbs_seq c)
    as [[_ ->] | (Hnone & Hev & Hcalls & _)]; [split; assumption|].
  unfold calls_ok. rewrite Hcalls, Hev. split.
  - apply NoDup_app; [exact Hnd | constructor; [intros []| constructor] |].
    intros x Hx [<-|[]]. apply Hin in Hx. contradiction.
  - intros k. rewrite in_app_iff, Hin. simpl.
    destruct (String.eqb_spec k rbs_seq) as [->|Hne].
    + split; [discriminate | auto].
    + split; [intros [H|[H|[]]]; [exact H | congruence] | auto].
Qed.

(** ** The search loop *)

Lemma bindr_Ok {A B} (m : res A) (f : A -> res B) (b : B) :
  bindr m f = Ok b -> exists a, m = Ok a /\ f a = Ok b.
Proof. destruct m as [a|e]; simpl; [eauto | discriminate]. Qed.

Lemma with_rnd_Ok {A} (st : RunState) (m : Rnd A) (a : A) (st' : RunState) :
  with_rnd st m = Ok (a, st') -> exists r, m (rnd st) = Ok (a, r) /\ st' = set_rnd r st.
Proof.
  unfold with_rnd. destruct (m (rnd st)) as [[a' r]|e]; [|discriminate].
  intros H. injection H as <- <-. eauto.
Qed.

Lemma eval_cached_eq (lm : Libm) (pre_seq post_seq : string) (oracle : string -> Z -> option OstirRow.t)
    (target_log : Q) (rbs_seq : string) (st : RunState) :
  eval_cached lm pre_seq post_seq oracle target_log rbs_seq st =
  (fst (ensure_cache lm pre_seq post_seq oracle target_log rbs_seq (cache st)),
   set_cache (snd (ensure_cache lm pre_seq post_seq oracle target_log rbs_seq (cache st))) st).
Proof. unfold eval_cached. now destruct (ensure_cache _ _ _ _ _ _ _). Qed.

Lemma decide_Ok (lm : Libm) (result : Candidate) (st : RunState) (b : bool) (st' : RunState) :
  decide lm result st = Ok (b, st') -> exists r, st' = set_rnd r st.
Proof.
  unfold decide. destruct (current_error st) as [cur|].
  - intros H. apply bindr_Ok in H as ([u st1] & E & H).
    apply with_rnd_Ok in E as (r & _ & ->). injection H as _ <-. eauto.
  - intros H. injection H as _ <-. exists (rnd st). now destruct st.
Qed.

(** taking a [bindr] apart in a hypothesis *)
Ltac break_pairs :=
  repeat match goal with p : (_ * _)%type |- _ => destruct p end.

Ltac inv_Ok :=
  repeat match goal with
  | H : bindr _ _ = Ok _ |- _ =>
      let E := fresh "E" in apply bindr_Ok in H; destruct H as [? [E H]]; break_pairs;
      cbv beta iota in H
  | H : Ok _ = Ok _ |- _ => injection H; clear H; intros; subst
  | H : with_rnd _ _ = Ok (_, _) |- _ =>
      let r := fresh "r" in let E := fresh "E" in
      apply with_rnd_Ok in H; destruct H as [r [E H]]; subst
  | H : decide _ _ _ = Ok (_, _) |- _ =>
      let r := fresh "r" in apply decide_Ok in H; destruct H as [r H]; subst
  end.

Ltac simpl_st := cbn [cache rnd best_candidate best_error best_iteration pool_index temperature current_error current_rbs stagnation_count accept_history restart_count iteration move_type_attempts move_type_accepts set_cache set_rnd set_best_candidate set_best_error set_best_iteration set_pool_index set_temperature set_current_error set_current_rbs set_stagnation_count set_accept_history set_restart_count set_iteration set_move_type_attempts set_move_type_accepts mkRunState] in *.

Ltac inv_step :=
  repeat progress (inv_Ok; simpl_st;
   try match goal with
   | H : context [eval_cached ?a ?b ?c ?d ?e ?k ?s] |- _ => rewrite eval_cached_eq in H
   | H : match ?x with _ => _ end = Ok _ |- _ => destruct x eqn:?
   end).

Lemma record_decision_cache mv c res acc st : cache (record_decision mv c res acc st) = cache st.
Proof. unfold record_decision. destruct acc; [destruct (_ && _)|]; reflexivity. Qed.
Lemma cache_reach_snoc lm pre post oracle tl c c' k : cache_reach lm pre post oracle tl c c' ->
  cache_reach lm pre post oracle tl c (snd (ensure_cache lm pre post oracle tl k c')).
Proof. intros H. eapply cache_reach_trans; [exact H| apply cache_reach_one]. Qed.
Section SearchFacts.
Variable lm : Libm.
Variable cfg : Config.
Variables pre_seq post_seq : string.
Variable oracle : string -> Z -> option OstirRow.t.
Variable target_log : Q.
Variables min_length max_length : Z.
Variable sd_cores seed_pool : list string.
Variables accept_window restart_patience max_iter : Z.

Local Abbreviation step := (search_step lm cfg pre_seq post_seq oracle target_log min_length max_length
                          sd_cores accept_window max_iter).
Local Abbreviation reach := (cache_reach lm pre_seq post_seq oracle target_log).

Lemma search_step_reach st st' : step st = Ok st' -> reach (cache st) (cache st').
Proof.
  unfold search_step. intros H. inv_step.
  all: rewrite ?record_decision_cache; simpl_st.
  all: repeat apply cache_reach_snoc; apply cache_reach_refl.
Qed.

Local Abbreviation restart := (restart_from_pool lm cfg pre_seq post_seq oracle target_log min_length
                             max_length sd_cores seed_pool).
Local Abbreviation inner := (inner_loop lm cfg pre_seq post_seq oracle target_log min_length max_length
                           sd_cores accept_window restart_patience max_iter).
Local Abbreviation outer := (outer_loop lm cfg pre_seq post_seq oracle target_log min_length max_length
                           sd_cores seed_pool accept_window restart_patience max_iter).

Lemma restart_reach i st st' : restart i st = Ok st' -> reach (cache st) (cache st').
Proof.
  unfold restart_from_pool. intros H. inv_step.
  all: repeat apply cache_reach_snoc; apply cache_reach_refl.
Qed.

Lemma inner_preserve (P : RunState -> Prop) :
  (forall st st', P st -> step st = Ok st' -> P st') ->
  forall n st st', P st -> inner n st = Ok st' -> P st'.
Proof.
  intros Hs n. induction n as [|n IH]; intros st st' HP H; cbn [inner_loop] in H.
  - injection H as <-. exact HP.
  - apply bindr_Ok in H as (st1 & E & H).
    destruct (restart_patience <=? stagnation_count st1).
    + injection H as <-. eauto.
    + eauto.
Qed.

Lemma outer_preserve (P : RunState -> Prop) :
  (forall st st', P st -> step st = Ok st' -> P st') ->
  (forall i st st', P st -> restart i st = Ok st' -> P st') ->
  (forall i st, P st -> P (set_restart_count i st)) ->
  forall fuel st st', P st -> outer fuel st = Ok st' -> P st'.
Proof.
  intros Hs Hr Hc fuel. induction fuel as [|fuel IH]; intros st st' HP H; cbn [outer_loop] in H.
  - injection H as <-. exact HP.
  - destruct (iteration st <? max_iter); [|injection H as <-; exact HP].
    apply bindr_Ok in H as (st1 & E1 & H).
    apply bindr_Ok in H as (st2 & E2 & H).
    eapply IH; [|exact H]. eapply inner_preserve; [exact Hs| |exact E2].
    eapply Hr; [|exact E1]. apply Hc, HP.
Qed.

Lemma outer_reach fuel st st' : outer fuel st = Ok st' -> reach (cache st) (cache st').
Proof.
  intros H. apply (outer_preserve (fun s => reach (cache st) (cache s)) ) with (fuel := fuel) (st := st);
    [| | | apply cache_reach_refl | exact H].
  - intros s s' R E. eapply cache_reach_trans; [exact R | eapply search_step_reach; exact E].
  - intros i s s' R E. eapply cache_reach_trans; [exact R | eapply restart_reach; exact E].
  - intros i s R. exact R.
Qed.

(** totality *)
Lemma with_rnd_total {A} (st : RunState) (m : Rnd A) (P : A -> Prop) :
  ok_with m P -> exists a r, with_rnd st m = Ok (a, set_rnd r st) /\ P a.
Proof.
  intros Hm. destruct (Hm (rnd st)) as (a & r & E & Ha). exists a, r.
  unfold with_rnd. rewrite E. auto.
Qed.

Lemma ok_fresh_random_rbs :
  ok_with (fresh_random_rbs cfg min_length max_length sd_cores)
    (fun s => Z.max 4 min_length <= Seq.len s).
Proof. apply ok_random_rbs. Qed.

Lemma ok_fresh_pair :
  ok_with (s <- fresh_random_rbs cfg min_length max_length sd_cores ;; ret (s, RandomMove))
    (fun p => Z.max 4 min_length <= Seq.len (fst p) /\ snd p = RandomMove).
Proof.
  eapply ok_with_bind; [apply ok_fresh_random_rbs|]. intros s Hs. apply ok_with_ret. simpl; auto.
Qed.

Lemma decide_total result st : exists b r, decide lm result st = Ok (b, set_rnd r st).
Proof.
  unfold decide. destruct (current_error st) as [cur|].
  - destruct (with_rnd_total st random _ ok_random) as (u & r & E & _).
    rewrite E. cbn [bindr]. eauto.
  - exists (isfinite (error result) && negb (rejected result)), (rnd st). now destruct st.
Qed.

Lemma search_step_total st : exists st', step st = Ok st'.
Proof.
  unfold search_step. cbv zeta. simpl_st.
  match goal with |- exists _, bindr ?m _ = _ => assert (Hm : exists a, m = Ok a) end.
  { destruct (negb _).
    - destruct (current_move_weights _ _ _ _) as [[a b] c].
      destruct (with_rnd_total (set_iteration (iteration st + 1) st) _ _
                 (ok_mutate_rbs_total (DESIGN_SD_SPACING_MIN cfg) (DESIGN_SD_SPACING_MAX cfg)
                    (current_rbs st) min_length max_length a b c)) as (x & r & E & _).
      eauto.
    - destruct (with_rnd_total (set_iteration (iteration st + 1) st) _ _ ok_fresh_pair)
        as (x & r & E & _). eauto. }
  destruct Hm as [[[cand mv] st1] Hm]. rewrite Hm. clear Hm. cbn [bindr].
  match goal with |- exists _, bindr ?m _ = _ => assert (Hm2 : exists a, m = Ok a) end.
  { destruct (String.eqb _ _); [eauto|].
    rewrite eval_cached_eq.
    match goal with |- context [decide lm ?r ?s] =>
      destruct (decide_total r s) as (b & r' & E); rewrite E; cbn [bindr] end.
    eexists; reflexivity. }
  destruct Hm2 as [[acc st2] Hm2]. rewrite Hm2. cbn [bindr].
  destruct (best_candidate _); [eauto|]. destruct (current_error _); [|eauto].
  rewrite eval_cached_eq. destruct (negb _); eauto.
Qed.

Lemma restart_total i st : exists st', restart i st = Ok st'.
Proof.
  unfold restart_from_pool.
  match goal with |- exists _, bindr ?m _ = _ => assert (Hm : exists a, m = Ok a) end.
  { destruct (_ <? _)%nat; [eauto|].
    destruct (with_rnd_total st _ _ ok_fresh_random_rbs) as (x & r & E & _). eauto. }
  destruct Hm as [[cur st1] Hm]. rewrite Hm. cbn [bindr].
  rewrite eval_cached_eq. eauto.
Qed.

Lemma inner_total n st : exists st', inner n st = Ok st'.
Proof.
  revert st. induction n as [|n IH]; intros st; cbn [inner_loop]; [eauto|].
  destruct (search_step_total st) as [st1 E]. rewrite E. cbn [bindr].
  destruct (_ <=? _); eauto.
Qed.

Lemma outer_total fuel st : exists st', outer fuel st = Ok st'.
Proof.
  revert st. induction fuel as [|fuel IH]; intros st; cbn [outer_loop]; [eauto|].
  destruct (_ <? _); [|eauto].
  destruct (restart_total (restart_count (set_restart_count (restart_count st + 1) st))
              (set_restart_count (restart_count st + 1) st)) as [st1 E].
  rewrite E. cbn [bindr].
  destruct (inner_total (Z.to_nat (Z.min restart_patience (max_iter - iteration st1))) st1) as [st2 E2].
  rewrite E2. cbn [bindr]. eauto.
Qed.
End SearchFacts.

Lemma lookup_In (k : string) (v : Candidate) (m : list (string * Candidate)) :
  lookup k m = Some v -> In (k, v) m.
Proof.
  induction m as [|[k' v'] m IH]; simpl; [discriminate|].
  destruct (String.eqb_spec k k') as [->|_]; [intros H; injection H as ->; now left|].
  intros H. right. now apply IH.
Qed.

Lemma ensure_cache_valid (lm : Libm) (pre_seq post_seq : string)
    (oracle : string -> Z -> option OstirRow.t) (target_log : Q) (rbs_seq : string) (c : Cache) :
  lookup rbs_seq (evaluated c) = None ->
  rejected (fst (ensure_cache lm pre_seq post_seq oracle target_log rbs_seq c)) = false ->
  isfinite (error (fst (ensure_cache lm pre_seq post_seq oracle target_log rbs_seq c))) = true.
Proof.
  intros E. unfold ensure_cache. rewrite E.
  repeat match goal with |- context [match ?x with _ => _ end] => destruct x end;
    simpl; intros; first [congruence | reflexivity].
Qed.

Lemma cache_wf_empty M : cache_wf M empty_cache.
Proof. repeat split; simpl; intros; contradiction. Qed.

Lemma cache_wf_step (lm : Libm) (pre_seq post_seq : string)
    (oracle : string -> Z -> option OstirRow.t) (target_log : Q) (M : Z) (k : string) (c : Cache) :
  M <= Seq.len k -> cache_wf M c ->
  let p := ensure_cache lm pre_seq post_seq oracle target_log k c in
  cache_wf M (snd p) /\ rbs_sequence (fst p) = k /\
  (rejected (fst p) = false -> isfinite (error (fst p)) = true).
Proof.
  intros Hk (Hc & He & Ht). cbv zeta.
  destruct (ensure_cache_cases lm pre_seq post_seq oracle target_log k c)
    as [[Hl Hs] | (Hnone & Hev & Hcalls & Hrbs & Htop)].
  - apply lookup_In, He in Hl as (_ & Hr & Hf). rewrite Hs. split; [exact (conj Hc (conj He Ht)) | auto].
  - pose proof (ensure_cache_valid lm pre_seq post_seq oracle target_log k c Hnone) as Hv.
    split; [|split; auto].
    split; [|split].
    + rewrite Hcalls. intros k' Hk'. apply in_app_or in Hk' as [Hk'|[<-|[]]]; auto.
    + rewrite Hev. intros k' v [Hkv|Hkv]; auto. injection Hkv as <- <-. auto.
    + destruct Htop as [-> | [-> Hr]]; auto.
      intros x Hx. apply in_app_or in Hx as [Hx|[<-|[]]]; [auto|]. rewrite Hrbs. auto.
Qed.

Lemma ok_with_fresh_pair_len cfg min_length max_length sd_cores s x mv r :
  (s0 <- fresh_random_rbs cfg min_length max_length sd_cores ;; ret (s0, RandomMove)) s
    = Ok ((x, mv), r) -> Z.max 4 min_length <= Seq.len x.
Proof.
  intros E. eapply (ok_with_elim _ (fun p => Z.max 4 min_length <= Seq.len (fst p))) in E; [exact E|].
  eapply ok_with_bind; [apply ok_random_rbs|]. intros a Ha. now apply ok_with_ret.
Qed.

Lemma mutate_len smin smax sequence min_length max_length a b c s x mv r :
  sequence <> "" ->
  mutate_rbs smin smax sequence min_length max_length a b c s = Ok ((x, mv), r) ->
  Z.min min_length (Seq.len sequence) <= Seq.len x.
Proof.
  intros Hne E. eapply ok_with_elim in E; [|apply ok_mutate_rbs; exact Hne]. apply E.
Qed.

Section LengthFacts.
Variable lm : Libm.
Variable cfg : Config.
Variables pre_seq post_seq : string.
Variable oracle : string -> Z -> option OstirRow.t.
Variable target_log : Q.
Variables min_length max_length : Z.
Variable sd_cores seed_pool : list string.
Variables accept_window restart_patience max_iter : Z.
Hypothesis Hpool : Forall (fun s => min_length <= Seq.len s) seed_pool.

Local Abbreviation step := (search_step lm cfg pre_seq post_seq oracle target_log min_length max_length
                          sd_cores accept_window max_iter).
Local Abbreviation ens := (ensure_cache lm pre_seq post_seq oracle target_log).
Local Abbreviation state_wf := (state_wf min_length).

Lemma wf_snd k c : min_length <= Seq.len k -> cache_wf min_length c ->
  cache_wf min_length (snd (ens k c)).
Proof. intros Hk Hc. apply (cache_wf_step lm pre_seq post_seq oracle target_log _ k c Hk Hc). Qed.

Lemma wf_rbs k c : min_length <= Seq.len k -> cache_wf min_length c ->
  rbs_sequence (fst (ens k c)) = k.
Proof. intros Hk Hc. apply (cache_wf_step lm pre_seq post_seq oracle target_log _ k c Hk Hc). Qed.

Lemma step_candidate_len st s m r q0 q1 q rr :
  (min_length <= Seq.len (current_rbs st) \/ (current_rbs st = "" /\ current_error st = PInf)) ->
  negb (current_rbs st =? "")%string = true ->
  mutate_rbs (DESIGN_SD_SPACING_MIN cfg) (DESIGN_SD_SPACING_MAX cfg) (current_rbs st)
    min_length max_length q0 q1 q rr = Ok ((s, m), r) ->
  min_length <= Seq.len s.
Proof.
  intros [Hc|[Hc _]] Hne E; [|rewrite Hc in Hne; discriminate].
  apply mutate_len in E; [lia|]. intros Heq. rewrite Heq in Hne. discriminate.
Qed.

Ltac wf_cache :=
  repeat first [ assumption | apply wf_snd; [try lia|] ].

Lemma search_step_wf st st' : state_wf st -> step st = Ok st' -> state_wf st'.
Proof.
  intros Hwf H. unfold search_step in H. inv_step.
  all: unfold state_wf in *; simpl_st; destruct Hwf as (Hc & Hcur & Hbest).
  all: match goal with
       | E : mutate_rbs _ _ _ _ _ _ _ _ _ = Ok ((?s, _), _) |- _ =>
           assert (Hs : min_length <= Seq.len s) by (eapply step_candidate_len; eassumption)
       | E : bind _ _ _ = Ok ((?s, _), _) |- _ =>
           assert (Hs : min_length <= Seq.len s) by (apply ok_with_fresh_pair_len in E; lia)
       end.
  all: unfold record_decision in *;
    repeat match goal with
    | H : context [if ?b then _ else _] |- _ => destruct b eqn:?
    | |- context [if ?b then _ else _] => destruct b eqn:?
    end; simpl_st.
  all: repeat match goal with H : (_ && _)%bool = true |- _ => apply andb_true_iff in H; destruct H end.
  all: repeat match goal with H : negb _ = true |- _ => apply negb_true_iff in H end.
  all: destruct Hcur as [Hcur|[Hcur1 Hcur2]]; [|try (rewrite Hcur2 in *; discriminate)].
  all: split; [wf_cache|split; [first [now left | now right | left; lia] |]].
  all: intros b0 Hb0; first [ now apply Hbest
                            | injection Hb0 as <-; rewrite wf_rbs by wf_cache; split; [lia|assumption] ].
Qed.

Lemma restart_wf i st st' : state_wf st ->
  restart_from_pool lm cfg pre_seq post_seq oracle target_log min_length max_length sd_cores
    seed_pool i st = Ok st' -> state_wf st'.
Proof.
  intros Hwf H. unfold restart_from_pool in H. inv_step.
  all: unfold state_wf in *; simpl_st; destruct Hwf as (Hc & Hcur & Hbest).
  all: match goal with
       | E : fresh_random_rbs _ _ _ _ _ = Ok (?s, _) |- _ =>
           assert (Hs : min_length <= Seq.len s)
             by (eapply ok_with_elim in E; [|apply ok_fresh_random_rbs]; cbv beta in E; lia)
       | H : (pool_index _ <? List.length seed_pool)%nat = true |- _ =>
           apply Nat.ltb_lt in H;
           assert (Hs : min_length <= Seq.len (nth (pool_index st) seed_pool ""))
             by (apply (proj1 (Forall_forall _ _) Hpool); apply nth_In; exact H)
       end.
  all: split; [wf_cache|split; [now left|exact Hbest]].
Qed.

Lemma outer_wf fuel st st' : state_wf st ->
  outer_loop lm cfg pre_seq post_seq oracle target_log min_length max_length sd_cores seed_pool
    accept_window restart_patience max_iter fuel st = Ok st' -> state_wf st'.
Proof.
  apply outer_preserve.
  - apply search_step_wf.
  - apply restart_wf.
  - intros i s. unfold state_wf. simpl_st. auto.
Qed.
End LengthFacts.

Lemma ok_build_pool cfg min_length max_length sd_cores n pool_size acc :
  Forall (fun s => Z.max 4 min_length <= Seq.len s) acc ->
  ok_with (build_pool cfg min_length max_length sd_cores n pool_size acc)
    (Forall (fun s => Z.max 4 min_length <= Seq.len s)).
Proof.
  revert acc. induction n as [|n IH]; intros acc Hacc; cbn [build_pool]; [now apply ok_with_ret|].
  eapply ok_with_bind; [apply ok_random_rbs|]. intros c Hc; cbv beta in Hc. cbv zeta.
  assert (Hacc' : Forall (fun s => Z.max 4 min_length <= Seq.len s)
                    (if existsb (String.eqb c) acc then acc else app acc [c])).
  { destruct (existsb _ _); [exact Hacc|]. apply Forall_app; split; [exact Hacc|]. now constructor. }
  destruct (_ <=? _); [now apply ok_with_ret|]. now apply IH.
Qed.

Lemma ok_build_pool_total cfg min_length max_length sd_cores n pool_size :
  ok_with (build_pool cfg min_length max_length sd_cores n pool_size [])
    (Forall (fun s => Z.max 4 min_length <= Seq.len s)).
Proof. apply ok_build_pool. constructor. Qed.

Lemma design_Ok_cases lm cfg oracle global_draw pre_seq post_seq target_expression
    min_length max_length iterations top_n random_seed d :
  design_rbs_candidates lm cfg oracle global_draw pre_seq post_seq target_expression
    min_length max_length iterations top_n random_seed = Ok d ->
  d = early_exit_result cfg iterations \/
  ((iterations <=? 0) || (top_n <=? 0) = false /\
   exists seed_pool r st,
    Forall (fun s => Z.max 4 min_length <= Seq.len s) seed_pool /\
    outer_loop lm cfg pre_seq post_seq oracle (log10 lm target_expression) (Z.max 4 min_length)
      (Z.max (Z.max 4 min_length) max_length)
      (filter (fun core => negb (String.eqb core "")) (DESIGN_SD_CORES cfg)) seed_pool
      (Z.max 4 (Z.min (DESIGN_ACCEPT_WINDOW cfg) iterations))
      (Z.max 1 (DESIGN_RESTART_PATIENCE cfg)) (Z.max 1 iterations)
      (S (Z.to_nat (Z.max 1 iterations))) (init_state cfg r) = Ok st /\
    ranked d = take_unique top_n [] [] (sort_candidates (top_candidates (cache st))) /\
    best d = best_candidate st /\ run_cache d = cache st /\
    Diagnostics.accept_window (diagnostics d) = Z.max 4 (Z.min (DESIGN_ACCEPT_WINDOW cfg) iterations)).
Proof.
  unfold design_rbs_candidates. destruct (_ || _) eqn:Eex.
  { intros H. injection H as <-. now left. }
  destruct (Qle_bool target_expression 0); [discriminate|].
  intros H. right. split; [reflexivity|]. cbv zeta in H.
  apply bindr_Ok in H as ([pool r] & E1 & H).
  apply bindr_Ok in H as ([pool' r'] & E2 & H).
  apply bindr_Ok in H as (st & E3 & H). injection H as <-.
  eapply ok_with_elim in E1; [|apply ok_build_pool_total].
  exists pool', r', st. split; [|split; [exact E3|simpl; auto]].
  destruct pool as [|p ps].
  - destruct (random_rbs _ _ _ _ _ _ r) as [[s r1]|] eqn:Er; [|discriminate].
    injection E2 as <- <-. eapply ok_with_elim in Er; [|apply ok_random_rbs].
    cbv beta in Er. constructor; [lia | constructor].
  - injection E2 as <- <-. eapply Forall_impl; [|exact E1]. intros a Ha; cbv beta in *; lia.
Qed.

Lemma design_total lm cfg oracle global_draw pre_seq post_seq target_expression
    min_length max_length iterations top_n random_seed :
  (0 < target_expression)%Q ->
  exists d, design_rbs_candidates lm cfg oracle global_draw pre_seq post_seq target_expression
    min_length max_length iterations top_n random_seed = Ok d.
Proof.
  intros Ht. unfold design_rbs_candidates. destruct (_ || _); [eauto|].
  replace (Qle_bool target_expression 0) with false
    by (symmetry; apply not_true_iff_false; rewrite Qle_bool_iff; apply Qlt_not_le, Ht).
  cbv zeta.
  match goal with |- context [build_pool ?a ?b ?c ?d ?e ?f ?g ?s] =>
    destruct (ok_build_pool_total a b c d e f s) as (pool & r & E1 & _); rewrite E1 end.
  cbn [bindr].
  match goal with |- exists _, bindr ?m _ = _ => assert (Hm : exists a, m = Ok a) end.
  { destruct pool; [|eauto].
    match goal with |- context [random_rbs ?a ?b ?c ?d ?e ?f r] =>
      destruct (ok_random_rbs a b c d e f r) as (s & r1 & E2 & _); rewrite E2 end. eauto. }
  destruct Hm as [[pool' r'] Hm]. rewrite Hm. cbn [bindr].
  match goal with |- context [outer_loop ?a1 ?a2 ?a3 ?a4 ?a5 ?a6 ?a7 ?a8 ?a9 ?a10 ?a11 ?a12 ?a13 ?a14 ?s] =>
    destruct (outer_total a1 a2 a3 a4 a5 a6 a7 a8 a9 a10 a11 a12 a13 a14 s) as [st E3]; rewrite E3 end.
  cbn [bindr]. eauto.
Qed.

Lemma Qltb_iff (x y : Q) : Qltb x y = true <-> (x < y)%Q.
Proof.
  unfold Qltb. rewrite negb_true_iff, <- not_true_iff_false, Qle_bool_iff.
  split; [apply Qnot_le_lt | apply Qlt_not_le].
Qed.

Lemma key_lt_true (a b : Candidate) : key_lt a b = true -> ranked_order a b.
Proof.
  unfold key_lt, ranked_order. destruct (xeqb _ _) eqn:E; [|now left].
  rewrite Qltb_iff. intros H. right. split; [reflexivity|]. apply Qlt_le_weak.
  apply Qopp_lt_compat in H. now rewrite !Qopp_involutive in H.
Qed.

Lemma key_lt_false (a b : Candidate) : key_lt a b = false -> ranked_order b a.
Proof.
  unfold key_lt, ranked_order.
  destruct (error a) as [x|], (error b) as [y|]; simpl; try discriminate; intros H.
  - destruct (Qeq_bool x y) eqn:E.
    + apply Qeq_bool_iff in E. right. split; [apply Qeq_bool_iff; now symmetry|].
      rewrite <- not_true_iff_false, Qltb_iff in H. apply Qnot_lt_le in H.
      apply Qopp_le_compat in H. now rewrite !Qopp_involutive in H.
    + left. apply Qltb_iff. rewrite <- not_true_iff_false, Qltb_iff in H.
      apply Qnot_lt_le in H. apply Qle_lt_or_eq in H as [H|H]; [exact H|].
      symmetry in H. apply Qeq_bool_iff in H. congruence.
  - left. reflexivity.
  - right. split; [reflexivity|].
    rewrite <- not_true_iff_false, Qltb_iff in H. apply Qnot_lt_le in H.
    apply Qopp_le_compat in H. now rewrite !Qopp_involutive in H.
Qed.

Lemma ranked_order_trans (a b c : Candidate) :
  ranked_order a b -> ranked_order b c -> ranked_order a c.
Proof.
  unfold ranked_order. intros [H1|[H1 H1']] [H2|[H2 H2']];
  destruct (error a) as [x|], (error b) as [y|], (error c) as [z|]; simpl in *;
    rewrite ?Qltb_iff, ?Qeq_bool_iff in *; try discriminate; rewrite ?Qltb_iff, ?Qeq_bool_iff.
  all: first [ now left | now right | idtac ].
  - left. now apply Qlt_trans with y.
  - left. now rewrite <- H2.
  - left. now rewrite H1.
  - right. split; [now rewrite H1|]. now apply Qle_trans with (predicted_expression b).
  - right. split; [reflexivity|]. now apply Qle_trans with (predicted_expression b).
Qed.

Lemma insert_sorted_perm (x : Candidate) (l : list Candidate) :
  Permutation (insert_sorted x l) (x :: l).
Proof.
  induction l as [|y l IH]; simpl; [reflexivity|].
  destruct (key_lt x y); [reflexivity|].
  rewrite IH. apply perm_swap.
Qed.

Lemma insert_sorted_sorted (x : Candidate) (l : list Candidate) :
  Sorted ranked_order l -> Sorted ranked_order (insert_sorted x l).
Proof.
  induction l as [|y l IH]; simpl; intros Hs; [repeat constructor|].
  destruct (key_lt x y) eqn:E.
  - constructor; [exact Hs|]. constructor. now apply key_lt_true.
  - apply Sorted_inv in Hs as [Hs Hhd]. constructor; [now apply IH|].
    destruct l as [|z l']; simpl; [constructor; now apply key_lt_false|].
    destruct (key_lt x z); constructor; [now apply key_lt_false|].
    now inversion Hhd.
Qed.

Lemma sort_candidates_perm (l : list Candidate) : Permutation (sort_candidates l) l.
Proof.
  unfold sort_candidates.
  assert (H : forall acc, Permutation (fold_left (fun acc x => insert_sorted x acc) l acc) (app l acc)).
  { induction l as [|x l IH]; intros acc; simpl; [reflexivity|].
    rewrite IH, insert_sorted_perm. symmetry. apply Permutation_middle. }
  rewrite H. now rewrite app_nil_r.
Qed.

Lemma sort_candidates_sorted (l : list Candidate) : Sorted ranked_order (sort_candidates l).
Proof.
  unfold sort_candidates.
  assert (H : forall acc, Sorted ranked_order acc ->
            Sorted ranked_order (fold_left (fun acc x => insert_sorted x acc) l acc)).
  { induction l as [|x l IH]; intros acc Hacc; simpl; [exact Hacc|].
    apply IH, insert_sorted_sorted, Hacc. }
  apply H. constructor.
Qed.

Lemma sort_candidates_strongly (l : list Candidate) :
  StronglySorted ranked_order (sort_candidates l).
Proof.
  apply Sorted_StronglySorted; [intros a b c; apply ranked_order_trans|apply sort_candidates_sorted].
Qed.

Lemma take_unique_props (top_n : Z) (seen : list string) (acc l : list Candidate) :
  Forall keep_ok acc -> NoDup (map rbs_sequence acc) -> incl (map rbs_sequence acc) seen ->
  Z.of_nat (List.length acc) < top_n ->
  StronglySorted ranked_order acc -> StronglySorted ranked_order l ->
  (forall a b, In a acc -> In b l -> ranked_order a b) ->
  let r := take_unique top_n seen acc l in
  Forall keep_ok r /\ incl r (app acc l) /\ NoDup (map rbs_sequence r) /\
  Z.of_nat (List.length r) <= top_n /\ StronglySorted ranked_order r.
Proof.
  revert seen acc. induction l as [|item l IH]; intros seen acc Hok Hnd Hinc Hlen Hsa Hsl Hal; cbn zeta.
  { simpl. rewrite app_nil_r. repeat split; auto; [apply incl_refl|lia]. }
  apply StronglySorted_inv in Hsl as [Hsl Hhd].
  assert (Hskip : let r := take_unique top_n seen acc l in
    Forall keep_ok r /\ incl r (app acc (item :: l)) /\ NoDup (map rbs_sequence r) /\
    Z.of_nat (List.length r) <= top_n /\ StronglySorted ranked_order r).
  { cbn zeta. destruct (IH seen acc Hok Hnd Hinc Hlen Hsa Hsl) as (H1 & H2 & H3 & H4 & H5).
    - intros a b Ha Hb. apply Hal; [exact Ha | now right].
    - repeat split; auto. intros x Hx. apply H2 in Hx. apply in_app_or in Hx as [Hx|Hx];
        apply in_or_app; [now left | right; now right]. }
  simpl. destruct (existsb (String.eqb (rbs_sequence item)) seen) eqn:Eseen; [exact Hskip|].
  destruct (String.eqb_spec (rbs_sequence item) "") as [Hem|Hne]; [exact Hskip|].
  destruct (rejected item || Qle_bool (predicted_expression item) 0) eqn:Erej; [exact Hskip|].
  apply orb_false_iff in Erej as [Erej Epos].
  assert (Hitem : keep_ok item).
  { split; [exact Erej|split; [|exact Hne]].
    apply Qnot_le_lt. intros H. apply Qle_bool_iff in H. congruence. }
  assert (Hnotin : ~ In (rbs_sequence item) seen).
  { intros Hin. assert (existsb (String.eqb (rbs_sequence item)) seen = true) as Ht
      by (apply existsb_exists; exists (rbs_sequence item); split; [exact Hin|apply String.eqb_refl]).
    congruence. }
  assert (Hok' : Forall keep_ok (app acc [item])) by (apply Forall_app; auto).
  assert (Hnd' : NoDup (map rbs_sequence (app acc [item]))).
  { rewrite map_app. apply NoDup_app; [exact Hnd|repeat constructor; auto|].
    intros x Hx [<-|[]]. now apply Hinc in Hx. }
  assert (Hsa' : StronglySorted ranked_order (app acc [item])).
  { clear -Hsa Hal. induction acc as [|a acc IHa]; simpl; [repeat constructor|].
    apply StronglySorted_inv in Hsa as [Hsa Hhda]. constructor.
    - apply IHa; [exact Hsa|]. intros x y Hx Hy. apply Hal; [now right|exact Hy].
    - apply Forall_app. split; [exact Hhda|]. constructor; [|constructor].
      apply Hal; [now left|now left]. }
  destruct (top_n <=? Z.of_nat (List.length (app acc [item]))) eqn:Etop.
  - apply Z.leb_le in Etop. rewrite length_app in *. simpl in *.
    repeat split; auto; [|lia].
    intros x Hx. apply in_app_or in Hx as [Hx|[<-|[]]]; apply in_or_app; [now left|right; now left].
  - apply Z.leb_gt in Etop.
    destruct (IH (rbs_sequence item :: seen) (app acc [item]) Hok' Hnd') as (H1 & H2 & H3 & H4 & H5);
      auto.
    + rewrite map_app. intros x Hx. apply in_app_or in Hx as [Hx|[<-|[]]]; [right; now apply Hinc|now left].
    + intros a b Ha Hb. apply in_app_or in Ha as [Ha|[<-|[]]].
      * apply Hal; [exact Ha|now right].
      * eapply Forall_forall; [exact Hhd|exact Hb].
    + repeat split; auto. intros x Hx. apply H2 in Hx. rewrite <- app_assoc in Hx. exact Hx.
Qed.

Lemma evaluate_full_ok lm oracle pre_seq post_seq rbs_seq target_log start_codon e :
  evaluate_full lm oracle pre_seq post_seq rbs_seq target_log start_codon = Some e ->
  rbs_sequence e = rbs_seq /\ (rejected e = false -> (0 < predicted_expression e)%Q).
Proof.
  unfold evaluate_full. destruct (String.eqb rbs_seq "") ; [discriminate|]. cbv zeta.
  repeat match goal with |- context [match ?x with _ => _ end] => destruct x eqn:? end;
    intros H; injection H as <-; simpl; split; auto; try discriminate.
  all: intros _; rewrite ?Qltb_iff in *.
  all: first [ reflexivity | apply Qnot_le_lt; intros Hle; apply Qle_bool_iff in Hle; congruence ].
Qed.

Lemma refine_props lm oracle fpre fpost target_log start_codon (l : list Candidate) :
  let r := refine lm oracle fpre fpost target_log start_codon l in
  Forall keep_ok r /\ incl (map rbs_sequence r) (map rbs_sequence l) /\
  (NoDup (map rbs_sequence l) -> NoDup (map rbs_sequence r)) /\
  (List.length r <= List.length l)%nat.
Proof.
  induction l as [|c l (IH1 & IH2 & IH3 & IH4)]; cbn zeta in *; simpl.
  { repeat split; auto; [apply incl_refl]. }
  assert (Hskip : Forall keep_ok (refine lm oracle fpre fpost target_log start_codon l) /\
    incl (map rbs_sequence (refine lm oracle fpre fpost target_log start_codon l))
         (rbs_sequence c :: map rbs_sequence l) /\
    (NoDup (rbs_sequence c :: map rbs_sequence l) ->
     NoDup (map rbs_sequence (refine lm oracle fpre fpost target_log start_codon l))) /\
    (List.length (refine lm oracle fpre fpost target_log start_codon l) <= S (List.length l))%nat).
  { repeat split; auto; [apply incl_tl, IH2| intros H; inversion H; auto]. }
  destruct (String.eqb_spec (rbs_sequence c) "") as [_|Hne]; [exact Hskip|].
  destruct (evaluate_full _ _ _ _ _ _ _) as [e|] eqn:Ee; [|exact Hskip].
  destruct (rejected e) eqn:Er; [exact Hskip|].
  apply evaluate_full_ok in Ee as [Hrbs Hpos].
  simpl. rewrite Hrbs. repeat split.
  - constructor; [|exact IH1]. split; [exact Er|split; [now apply Hpos|now rewrite Hrbs]].
  - apply incl_cons; [now left|]. apply incl_tl, IH2.
  - intros H. inversion H; subst. constructor; auto.
  - lia.
Qed.

Lemma build_ranked_fold (target_expression : Q) (index : Z) (cs : list Candidate) :
  (0 < target_expression)%Q -> Forall (fun c => (0 < predicted_expression c)%Q) cs ->
  forall o, In o (build_ranked target_expression index cs) ->
  Output.fold_ratio o = Some (Output.predicted_expression o / Output.target_expression o)%Q.
Proof.
  intros Ht. revert index. induction cs as [|c cs IH]; intros index Hcs o Ho; [destruct Ho|].
  inversion Hcs as [|? ? Hc Hcs']; subst.
  destruct Ho as [<-|Ho]; [|eapply IH; eauto].
  simpl. apply Qltb_iff in Hc. apply Qltb_iff in Ht. now rewrite Hc, Ht.
Qed.

Lemma design_ranked_props lm cfg oracle global_draw pre_seq post_seq target_expression
    min_length max_length iterations top_n random_seed d :
  design_rbs_candidates lm cfg oracle global_draw pre_seq post_seq target_expression
    min_length max_length iterations top_n random_seed = Ok d ->
  Forall keep_ok (ranked d) /\ NoDup (map rbs_sequence (ranked d)) /\
  (List.length (ranked d) <= Z.to_nat top_n)%nat /\ StronglySorted ranked_order (ranked d).
Proof.
  intros H. apply design_Ok_cases in H as [->|(Eex & pool & r & st & _ & _ & Hr & _)].
  { simpl. repeat split; auto; [constructor|lia|constructor]. }
  apply orb_false_iff in Eex as [_ Etop]. apply Z.leb_gt in Etop.
  rewrite Hr.
  pose proof (take_unique_props top_n [] [] (sort_candidates (top_candidates (cache st)))
    (Forall_nil _) (NoDup_nil _) (incl_refl _) ltac:(simpl; lia) (SSorted_nil _)
    (sort_candidates_strongly _) (fun a b Ha _ => match Ha with end)) as (H1 & _ & H3 & H4 & H5).
  split; [exact H1|split; [exact H3|split; [|exact H5]]].
  apply Nat2Z.inj_le. rewrite Z2Nat.id by lia. exact H4.
Qed.

Lemma NoDup_firstn_map (n : nat) (l : list Candidate) :
  NoDup (map rbs_sequence l) -> NoDup (map rbs_sequence (firstn n l)).
Proof.
  intros H. rewrite <- (firstn_skipn n l), map_app in H. now apply NoDup_app_remove_r in H.
Qed.

(** C1: every completed run's ranked output is [build_ranked] of a list of
    candidates that are not rejected and have positive predicted expression,
    pairwise distinct in [rbs_sequence], sorted by ascending error with ties
    by descending predicted expression, at most [top_n] long; every output
    record's [fold_ratio] is predicted_expression / target_expression. *)
Theorem design_output_ranked lm cfg oracle global_draw pre_seq post_seq full_pre_seq full_post_seq
    truncated target_expression min_len_i max_len_i iterations_i top_n_i random_seed
    refinement_multiplier out :
  run_design_core lm cfg oracle global_draw pre_seq post_seq full_pre_seq full_post_seq truncated
    target_expression min_len_i max_len_i iterations_i top_n_i random_seed refinement_multiplier
    = Ok out ->
  exists cs, out = build_ranked target_expression 1 cs /\
    (forall c, In c cs -> rejected c = false /\ (0 < predicted_expression c)%Q) /\
    NoDup (map rbs_sequence cs) /\ Sorted ranked_order cs /\
    (List.length cs <= Z.to_nat top_n_i)%nat /\
    (forall o, In o out ->
       Output.fold_ratio o = Some (Output.predicted_expression o / Output.target_expression o)%Q).
Proof.
  unfold run_design_core. intros H. apply bindr_Ok in H as (d & Ed & H).
  destruct (Qle_bool target_expression 0) eqn:Et; [discriminate|]. cbv zeta in H.
  injection H as <-.
  assert (Ht : (0 < target_expression)%Q)
    by (apply Qnot_le_lt; intros Hle; apply Qle_bool_iff in Hle; congruence).
  destruct (design_ranked_props _ _ _ _ _ _ _ _ _ _ _ _ _ Ed) as (Hok & Hnd & Hlen & Hss).
  match goal with |- exists cs, build_ranked _ _ ?c = _ /\ _ => exists c end.
  match goal with |- _ /\ ?G => enough (Hc : G) by (split; [reflexivity|exact Hc]) end.
  match goal with |- context [build_ranked _ _ ?c] =>
    enough (Hcs : Forall keep_ok c /\ NoDup (map rbs_sequence c) /\ Sorted ranked_order c /\
                  (List.length c <= Z.to_nat top_n_i)%nat) end.
  { destruct Hcs as (H1 & H2 & H3 & H4). split; [|split; [exact H2|split; [exact H3|split; [exact H4|]]]].
    - intros c Hc. eapply Forall_forall in H1; [|exact Hc]. destruct H1 as (A & B & _). auto.
    - apply build_ranked_fold; [exact Ht|]. eapply Forall_impl; [|exact H1]. intros c (_ & Hc & _); exact Hc. }
  destruct truncated.
  - match goal with |- context [refine lm oracle ?a ?b ?c ?d ?l] =>
      destruct (refine_props lm oracle a b c d l) as (R1 & _ & R3 & R4) end.
    pose proof (sort_candidates_perm
      (refine lm oracle full_pre_seq full_post_seq (log10 lm target_expression)
         (if String.eqb full_post_seq "" then Seq.upper (Seq.prefix post_seq 3)
          else Seq.upper (Seq.prefix full_post_seq 3))
         (firstn (Z.to_nat (Z.min (Z.of_nat (List.length (ranked d)))
                                 (top_n_i * Z.max 1 refinement_multiplier))) (ranked d)))) as Hp.
    split; [|split; [|split]].
    + apply Forall_forall. intros x Hx. eapply Permutation_in in Hx; [|exact Hp].
      eapply Forall_forall; [exact R1|exact Hx].
    + eapply Permutation_NoDup; [symmetry; apply Permutation_map; exact Hp|].
      apply R3, NoDup_firstn_map, Hnd.
    + apply sort_candidates_sorted.
    + rewrite (Permutation_length Hp). eapply Nat.le_trans; [exact R4|].
      rewrite length_firstn. lia.
  - split; [exact Hok|split; [exact Hnd|split; [apply StronglySorted_Sorted, Hss|exact Hlen]]].
Qed.

Lemma ranked_in_top (top_n : Z) (l : list Candidate) (c : Candidate) :
  0 < top_n -> In c (take_unique top_n [] [] (sort_candidates l)) -> In c l.
Proof.
  intros Htop Hc.
  pose proof (take_unique_props top_n [] [] (sort_candidates l)
    (Forall_nil _) (NoDup_nil _) (incl_refl _) ltac:(simpl; lia) (SSorted_nil _)
    (sort_candidates_strongly _) (fun a b Ha _ => match Ha with end)) as (_ & H2 & _).
  apply H2 in Hc. simpl in Hc. eapply Permutation_in; [apply sort_candidates_perm|exact Hc].
Qed.

Lemma cache_reach_lookup lm pre_seq post_seq oracle target_log c c' k v :
  cache_reach lm pre_seq post_seq oracle target_log c c' ->
  lookup k (evaluated c) = Some v -> lookup k (evaluated c') = Some v.
Proof.
  intros H. revert k v. induction H as [c|c k' c' H IH]; intros k v Hk; [exact Hk|].
  apply IH. now apply ensure_cache_keeps.
Qed.

Lemma calls_ok_reach lm pre_seq post_seq oracle target_log c :
  cache_reach lm pre_seq post_seq oracle target_log empty_cache c -> calls_ok c.
Proof.
  intros H. eapply cache_reach_invariant; [|exact H|apply calls_ok_empty].
  intros c0 k. apply calls_ok_step.
Qed.

Lemma design_reach lm cfg oracle global_draw pre_seq post_seq target_expression
    min_length max_length iterations top_n random_seed d :
  design_rbs_candidates lm cfg oracle global_draw pre_seq post_seq target_expression
    min_length max_length iterations top_n random_seed = Ok d ->
  cache_reach lm pre_seq post_seq oracle (log10 lm target_expression) empty_cache (run_cache d).
Proof.
  intros H. apply design_Ok_cases in H as [->|(_ & pool & r & st & _ & Eo & _ & _ & -> & _)].
  - apply cache_reach_refl.
  - apply outer_reach in Eo. exact Eo.
Qed.

(** C2: with an iteration budget <= 0 or top_n <= 0, the design returns an
    empty ranked list, no best candidate, [early_exit = true] and an empty
    oracle log. *)
Theorem design_early_exit lm cfg oracle global_draw pre_seq post_seq target_expression
    min_length max_length iterations top_n random_seed :
  iterations <= 0 \/ top_n <= 0 ->
  exists d, design_rbs_candidates lm cfg oracle global_draw pre_seq post_seq target_expression
              min_length max_length iterations top_n random_seed = Ok d /\
    ranked d = [] /\ best d = None /\ Diagnostics.early_exit (diagnostics d) = true /\
    oracle_calls (run_cache d) = [].
Proof.
  intros H. unfold design_rbs_candidates.
  replace ((iterations <=? 0) || (top_n <=? 0)) with true
    by (symmetry; apply orb_true_iff; destruct H; [left|right]; now apply Z.leb_le).
  eexists. repeat split; reflexivity.
Qed.

(** C3: in a run's final cache the oracle log has no duplicate and lists
    exactly the evaluated fragments; evaluating a stored fragment again
    returns the stored Candidate and leaves the cache (and the oracle log)
    unchanged; and an entry, once stored, is never overwritten. *)
Theorem design_cache_once lm cfg oracle global_draw pre_seq post_seq target_expression
    min_length max_length iterations top_n random_seed d :
  design_rbs_candidates lm cfg oracle global_draw pre_seq post_seq target_expression
    min_length max_length iterations top_n random_seed = Ok d ->
  let ens := ensure_cache lm pre_seq post_seq oracle (log10 lm target_expression) in
  NoDup (oracle_calls (run_cache d)) /\
  (forall k, In k (oracle_calls (run_cache d)) <-> lookup k (evaluated (run_cache d)) <> None) /\
  (forall k v, lookup k (evaluated (run_cache d)) = Some v -> ens k (run_cache d) = (v, run_cache d)) /\
  (forall c k v,
     cache_reach lm pre_seq post_seq oracle (log10 lm target_expression) empty_cache c ->
     cache_reach lm pre_seq post_seq oracle (log10 lm target_expression) c (run_cache d) ->
     lookup k (evaluated c) = Some v -> lookup k (evaluated (run_cache d)) = Some v).
Proof.
  intros H ens. pose proof (design_reach _ _ _ _ _ _ _ _ _ _ _ _ _ H) as R.
  destruct (calls_ok_reach _ _ _ _ _ _ R) as [Hnd Hin].
  split; [exact Hnd|split; [exact Hin|split]].
  - intros k v Hk. now apply ensure_cache_hit.
  - intros c k v _ Hc Hk. eapply cache_reach_lookup; eauto.
Qed.

(** C10: for a positive target, [random_rbs] never raises and returns a
    sequence of length >= 4 and >= min_length, whatever the bounds; a design
    run succeeds and every oracle query, ranked candidate and best candidate
    has length >= 4 and >= min_length. *)
Theorem design_length_clamped lm cfg oracle global_draw pre_seq post_seq target_expression
    min_length max_length iterations top_n random_seed :
  (0 < target_expression)%Q ->
  (forall seed spacing_min spacing_max sd_cores,
     ok_with (random_rbs min_length max_length seed spacing_min spacing_max sd_cores)
       (fun s => 4 <= Seq.len s /\ min_length <= Seq.len s)) /\
  exists d, design_rbs_candidates lm cfg oracle global_draw pre_seq post_seq target_expression
              min_length max_length iterations top_n random_seed = Ok d /\
    (forall k, In k (oracle_calls (run_cache d)) -> 4 <= Seq.len k /\ min_length <= Seq.len k) /\
    (forall c, In c (ranked d) -> 4 <= Seq.len (rbs_sequence c) /\ min_length <= Seq.len (rbs_sequence c)) /\
    (forall b, best d = Some b -> 4 <= Seq.len (rbs_sequence b) /\ min_length <= Seq.len (rbs_sequence b)).
Proof.
  intros Ht. split.
  { intros. eapply ok_with_mono; [apply ok_random_rbs|]. cbv beta. lia. }
  destruct (design_total lm cfg oracle global_draw pre_seq post_seq target_expression
              min_length max_length iterations top_n random_seed Ht) as [d Ed].
  exists d. split; [exact Ed|].
  apply design_Ok_cases in Ed as [->|(Eex & pool & r & st & Hpool & Eo & Hr & Hb & Hc & _)].
  { simpl. repeat split; intros; try contradiction; discriminate. }
  apply orb_false_iff in Eex as [_ Etop]. apply Z.leb_gt in Etop.
  assert (Hwf : state_wf (Z.max 4 min_length) (init_state cfg r)).
  { split; [apply cache_wf_empty|split; [right; split; reflexivity|intros b0 Hb0; discriminate]]. }
  pose proof (outer_wf _ _ _ _ _ _ _ _ _ _ _ _ _ Hpool _ _ _ Hwf Eo) as Hst.
  destruct Hst as ((Hcalls & _ & Htop) & _ & Hbest).
  rewrite Hr, Hb, Hc. split; [|split].
  - intros k Hk. apply Hcalls in Hk. lia.
  - intros c Hin. apply ranked_in_top in Hin; [|exact Etop]. apply Htop in Hin. lia.
  - intros b Hb'. apply Hbest in Hb'. lia.
Qed.

Lemma cache_wf_zero_reach lm pre_seq post_seq oracle target_log c :
  cache_reach lm pre_seq post_seq oracle target_log empty_cache c -> cache_wf 0 c.
Proof.
  intros H. refine (cache_reach_invariant lm pre_seq post_seq oracle target_log (cache_wf 0) _ _ _ H (cache_wf_empty 0)).
  intros c0 k Hc. apply (cache_wf_step lm pre_seq post_seq oracle target_log 0 k c0); [apply len_nonneg|exact Hc].
Qed.

(** C4 (amended): at a positive temperature, delta <= 0 gives probability 1
    and delta > 0 gives exp(-delta/t); a temperature <= 0 or infinite gives
    probability 0 for every delta; with a finite incumbent, a positive
    temperature and a valid candidate with delta <= 0, the decision accepts;
    a rejected candidate, or an infinite-error candidate against an infinite
    incumbent, is never accepted; every evaluated candidate is rejected or
    has a finite error. *)
Theorem accept_decision lm :
  (forall d t, (0 < t)%Q -> (d <= 0)%Q -> accept_probability lm (Fin d) (Fin t) = 1%Q) /\
  (forall d t, (0 < t)%Q -> (0 < d)%Q -> accept_probability lm (Fin d) (Fin t) = exp lm (- d / t)) /\
  (forall delta t, (t <= 0)%Q -> accept_probability lm delta (Fin t) = 0%Q) /\
  (forall delta, accept_probability lm delta PInf = 0%Q) /\
  (forall result st cur e,
     current_error st = Fin cur -> (0 < temperature st)%Q ->
     rejected result = false -> error result = Fin e -> (e - cur <= 0)%Q ->
     exists st', decide lm result st = Ok (true, st')) /\
  (forall result st b st', rejected result = true -> decide lm result st = Ok (b, st') -> b = false) /\
  (forall result st b st', error result = PInf -> current_error st = PInf ->
     decide lm result st = Ok (b, st') -> b = false) /\
  (forall pre_seq post_seq oracle target_log c k,
     cache_reach lm pre_seq post_seq oracle target_log empty_cache c ->
     let result := fst (ensure_cache lm pre_seq post_seq oracle target_log k c) in
     rejected result = true \/ exists e, error result = Fin e).
Proof.
  assert (Hlt : forall x y : Q, (x < y)%Q -> Qle_bool y x = false).
  { intros x y H. apply not_true_iff_false. rewrite Qle_bool_iff. now apply Qlt_not_le. }
  assert (Hle : forall x y : Q, (x <= y)%Q -> Qle_bool x y = true) by (intros; now apply Qle_bool_iff).
  unfold accept_probability. split; [|split; [|split; [|split; [|split; [|split; [|split]]]]]].
  - intros d t Ht Hd. now rewrite Hlt, Hle by assumption.
  - intros d t Ht Hd. now rewrite !Hlt by assumption.
  - intros [d|] t Ht; [|reflexivity]. now rewrite Hle.
  - now intros [d|].
  - intros result st cur e Hc Ht Hr He Hd. unfold decide. rewrite Hc, He. simpl xsub.
    unfold accept_probability. rewrite Hlt, Hle by assumption.
    destruct (ok_random (rnd st)) as (u & r & Eu & Hu0 & Hu1).
    unfold with_rnd. rewrite Eu. cbn [bindr]. rewrite Hr.
    rewrite Hle by (apply Qlt_le_weak, Hu1). eauto.
  - intros result st b st' Hr. unfold decide. rewrite Hr.
    destruct (current_error st) as [cur|].
    + intros H. apply bindr_Ok in H as ([u st1] & _ & H). injection H as <- _.
      apply andb_false_r.
    + intros H. injection H as <- _. apply andb_false_r.
  - intros result st b st' He Hc. unfold decide. rewrite Hc, He. intros H. now injection H as <- _.
  - intros pre_seq post_seq oracle target_log c k Hc. cbv zeta.
    destruct (cache_wf_step lm pre_seq post_seq oracle target_log 0 k c (len_nonneg k)
                (cache_wf_zero_reach _ _ _ _ _ _ Hc)) as (_ & _ & Hf). cbv zeta in Hf.
    destruct (rejected _); [now left|right].
    specialize (Hf eq_refl). destruct (error _) as [e|]; [eauto|discriminate].
Qed.

(** C4 counterexample: at temperature 0 a valid candidate with delta = -1
    has acceptance probability 0 and is rejected. *)
Lemma accept_zero_temperature :
  accept_probability libm_coarse (Fin (-1)) (Fin 0) = 0%Q /\
  current_error c4_state = Fin 1 /\ temperature c4_state = 0%Q /\
  rejected c4_candidate = false /\ error c4_candidate = Fin 0 /\
  exists st', decide libm_coarse c4_candidate c4_state = Ok (false, st').
Proof. repeat split; eexists; vm_compute; reflexivity. Qed.

(** C5 (amended): on a first evaluation the result is classified in the order
    no row ("no_valid_ostir_row"), non-positive or missing expression,
    start-codon mismatch, start-position mismatch, otherwise accepted with
    the clamped expression and error |log10(pred) - log10(target)|; every
    rejected candidate has an infinite error. *)
Theorem ensure_cache_classify lm pre_seq post_seq oracle target_expression rbs_seq c :
  lookup rbs_seq (evaluated c) = None ->
  let full_seq := pre_seq ++ rbs_seq ++ post_seq in
  let pos := expected_start pre_seq + Seq.len rbs_seq in
  let cand := fst (ensure_cache lm pre_seq post_seq oracle (log10 lm target_expression) rbs_seq c) in
  (oracle full_seq pos = None ->
     rejected cand = true /\ reject_reason cand = Some "no_valid_ostir_row") /\
  (forall r, oracle full_seq pos = Some r ->
     (forall e, OstirRow.expression r = Some e -> (e <= 0)%Q) ->
     rejected cand = true /\ reject_reason cand = Some "non_positive_expression") /\
  (forall r e, oracle full_seq pos = Some r -> OstirRow.expression r = Some e -> (0 < e)%Q ->
     Seq.upper (OstirRow.start_codon r) <> start_codon_expected post_seq ->
     rejected cand = true /\ reject_reason cand = Some "start_codon_mismatch") /\
  (forall r e, oracle full_seq pos = Some r -> OstirRow.expression r = Some e -> (0 < e)%Q ->
     Seq.upper (OstirRow.start_codon r) = start_codon_expected post_seq ->
     (forall p, OstirRow.start_position r = Some p -> py_int p <> pos) ->
     rejected cand = true /\ reject_reason cand = Some "start_position_mismatch") /\
  (forall r e p, oracle full_seq pos = Some r -> OstirRow.expression r = Some e -> (0 < e)%Q ->
     Seq.upper (OstirRow.start_codon r) = start_codon_expected post_seq ->
     OstirRow.start_position r = Some p -> py_int p = pos ->
     rejected cand = false /\ reject_reason cand = None /\
     predicted_expression cand = (if Qltb e (1 # 1000000000000) then (1 # 1000000000000)%Q else e) /\
     error cand = Fin (Qabs (log10 lm (predicted_expression cand) - log10 lm target_expression))) /\
  (rejected cand = true -> error cand = PInf).
Proof.
  intros E full_seq pos cand. subst cand.
  assert (Hle : forall x y : Q, (x <= y)%Q -> Qle_bool x y = true) by (intros; now apply Qle_bool_iff).
  assert (Hlt : forall x y : Q, (x < y)%Q -> Qle_bool y x = false).
  { intros x y H. apply not_true_iff_false. rewrite Qle_bool_iff. now apply Qlt_not_le. }
  unfold ensure_cache. rewrite E. fold full_seq. fold pos.
  split; [|split; [|split; [|split; [|split]]]].
  - intros Ho. now rewrite Ho.
  - intros r Ho He. rewrite Ho. destruct (OstirRow.expression r) as [e|]; [|now split].
    now rewrite Hle by (apply He; reflexivity).
  - intros r e Ho He Hp Hc. rewrite Ho, He, Hlt by assumption.
    apply String.eqb_neq in Hc. rewrite Hc. now split.
  - intros r e Ho He Hp Hc Hpos. rewrite Ho, He, Hlt by assumption.
    rewrite Hc, String.eqb_refl. cbn [negb].
    destruct (OstirRow.start_position r) as [p|]; [|now split].
    specialize (Hpos p eq_refl). apply Z.eqb_neq in Hpos. fold pos. rewrite Hpos. now split.
  - intros r e p Ho He Hp Hc Hs Hpos. rewrite Ho, He, Hlt by assumption.
    rewrite Hc, String.eqb_refl. cbn [negb]. rewrite Hs. fold pos. rewrite Hpos, Z.eqb_refl.
    cbn. repeat split.
  - repeat match goal with |- context [match ?x with _ => _ end] => destruct x end;
      cbn; congruence.
Qed.

(** C5 witness: a first evaluation of "AGGAGG" in an empty cache. *)
Lemma ensure_cache_classify_witness :
  ltac:(let t := type of (ensure_cache_classify libm_coarse "" "ATG" oracle_any_valid 1 "AGGAGG"
                            empty_cache) in
        match t with ?A -> ?B => exact (A /\ B) end).
Proof.
  split; [reflexivity|]. apply (ensure_cache_classify libm_coarse "" "ATG" oracle_any_valid 1 "AGGAGG").
  reflexivity.
Defined.

(** C5 counterexample: the reason given when the oracle returns no row is
    "no_valid_ostir_row", which is not one of the listed reasons. *)
Lemma ensure_cache_reason_name :
  reject_reason (fst (ensure_cache libm_coarse "" "ATG" (fun _ _ => None) 0 "AGGAGG" empty_cache))
    = Some "no_valid_ostir_row" /\
  ~ In "no_valid_ostir_row" spec_reject_reasons.
Proof.
  split; [reflexivity|]. cbn. intros H. repeat destruct H as [H|H]; try discriminate. exact H.
Qed.




(** C9: for a non-empty sequence, [mutate_rbs] never raises, never answers
    "noop", tags the result Sub, Ins or Del and returns a different sequence:
    a substitution puts a different letter at one position, an insertion
    adds one letter, a deletion removes one; so in the search step the
    identical-candidate test is false. *)
Theorem mutate_rbs_changes spacing_min spacing_max sequence min_length max_length
    sub_weight ins_weight del_weight :
  sequence <> "" ->
  ok_with (mutate_rbs spacing_min spacing_max sequence min_length max_length
             sub_weight ins_weight del_weight)
    (fun r => snd r <> Noop /\ (snd r = Sub \/ snd r = Ins \/ snd r = Del) /\ fst r <> sequence /\
       ((snd r = Sub /\
         exists i c, (i < String.length sequence)%nat /\
           c <> nth i (list_ascii_of_string sequence) "A"%char /\
           fst r = string_of_list_ascii (list_set (list_ascii_of_string sequence) i c)) \/
        (snd r = Ins /\ Seq.len (fst r) = Seq.len sequence + 1) \/
        (snd r = Del /\ Seq.len (fst r) = Seq.len sequence - 1))) /\
  (forall st, current_rbs st = sequence ->
     exists candidate move_type r,
       with_rnd st (mutate_rbs spacing_min spacing_max (current_rbs st) min_length max_length
                      sub_weight ins_weight del_weight) = Ok ((candidate, move_type), set_rnd r st) /\
       String.eqb candidate (current_rbs (set_rnd r st)) = false).
Proof.
  intros Hne.
  pose proof (ok_mutate_rbs spacing_min spacing_max sequence min_length max_length
                sub_weight ins_weight del_weight Hne) as H.
  split.
  - eapply ok_with_mono;
      [exact (ok_with_conj _ _ _ H (ok_mutate_rbs_shape spacing_min spacing_max sequence min_length
                                      max_length sub_weight ins_weight del_weight Hne))|].
    intros r ((Hm & Hd & _) & Hs).
    split; [|split; [assumption | split; assumption]]. destruct Hm as [->|[->| ->]]; discriminate.
  - intros st Hst. rewrite Hst.
    destruct (with_rnd_total st _ _ H) as ([candidate move_type] & r & E & _ & Hd & _).
    exists candidate, move_type, r. split; [exact E|]. cbn. rewrite Hst.
    now apply String.eqb_neq.
Qed.

(** C9 witness: the sequence "AGGAGG". *)
Lemma mutate_rbs_changes_witness :
  ltac:(let t := type of (mutate_rbs_changes 4 8 "AGGAGG" 4 16 1 1 1) in
        match t with ?A -> ?B => exact (A /\ B) end).
Proof. split; [discriminate|]. apply (mutate_rbs_changes 4 8 "AGGAGG" 4 16 1 1 1). discriminate. Defined.

Lemma record_decision_history mv c res acc st :
  accept_history (record_decision mv c res acc st) = accept_history st.
Proof. unfold record_decision. destruct acc; [destruct (_ && _)|]; reflexivity. Qed.

Lemma record_decision_temperature mv c res acc st :
  temperature (record_decision mv c res acc st) = temperature st.
Proof. unfold record_decision. destruct acc; [destruct (_ && _)|]; reflexivity. Qed.

Lemma step_window lm cfg pre_seq post_seq oracle target_log min_length max_length sd_cores
    accept_window max_iter st st' :
  search_step lm cfg pre_seq post_seq oracle target_log min_length max_length sd_cores
    accept_window max_iter st = Ok st' ->
  (exists acc, accept_history st' = push_history accept_window (accept_history st) acc) /\
  temperature st' = adapt_temperature cfg accept_window (accept_history st') (temperature st).
Proof.
  unfold search_step. intros H. inv_step.
  all: rewrite ?record_decision_history, ?record_decision_temperature in *; simpl_st.
  all: try (split; [eexists; reflexivity | reflexivity]).
  all: idtac.
Qed.
Lemma adapt_range cfg accept_window h t :
  (0 <= DESIGN_TEMPERATURE_MIN cfg)%Q -> (DESIGN_TEMPERATURE_MIN cfg <= DESIGN_TEMPERATURE_MAX cfg)%Q ->
  (DESIGN_TEMPERATURE_MIN cfg <= t <= DESIGN_TEMPERATURE_MAX cfg)%Q ->
  (DESIGN_TEMPERATURE_MIN cfg <= adapt_temperature cfg accept_window h t <= DESIGN_TEMPERATURE_MAX cfg)%Q.
Proof.
  intros H0 H1 [Hl Hu]. unfold adapt_temperature.
  destruct (_ =? _); [|split; assumption].
  destruct (Qltb _ _).
  - split; [apply Q.le_max_l|]. apply Q.max_lub; lra.
  - destruct (Qltb _ _); [|split; assumption].
    split; [|apply Q.le_min_l]. apply Q.min_glb; lra.
Qed.

Lemma design_window lm cfg oracle global_draw pre_seq post_seq target_expression min_length max_length
    iterations top_n random_seed d :
  0 < iterations -> 0 < top_n ->
  design_rbs_candidates lm cfg oracle global_draw pre_seq post_seq target_expression min_length
    max_length iterations top_n random_seed = Ok d ->
  Diagnostics.accept_window (diagnostics d) = Z.max 4 (Z.min (DESIGN_ACCEPT_WINDOW cfg) iterations).
Proof.
  intros Hi Ht H. unfold design_rbs_candidates in H.
  rewrite (proj2 (Z.leb_gt _ _) Hi), (proj2 (Z.leb_gt _ _) Ht) in H. cbn [orb] in H. cbv zeta in H.
  inv_step; first [discriminate | reflexivity].
Qed.

Lemma restart_history lm cfg pre_seq post_seq oracle target_log min_length max_length sd_cores
    seed_pool i st st' :
  restart_from_pool lm cfg pre_seq post_seq oracle target_log min_length max_length sd_cores
    seed_pool i st = Ok st' ->
  accept_history st' = accept_history st.
Proof. intros H. unfold restart_from_pool in H. inv_step; reflexivity. Qed.

Lemma restart_temperature lm cfg pre_seq post_seq oracle target_log min_length max_length sd_cores
    seed_pool i st st' :
  (DESIGN_TEMPERATURE_MIN cfg <= DESIGN_TEMPERATURE_MAX cfg)%Q ->
  restart_from_pool lm cfg pre_seq post_seq oracle target_log min_length max_length sd_cores
    seed_pool i st = Ok st' ->
  accept_history st' = accept_history st /\
  (DESIGN_TEMPERATURE_MIN cfg <= temperature st' <= DESIGN_TEMPERATURE_MAX cfg)%Q.
Proof.
  intros Hm H. unfold restart_from_pool in H. inv_step.
  all: split; [reflexivity|].
  all: split; [apply Q.le_max_l | apply Q.max_lub; [exact Hm | apply Q.le_min_l]].
Qed.

Section WindowFacts.
Variable lm : Libm.
Variable cfg : Config.
Variables pre_seq post_seq : string.
Variable oracle : string -> Z -> option OstirRow.t.
Variable target_log : Q.
Variables min_length max_length : Z.
Variable sd_cores seed_pool : list string.
Variables accept_window restart_patience max_iter : Z.

Local Abbreviation outer := (outer_loop lm cfg pre_seq post_seq oracle target_log min_length max_length
                           sd_cores seed_pool accept_window restart_patience max_iter).
Local Abbreviation inner := (inner_loop lm cfg pre_seq post_seq oracle target_log min_length max_length
                           sd_cores accept_window restart_patience max_iter).

Local Abbreviation temp_in_range := (temp_in_range cfg).

Lemma outer_history_bound fuel st st' :
  0 <= accept_window -> Z.of_nat (List.length (accept_history st)) <= accept_window ->
  outer fuel st = Ok st' -> Z.of_nat (List.length (accept_history st')) <= accept_window.
Proof.
  intros HW H0 H.
  refine (outer_preserve lm cfg pre_seq post_seq oracle target_log min_length max_length sd_cores
            seed_pool accept_window restart_patience max_iter
            (fun s => Z.of_nat (List.length (accept_history s)) <= accept_window)
            _ _ _ fuel st st' H0 H); cbv beta.
  - intros s s' Hs E. destruct (step_window _ _ _ _ _ _ _ _ _ _ _ _ _ E) as [[acc ->] _].
    unfold push_history. cbv zeta.
    assert (Hl : List.length (app (accept_history s) [acc]) = S (List.length (accept_history s)))
      by (rewrite length_app; simpl; lia).
    destruct (Z.ltb_spec accept_window (Z.of_nat (List.length (app (accept_history s) [acc])))).
    + destruct (app (accept_history s) [acc]) as [|x l]; [discriminate|].
      cbn [tl]. cbn [List.length] in Hl. lia.
    + lia.
  - intros i s s' Hs E. now rewrite (restart_history _ _ _ _ _ _ _ _ _ _ _ _ _ E).
  - intros i s Hs. exact Hs.
Qed.

Lemma outer_temperature_range fuel st st' :
  (0 <= DESIGN_TEMPERATURE_MIN cfg)%Q ->
  (DESIGN_TEMPERATURE_MIN cfg <= DESIGN_TEMPERATURE_MAX cfg)%Q ->
  outer fuel st = Ok st' -> st' = st \/ temp_in_range st'.
Proof.
  intros H0 H1. revert st. induction fuel as [|fuel IH]; intros st H; cbn [outer_loop] in H.
  - injection H as <-. now left.
  - destruct (iteration st <? max_iter); [|injection H as <-; now left].
    apply bindr_Ok in H as (st1 & E1 & H).
    apply bindr_Ok in H as (st2 & E2 & H).
    assert (R2 : temp_in_range st2).
    { refine (inner_preserve lm cfg pre_seq post_seq oracle target_log min_length max_length
                sd_cores accept_window restart_patience max_iter temp_in_range _ _ _ _
                (proj2 (restart_temperature _ _ _ _ _ _ _ _ _ _ _ _ _ H1 E1)) E2).
      intros s s' Hs E. unfold temp_in_range.
      rewrite (proj2 (step_window _ _ _ _ _ _ _ _ _ _ _ _ _ E)). now apply adapt_range. }
    destruct (IH _ H) as [->|R]; now right.
Qed.
End WindowFacts.

(** C6 (amended): the window of a run is max(4, min(configured window,
    iterations)); each step pushes one outcome into the window (dropping the
    oldest beyond the window) and adapts the temperature: unchanged unless
    the window is full, then halved (floored at the minimum) above ratio
    0.5, doubled (capped at the maximum) below 0.05, unchanged otherwise;
    the window never exceeds its size.  When 0 <= temperature_min <=
    temperature_max, a restart sets the temperature within the bounds, a
    step keeps it there, and the outer loop either does nothing or ends
    within the bounds. *)
Theorem temperature_window lm cfg pre_seq post_seq oracle target_log min_length max_length sd_cores
    seed_pool accept_window restart_patience max_iter :
  (forall global_draw target_expression iterations top_n random_seed d,
     0 < iterations -> 0 < top_n ->
     design_rbs_candidates lm cfg oracle global_draw pre_seq post_seq target_expression min_length
       max_length iterations top_n random_seed = Ok d ->
     Diagnostics.accept_window (diagnostics d) = Z.max 4 (Z.min (DESIGN_ACCEPT_WINDOW cfg) iterations)) /\
  (forall st st',
     search_step lm cfg pre_seq post_seq oracle target_log min_length max_length sd_cores
       accept_window max_iter st = Ok st' ->
     (exists acc, accept_history st' = push_history accept_window (accept_history st) acc) /\
     temperature st' = adapt_temperature cfg accept_window (accept_history st') (temperature st)) /\
  (forall h t, Z.of_nat (List.length h) <> accept_window -> adapt_temperature cfg accept_window h t = t) /\
  (forall h t, Z.of_nat (List.length h) = accept_window -> (1 # 2 < accept_ratio h)%Q ->
     adapt_temperature cfg accept_window h t = Qmax (DESIGN_TEMPERATURE_MIN cfg) (t * (1 # 2))) /\
  (forall h t, Z.of_nat (List.length h) = accept_window -> (accept_ratio h < 5 # 100)%Q ->
     adapt_temperature cfg accept_window h t = Qmin (DESIGN_TEMPERATURE_MAX cfg) (t * 2)) /\
  (forall h t, Z.of_nat (List.length h) = accept_window ->
     (5 # 100 <= accept_ratio h <= 1 # 2)%Q -> adapt_temperature cfg accept_window h t = t) /\
  (forall fuel st st', 0 <= accept_window ->
     Z.of_nat (List.length (accept_history st)) <= accept_window ->
     outer_loop lm cfg pre_seq post_seq oracle target_log min_length max_length sd_cores seed_pool
       accept_window restart_patience max_iter fuel st = Ok st' ->
     Z.of_nat (List.length (accept_history st')) <= accept_window) /\
  (forall i st st',
     (0 <= DESIGN_TEMPERATURE_MIN cfg)%Q ->
     (DESIGN_TEMPERATURE_MIN cfg <= DESIGN_TEMPERATURE_MAX cfg)%Q ->
     restart_from_pool lm cfg pre_seq post_seq oracle target_log min_length max_length sd_cores
       seed_pool i st = Ok st' ->
     (DESIGN_TEMPERATURE_MIN cfg <= temperature st' <= DESIGN_TEMPERATURE_MAX cfg)%Q) /\
  (forall st st',
     (0 <= DESIGN_TEMPERATURE_MIN cfg)%Q ->
     (DESIGN_TEMPERATURE_MIN cfg <= DESIGN_TEMPERATURE_MAX cfg)%Q ->
     (DESIGN_TEMPERATURE_MIN cfg <= temperature st <= DESIGN_TEMPERATURE_MAX cfg)%Q ->
     search_step lm cfg pre_seq post_seq oracle target_log min_length max_length sd_cores
       accept_window max_iter st = Ok st' ->
     (DESIGN_TEMPERATURE_MIN cfg <= temperature st' <= DESIGN_TEMPERATURE_MAX cfg)%Q) /\
  (forall fuel st st',
     (0 <= DESIGN_TEMPERATURE_MIN cfg)%Q ->
     (DESIGN_TEMPERATURE_MIN cfg <= DESIGN_TEMPERATURE_MAX cfg)%Q ->
     outer_loop lm cfg pre_seq post_seq oracle target_log min_length max_length sd_cores seed_pool
       accept_window restart_patience max_iter fuel st = Ok st' ->
     st' = st \/ (DESIGN_TEMPERATURE_MIN cfg <= temperature st' <= DESIGN_TEMPERATURE_MAX cfg)%Q).
Proof.
  assert (Hgt : forall x y : Q, Qltb x y = true <-> (x < y)%Q) by exact Qltb_iff.
  assert (Hnlt : forall x y : Q, (y <= x)%Q -> Qltb x y = false).
  { intros x y H. apply not_true_iff_false. rewrite Qltb_iff. now apply Qle_not_lt. }
  split; [|split; [|split; [|split; [|split; [|split; [|split; [|split; [|split]]]]]]]].
  - intros. eapply design_window; eassumption.
  - intros st st'. apply step_window.
  - intros h t Hl. unfold adapt_temperature. apply Z.eqb_neq in Hl. now rewrite Hl.
  - intros h t Hl Hr. unfold adapt_temperature. rewrite Hl, Z.eqb_refl.
    now rewrite (proj2 (Qltb_iff _ _) Hr).
  - intros h t Hl Hr. unfold adapt_temperature. rewrite Hl, Z.eqb_refl.
    rewrite (Hnlt (1 # 2) (accept_ratio h)) by lra.
    now rewrite (proj2 (Qltb_iff _ _) Hr).
  - intros h t Hl [Ha Hb]. unfold adapt_temperature. rewrite Hl, Z.eqb_refl.
    now rewrite !Hnlt.
  - intros. eapply outer_history_bound; eassumption.
  - intros i st st' _ H1 E. exact (proj2 (restart_temperature _ _ _ _ _ _ _ _ _ _ _ _ _ H1 E)).
  - intros st st' H0 H1 Hr E. rewrite (proj2 (step_window _ _ _ _ _ _ _ _ _ _ _ _ _ E)).
    now apply adapt_range.
  - intros fuel st st' H0 H1. now apply outer_temperature_range.
Qed.

(** C6 counterexample: with the configured window 20 and 10 iterations the
    run's window is 10, and a step with 10 acceptances in the history already
    halves the temperature; with temperature_min 2 above temperature_max 1 a
    restart sets the temperature to 2, outside [2, 1]; with the negative
    range [-4, -1] a restart sets -1 and a step with a full, accepting window
    halves it to -1/2, above the maximum. *)
Lemma temperature_window_counterexample :
  DESIGN_ACCEPT_WINDOW default_config = 20 /\
  (exists d,
     design_rbs_candidates libm_coarse default_config oracle_any_valid 1 "" "ATG" 1 12 12 10 1
       (Some "42") = Ok d /\ Diagnostics.accept_window (diagnostics d) = 10) /\
  (exists st',
     search_step libm_coarse default_config "" "ATG" oracle_any_valid (log10 libm_coarse 1) 12 12
       [DESIGN_SD_CORE] 10 10 c6_state = Ok st' /\
     List.length (accept_history c6_state) = 9%nat /\ temperature c6_state = 1%Q /\
     List.length (accept_history st') = 10%nat /\ temperature st' = (1 # 2)%Q) /\
  (exists st',
     restart_from_pool libm_coarse (temperature_config 1 2 1) "" "ATG" oracle_any_valid 0 12 12
       [DESIGN_SD_CORE] ["AGGAGGAAAAAT"] 1 c6_state = Ok st' /\
     temperature st' = 2%Q /\ ~ (temperature st' <= 1)%Q) /\
  (exists st1 st2,
     restart_from_pool libm_coarse (temperature_config (-1) (-4) (-1)) "" "ATG" oracle_any_valid 0
       12 12 [DESIGN_SD_CORE] ["AGGAGGAAAAAT"] 1 c6_state = Ok st1 /\
     temperature st1 = (-1)%Q /\
     search_step libm_coarse (temperature_config (-1) (-4) (-1)) "" "ATG" oracle_any_valid 0 12 12
       [DESIGN_SD_CORE] 10 10 st1 = Ok st2 /\
     List.length (accept_history st2) = 10%nat /\
     temperature st2 = (-1 # 2)%Q /\ ~ (temperature st2 <= -1)%Q).
Proof.
  split; [reflexivity|]. split; [|split; [|split]].
  - eexists. split; [vm_compute; reflexivity | vm_compute; reflexivity].
  - eexists. split; [vm_compute; reflexivity|]. vm_compute. repeat split.
  - eexists. split; [vm_compute; reflexivity|]. split; [vm_compute; reflexivity|].
    intros H. apply Qle_bool_iff in H. vm_compute in H. discriminate.
  - do 2 eexists. split; [vm_compute; reflexivity|]. split; [vm_compute; reflexivity|].
    split; [vm_compute; reflexivity|]. split; [vm_compute; reflexivity|].
    split; [vm_compute; reflexivity|].
    intros H. apply Qle_bool_iff in H. vm_compute in H. discriminate.
Qed.


Lemma best_update_trans st1 st2 st3 :
  best_update st1 st2 -> best_update st2 st3 -> best_update st1 st3.
Proof.
  unfold best_update. intros [[E1 F1]|(b & E1 & R1 & F1 & H1)] [[E2 F2]|(b' & E2 & R2 & F2 & H2)].
  - left. split; congruence.
  - right. exists b'. rewrite <- E1, <- F1. auto.
  - right. exists b. rewrite E2, F2. auto.
  - right. exists b'. split; [assumption|]. split; [assumption|]. split; [assumption|].
    destruct H2 as [H2|H2]; [congruence|]. rewrite F1 in H2.
    destruct H1 as [H1|H1]; [now left|right].
    destruct (error b') as [x|], (error b) as [y|], (best_error st1) as [z|]; simpl in *; try discriminate; auto.
    apply Qltb_iff. apply Qltb_iff in H1, H2. eapply Qlt_trans; eassumption.
Qed.








(** C1 witness: a run with seed "42" and an oracle that always answers. *)
Lemma design_output_ranked_witness :
  ltac:(let t := type of (design_output_ranked libm_coarse default_config oracle_any_valid 1 "" "ATG"
                            "" "ATG" true 1 12 12 5 1 "42" 1 c1_out) in
        match t with ?A -> ?B => exact (A /\ B) end).
Proof.
  split; [vm_compute; reflexivity|].
  apply (design_output_ranked libm_coarse default_config oracle_any_valid 1 "" "ATG" "" "ATG" true 1
           12 12 5 1 "42" 1 c1_out).
  vm_compute; reflexivity.
Defined.

(** C2 witness: a zero iteration budget. *)
Lemma design_early_exit_witness :
  ltac:(let t := type of (design_early_exit libm_coarse default_config oracle_any_valid 1 "" "ATG" 1
                            12 12 0 5 (Some "42")) in
        match t with ?A -> ?B => exact (A /\ B) end).
Proof.
  split; [left; lia|].
  apply (design_early_exit libm_coarse default_config oracle_any_valid 1 "" "ATG" 1 12 12 0 5
           (Some "42")).
  left; lia.
Defined.

(** C3 witness: a run with seed "42". *)
Lemma design_cache_once_witness :
  ltac:(let t := type of (design_cache_once libm_coarse default_config oracle_any_valid 1 "" "ATG" 1
                            12 12 5 1 (Some "42") c3_design) in
        match t with ?A -> ?B => exact (A /\ B) end).
Proof.
  split; [vm_compute; reflexivity|].
  apply (design_cache_once libm_coarse default_config oracle_any_valid 1 "" "ATG" 1 12 12 5 1
           (Some "42") c3_design).
  vm_compute; reflexivity.
Defined.

(** C10 witness: min_length 2 and max_length 3. *)
Lemma design_length_clamped_witness :
  ltac:(let t := type of (design_length_clamped libm_coarse default_config oracle_any_valid 1 "" "ATG"
                            1 2 3 5 1 (Some "42")) in
        match t with ?A -> ?B => exact (A /\ B) end).
Proof.
  split; [vm_compute; reflexivity|].
  apply (design_length_clamped libm_coarse default_config oracle_any_valid 1 "" "ATG" 1 2 3 5 1
           (Some "42")).
  vm_compute; reflexivity.
Defined.

(** ** Strings as lists *)

Lemma string_of_list_app (a b : list ascii) :
  string_of_list_ascii (a ++ b) = (string_of_list_ascii a ++ string_of_list_ascii b)%string.
Proof. induction a as [|c a IH]; simpl; [reflexivity | now rewrite IH]. Qed.

Lemma list_of_string_app (a b : string) :
  list_ascii_of_string (a ++ b) = app (list_ascii_of_string a) (list_ascii_of_string b).
Proof. induction a as [|c a IH]; simpl; [reflexivity | now rewrite IH]. Qed.

Lemma substring_as_list (k m : nat) (s : string) :
  substring k m s = string_of_list_ascii (firstn m (skipn k (list_ascii_of_string s))).
Proof.
  revert k m. induction s as [|c s IH]; intros [|k] [|m]; simpl; try reflexivity.
  - f_equal. rewrite IH. reflexivity.
  - rewrite IH. reflexivity.
  - rewrite IH. reflexivity.
Qed.

Lemma len_as_list (s : string) : Seq.len s = Z.of_nat (List.length (list_ascii_of_string s)).
Proof. unfold Seq.len. now rewrite str_length_as_list. Qed.

Lemma len_of_list (l : list ascii) : Seq.len (string_of_list_ascii l) = Z.of_nat (List.length l).
Proof. unfold Seq.len. now rewrite str_length_of_list. Qed.

(** ** Character classes *)

Lemma upper_class_char (c : ascii) :
  in_class IUPAC_CHARS c = true -> in_class IUPAC_UPPER (Seq.upper_char c) = true.
Proof. destruct c as [[] [] [] [] [] [] [] []]; vm_compute; intros; first [reflexivity | discriminate]. Qed.

Lemma upper_class_fixed (c : ascii) :
  in_class IUPAC_UPPER c = true -> in_class IUPAC_CHARS c = true /\ Seq.upper_char c = c.
Proof. destruct c as [[] [] [] [] [] [] [] []]; vm_compute; intros; first [split; reflexivity | discriminate]. Qed.

Lemma dna_class_char (c : ascii) :
  in_class IUPAC_UPPER c = true ->
  in_class "ACGTNRYSWKMBDHV" (if Ascii.eqb c "U"%char then "T"%char else c) = true.
Proof. destruct c as [[] [] [] [] [] [] [] []]; vm_compute; intros; first [reflexivity | discriminate]. Qed.

Lemma dna_class_fixed (c : ascii) :
  in_class "ACGTNRYSWKMBDHV" c = true ->
  in_class IUPAC_UPPER c = true /\ (if Ascii.eqb c "U"%char then "T"%char else c) = c.
Proof. destruct c as [[] [] [] [] [] [] [] []]; vm_compute; intros; first [split; reflexivity | discriminate]. Qed.

Lemma upper_char_idem (c : ascii) : Seq.upper_char (Seq.upper_char c) = Seq.upper_char c.
Proof. destruct c as [[] [] [] [] [] [] [] []]; vm_compute; reflexivity. Qed.

Lemma upper_idem (s : string) : Seq.upper (Seq.upper s) = Seq.upper s.
Proof.
  unfold Seq.upper. rewrite list_ascii_of_string_of_list_ascii, map_map.
  f_equal. apply map_ext, upper_char_idem.
Qed.

Lemma upper_len (s : string) : Seq.len (Seq.upper s) = Seq.len s.
Proof. unfold Seq.upper. rewrite len_of_list, len_as_list, length_map. reflexivity. Qed.

Lemma normalize_chars (raw : string) :
  forallb (in_class IUPAC_UPPER) (list_ascii_of_string (normalize_sequence raw)) = true.
Proof.
  unfold normalize_sequence, Seq.upper. rewrite !list_ascii_of_string_of_list_ascii.
  apply forallb_forall. intros c Hc. apply in_map_iff in Hc as (c' & <- & Hc').
  apply filter_In in Hc' as [_ Hc']. now apply upper_class_char.
Qed.

Lemma filter_map_fixed (l : list ascii) :
  forallb (in_class IUPAC_UPPER) l = true ->
  filter (in_class IUPAC_CHARS) l = l /\ map Seq.upper_char l = l.
Proof.
  induction l as [|c l IH]; simpl; [auto|].
  intros H. apply andb_true_iff in H as [Hc Hl].
  destruct (upper_class_fixed c Hc) as [-> ->]. destruct (IH Hl) as [-> ->]. auto.
Qed.

Lemma normalize_fixed (s : string) :
  forallb (in_class IUPAC_UPPER) (list_ascii_of_string s) = true -> normalize_sequence s = s.
Proof.
  intros H. unfold normalize_sequence, Seq.upper.
  rewrite list_ascii_of_string_of_list_ascii.
  destruct (filter_map_fixed _ H) as [-> ->]. apply string_of_list_ascii_of_string.
Qed.

(** ** [py_slice] on in-range bounds *)

Lemma py_slice_in_range (s : string) (a b : Z) :
  0 <= a <= b -> b <= Seq.len s ->
  py_slice s a b = string_of_list_ascii
                     (firstn (Z.to_nat (b - a)) (skipn (Z.to_nat a) (list_ascii_of_string s))).
Proof.
  intros Hab Hb. unfold py_slice, py_index.
  replace (a <? 0) with false by (symmetry; apply Z.ltb_ge; lia).
  replace (b <? 0) with false by (symmetry; apply Z.ltb_ge; lia).
  rewrite (Z.min_l a) by lia. rewrite (Z.min_l b) by lia.
  apply substring_as_list.
Qed.

Lemma firstn_skipn_length {A} (l : list A) (k m : nat) :
  List.length (firstn m (skipn k l)) = Nat.min m (List.length l - k).
Proof. rewrite length_firstn, length_skipn. reflexivity. Qed.

(** ** Input normalisation and truncation *)

(** [normalize_sequence] keeps only upper-case IUPAC letters, and a second
    pass changes nothing *)
Theorem normalize_sequence_idempotent (raw : string) :
  forallb (in_class IUPAC_UPPER) (list_ascii_of_string (normalize_sequence raw)) = true /\
  normalize_sequence (normalize_sequence raw) = normalize_sequence raw.
Proof. split; [apply normalize_chars | apply normalize_fixed, normalize_chars]. Qed.

(** [_looks_like_sequence_text] holds exactly when the normalized text has
    at least [max(1, min_length)] letters: the full-match test only rejects
    the empty string *)
Theorem looks_like_sequence_text_length (value : string) (min_length : Z) :
  looks_like_sequence_text value min_length = (Z.max 1 min_length <=? Seq.len (normalize_sequence value)).
Proof.
  unfold looks_like_sequence_text, fullmatch_iupac_plus. rewrite normalize_chars, andb_true_r.
  destruct (normalize_sequence value) as [|c s] eqn:E.
  - unfold Seq.len; simpl. destruct (0 <? min_length); symmetry; apply Z.leb_gt; lia.
  - simpl negb. pose proof (len_nonneg (String c s)).
    assert (Hp : 0 < Seq.len (String c s)) by (unfold Seq.len; simpl; lia).
    destruct (Seq.len (String c s) <? min_length) eqn:H1.
    + apply Z.ltb_lt in H1. symmetry. apply Z.leb_gt. lia.
    + apply Z.ltb_ge in H1. symmetry. apply Z.leb_le. lia.
Qed.

(** [_format_sequence(raw)] (DNA mode) has no [U] left and is a fixed point
    of [_format_sequence] *)
Theorem format_sequence_dna (raw : string) :
  let f := format_sequence raw false in
  forallb (in_class "ACGTNRYSWKMBDHV") (list_ascii_of_string f) = true /\
  format_sequence f false = f.
Proof.
  cbv zeta. unfold format_sequence. cbn [negb].
  pose proof (normalize_chars raw) as Hn.
  assert (Hd : forallb (in_class "ACGTNRYSWKMBDHV")
                 (list_ascii_of_string (replace_U_T (normalize_sequence raw))) = true).
  { unfold replace_U_T. rewrite list_ascii_of_string_of_list_ascii.
    apply forallb_forall. intros c Hc. apply in_map_iff in Hc as (c' & <- & Hc').
    apply dna_class_char. exact (proj1 (forallb_forall _ _) Hn c' Hc'). }
  split; [exact Hd|].
  assert (Hu : forallb (in_class IUPAC_UPPER)
                 (list_ascii_of_string (replace_U_T (normalize_sequence raw))) = true).
  { apply forallb_forall. intros c Hc. apply dna_class_fixed.
    exact (proj1 (forallb_forall _ _) Hd c Hc). }
  rewrite (normalize_fixed _ Hu).
  set (s := replace_U_T (normalize_sequence raw)) in *.
  unfold replace_U_T at 1. rewrite <- (string_of_list_ascii_of_string s) at 2. f_equal.
  rewrite <- map_id. apply map_ext_in. intros c Hc.
  apply dna_class_fixed. exact (proj1 (forallb_forall _ _) Hd c Hc).
Qed.

Lemma str_append_nil_r (s : string) : (s ++ "")%string = s.
Proof. induction s as [|c s IH]; simpl; [reflexivity | now rewrite IH]. Qed.

Lemma slice_suffix (s : string) (M : Z) :
  0 < M < Seq.len s ->
  (exists x, s = (x ++ py_slice s (- M) (Seq.len s))%string) /\ Seq.len (py_slice s (- M) (Seq.len s)) = M.
Proof.
  intros HM. unfold py_slice, py_index.
  replace (- M <? 0) with true by (symmetry; apply Z.ltb_lt; lia).
  replace (Seq.len s <? 0) with false by (symmetry; apply Z.ltb_ge; lia).
  rewrite Z.max_r by lia. rewrite Z.min_id. rewrite substring_as_list.
  rewrite len_as_list in *. set (L := list_ascii_of_string s) in *.
  rewrite firstn_all2 by (rewrite length_skipn; lia).
  split.
  - exists (string_of_list_ascii (firstn (Z.to_nat (- M + Z.of_nat (List.length L))) L)).
    rewrite <- string_of_list_app, firstn_skipn. subst L. now rewrite string_of_list_ascii_of_string.
  - rewrite len_of_list, length_skipn. lia.
Qed.

Lemma slice_prefix (s : string) (M : Z) :
  0 <= M < Seq.len s ->
  (exists y, s = (py_slice s 0 M ++ y)%string) /\ Seq.len (py_slice s 0 M) = M.
Proof.
  intros HM. rewrite py_slice_in_range by lia. rewrite Z.sub_0_r. simpl skipn.
  rewrite len_as_list in *. set (L := list_ascii_of_string s) in *.
  split.
  - exists (string_of_list_ascii (skipn (Z.to_nat M) L)).
    rewrite <- string_of_list_app, firstn_skipn. subst L. now rewrite string_of_list_ascii_of_string.
  - rewrite ?list_ascii_of_string_of_list_ascii, ?len_of_list, length_firstn. lia.
Qed.

(** [_truncate_design_sequences] with positive maxima keeps the last
    [min(len, pre_max)] bases of the pre-sequence and the first
    [min(len, cds_max)] bases of the CDS, records these lengths and the
    truncation flags, and issues one warning per truncated input *)
Theorem truncate_design_sequences_spec (pre_max cds_max : Z) (pre_seq post_seq : string) :
  0 < pre_max -> 0 < cds_max ->
  match truncate_design_sequences pre_max cds_max pre_seq post_seq with
  | (p, q, w, (ip, ic)) =>
      (exists x, pre_seq = (x ++ p)%string) /\ Seq.len p = Z.min (Seq.len pre_seq) pre_max /\
      (exists y, post_seq = (q ++ y)%string) /\ Seq.len q = Z.min (Seq.len post_seq) cds_max /\
      TruncInfo.used_length ip = Seq.len p /\ TruncInfo.used_length ic = Seq.len q /\
      TruncInfo.truncated ip = (pre_max <? Seq.len pre_seq) /\
      TruncInfo.truncated ic = (cds_max <? Seq.len post_seq) /\
      List.length w = ((if TruncInfo.truncated ip then 1 else 0) +
                       (if TruncInfo.truncated ic then 1 else 0))%nat
  end.
Proof.
  intros Hp Hc. unfold truncate_design_sequences. cbv zeta.
  destruct (pre_max <? Seq.len pre_seq) eqn:E1; destruct (cds_max <? Seq.len post_seq) eqn:E2;
    cbn [TruncInfo.used_length TruncInfo.truncated app List.length Nat.add];
    rewrite ?Z.ltb_lt, ?Z.ltb_ge in *.
  all: try (destruct (slice_suffix pre_seq pre_max) as [Hx1 Hx2]; [lia|]).
  all: try (destruct (slice_prefix post_seq cds_max) as [Hy1 Hy2]; [lia|]).
  all: repeat split; rewrite ?Hx2, ?Hy2; try lia; try assumption; try reflexivity.
  all: first [ exists ""; reflexivity | exists ""; now rewrite str_append_nil_r | idtac ].
Qed.

(** with [RBS_DESIGN_PRESEQ_MAX_BP = 0] a non-empty pre-sequence is flagged
    as truncated with a used length of 0, yet kept whole ([pre_seq[-0:]]) *)
Theorem truncate_zero_max_keeps_all (cds_max : Z) (pre_seq post_seq : string) :
  0 < Seq.len pre_seq ->
  match truncate_design_sequences 0 cds_max pre_seq post_seq with
  | (p, _, _, (ip, _)) =>
      p = pre_seq /\ TruncInfo.truncated ip = true /\ TruncInfo.used_length ip = 0
  end.
Proof.
  intros Hl. unfold truncate_design_sequences. cbv zeta.
  replace (0 <? Seq.len pre_seq) with true by (symmetry; apply Z.ltb_lt; lia).
  destruct (cds_max <? Seq.len post_seq); cbn [TruncInfo.used_length TruncInfo.truncated].
  all: split; [|split; [reflexivity | apply Z.min_r; lia]].
  all: unfold py_slice, py_index; cbn [Z.opp Z.ltb Z.compare].
  all: replace (Seq.len pre_seq <? 0) with false by (symmetry; apply Z.ltb_ge; lia).
  all: rewrite Z.min_l, Z.min_id by lia; rewrite Z.sub_0_r, substring_as_list; simpl skipn.
  all: rewrite len_as_list, Nat2Z.id, firstn_all; apply string_of_list_ascii_of_string.
Qed.

(** a context returned by [build_sequence_context] is the 1-based window
    [[start_idx, end_idx]] of the sequence, inside its bounds *)
Theorem build_sequence_context_sound (sequence : string) (start : option Z) (flank_bp : Z)
    (start_idx end_idx : Z) (context : string) :
  build_sequence_context sequence start flank_bp = Some (start_idx, end_idx, context) ->
  1 <= start_idx <= end_idx /\ end_idx <= Seq.len sequence /\
  context = substring (Z.to_nat (start_idx - 1)) (Z.to_nat (end_idx - start_idx + 1)) sequence /\
  Seq.len context = end_idx - start_idx + 1.
Proof.
  unfold build_sequence_context. destruct start as [st|]; [|discriminate].
  destruct (_ || _); [discriminate|]. cbv zeta.
  destruct (_ || _ || _) eqn:E; [discriminate|].
  rewrite !orb_false_iff, !Z.ltb_ge in E. destruct E as [[E1 E2] E3].
  intros H. injection H as <- <- <-.
  assert (Ha : 1 <= Z.max 1 (st - flank_bp)) by lia.
  split; [lia|]. split; [lia|].
  rewrite py_slice_in_range by lia. rewrite substring_as_list.
  replace (Z.min (Seq.len sequence) (st + flank_bp + 2) - (Z.max 1 (st - flank_bp) - 1))
    with (Z.min (Seq.len sequence) (st + flank_bp + 2) - Z.max 1 (st - flank_bp) + 1) by lia.
  split; [reflexivity|].
  rewrite len_of_list, firstn_skipn_length. rewrite len_as_list in *. lia.
Qed.

(** [build_sequence_context] returns a context for every start position
    inside the sequence (with a non-negative flank), and the window covers
    the start codon as far as the sequence goes *)
Theorem build_sequence_context_covers (sequence : string) (start flank_bp : Z) :
  0 <= flank_bp -> 1 <= start <= Seq.len sequence ->
  exists start_idx end_idx context,
    build_sequence_context sequence (Some start) flank_bp = Some (start_idx, end_idx, context) /\
    start_idx <= start /\ Z.min (Seq.len sequence) (start + 2) <= end_idx.
Proof.
  intros Hf Hs. unfold build_sequence_context.
  replace (start <=? 0) with false by (symmetry; apply Z.leb_gt; lia).
  replace (String.eqb sequence "") with false
    by (symmetry; apply String.eqb_neq; apply len_nonempty; lia).
  cbv zeta. cbn [orb].
  replace (_ || _ || _) with false by (symmetry; rewrite !orb_false_iff, !Z.ltb_ge; lia).
  do 3 eexists. split; [reflexivity|]. lia.
Qed.

(** ** [infer_spacing_from_sequence] *)

Lemma string_list_eq (a b : string) : list_ascii_of_string a = list_ascii_of_string b -> a = b.
Proof.
  intros H. rewrite <- (string_of_list_ascii_of_string a), <- (string_of_list_ascii_of_string b).
  now rewrite H.
Qed.

Lemma substring_split (s core : string) (idx : nat) :
  (idx <= String.length s)%nat ->
  (substring idx (String.length core) s = core <->
   exists l r, s = (l ++ core ++ r)%string /\ String.length l = idx).
Proof.
  intros Hi. rewrite substring_as_list. rewrite str_length_as_list in *.
  set (L := list_ascii_of_string s) in *. set (C := list_ascii_of_string core).
  split.
  - intros H. apply (f_equal list_ascii_of_string) in H.
    rewrite list_ascii_of_string_of_list_ascii in H. fold C in H.
    set (k := List.length C) in *.
    exists (string_of_list_ascii (firstn idx L)),
           (string_of_list_ascii (skipn k (skipn idx L))).
    split.
    + apply string_list_eq. rewrite !list_of_string_app, !list_ascii_of_string_of_list_ascii.
      fold L C. rewrite <- H. rewrite firstn_skipn, firstn_skipn. reflexivity.
    + rewrite str_length_of_list, length_firstn. lia.
  - intros (l & r & Hs & Hl). apply string_list_eq. rewrite list_ascii_of_string_of_list_ascii.
    subst L. rewrite Hs, !list_of_string_app. rewrite str_length_as_list in Hl.
    rewrite skipn_app, Hl, Nat.sub_diag, <- Hl, skipn_all. simpl. fold C.
    rewrite firstn_app, Nat.sub_diag, firstn_all. simpl. apply app_nil_r.
Qed.

Lemma infer_at_unfold smin smax core s idx :
  infer_spacing_at smin smax core s idx =
  match (if String.eqb (substring idx (String.length core) s) core then
           let spacing := Seq.len s - (Z.of_nat idx + Seq.len core) in
           if (smin <=? spacing) && (spacing <=? smax) then Some spacing else None
         else None) with
  | Some sp => Some sp
  | None => match idx with O => None | S i => infer_spacing_at smin smax core s i end
  end.
Proof. destruct idx; reflexivity. Qed.

Lemma infer_here_sound smin smax core s idx sp :
  (idx <= String.length s)%nat ->
  (if String.eqb (substring idx (String.length core) s) core then
     let spacing := Seq.len s - (Z.of_nat idx + Seq.len core) in
     if (smin <=? spacing) && (spacing <=? smax) then Some spacing else None
   else None) = Some sp ->
  exists l r, s = (l ++ core ++ r)%string /\ sp = Seq.len r /\ smin <= sp <= smax.
Proof.
  intros Hi H. destruct (String.eqb _ core) eqn:Eq; [|discriminate].
  apply String.eqb_eq, substring_split in Eq as (l & r & Hs & Hl); [|exact Hi].
  cbv zeta in H. destruct (_ && _) eqn:Eb; [|discriminate]. injection H as <-.
  apply andb_true_iff in Eb as [Eb1 Eb2]. apply Z.leb_le in Eb1, Eb2.
  exists l, r. split; [exact Hs|].
  assert (Hn : Seq.len s = Seq.len l + Seq.len core + Seq.len r) by (rewrite Hs, !len_append; lia).
  unfold Seq.len in Hn, Eb1, Eb2 |- *. rewrite Hl in Hn. lia.
Qed.

Lemma infer_at_sound smin smax core s idx sp :
  (idx <= String.length s)%nat ->
  infer_spacing_at smin smax core s idx = Some sp ->
  exists l r, s = (l ++ core ++ r)%string /\ sp = Seq.len r /\ smin <= sp <= smax.
Proof.
  induction idx as [|i IH]; intros Hi H; rewrite infer_at_unfold in H.
  all: destruct (if String.eqb _ core then _ else None) as [sp'|] eqn:E.
  all: try (injection H as <-; exact (infer_here_sound _ _ _ _ _ _ Hi E)).
  - discriminate.
  - apply IH; [lia | exact H].
Qed.

Lemma infer_here_complete smin smax core s l r idx :
  s = (l ++ core ++ r)%string -> smin <= Seq.len r <= smax ->
  String.length l = idx -> (idx <= String.length s)%nat ->
  (if String.eqb (substring idx (String.length core) s) core then
     let spacing := Seq.len s - (Z.of_nat idx + Seq.len core) in
     if (smin <=? spacing) && (spacing <=? smax) then Some spacing else None
   else None) <> None.
Proof.
  intros Hs Hr Hl Hi.
  assert (Eq : String.eqb (substring idx (String.length core) s) core = true)
    by (apply String.eqb_eq, substring_split; [exact Hi | exists l, r; auto]).
  rewrite Eq. cbv zeta.
  assert (Hn : Seq.len s = Seq.len l + Seq.len core + Seq.len r) by (rewrite Hs, !len_append; lia).
  replace (Seq.len s - (Z.of_nat idx + Seq.len core)) with (Seq.len r)
    by (unfold Seq.len in Hn |- *; rewrite Hl in Hn; lia).
  replace ((smin <=? Seq.len r) && (Seq.len r <=? smax)) with true
    by (symmetry; apply andb_true_iff; split; apply Z.leb_le; lia).
  discriminate.
Qed.

Lemma infer_at_complete smin smax core s l r idx :
  s = (l ++ core ++ r)%string -> smin <= Seq.len r <= smax ->
  (String.length l <= idx)%nat -> (idx <= String.length s)%nat ->
  infer_spacing_at smin smax core s idx <> None.
Proof.
  intros Hs Hr. induction idx as [|i IH]; intros Hl Hi; rewrite infer_at_unfold.
  all: destruct (if String.eqb _ core then _ else None) as [sp'|] eqn:E; [discriminate|].
  - assert (He : String.length l = 0%nat) by lia.
    exfalso. exact (infer_here_complete _ _ _ _ _ _ _ Hs Hr He Hi E).
  - destruct (Nat.eq_dec (String.length l) (S i)) as [He|He].
    + exfalso. exact (infer_here_complete _ _ _ _ _ _ _ Hs Hr He Hi E).
    + apply IH; lia.
Qed.

Lemma infer_spacing_props (sd_cores : list string) (spacing_min spacing_max : Z) (sequence : string) :
  (forall sp, infer_spacing_from_sequence sd_cores spacing_min spacing_max sequence = Some sp ->
     exists core l r, In core sd_cores /\ sequence = (l ++ core ++ r)%string /\
       sp = Seq.len r /\ spacing_min <= sp <= spacing_max) /\
  ((exists core l r, In core sd_cores /\ sequence = (l ++ core ++ r)%string /\
       spacing_min <= Seq.len r <= spacing_max) ->
   infer_spacing_from_sequence sd_cores spacing_min spacing_max sequence <> None).
Proof.
  induction sd_cores as [|core cores IH]; simpl.
  { split; [discriminate | intros (c & _ & _ & [] & _)]. }
  destruct IH as [IHs IHc].
  assert (Hb : (Z.to_nat (Z.max 0 (Seq.len sequence - Seq.len core)) <= String.length sequence)%nat)
    by (unfold Seq.len; lia).
  split.
  - intros sp H. destruct (infer_spacing_at _ _ core sequence _) as [sp'|] eqn:E.
    + injection H as <-. apply infer_at_sound in E as (l & r & Hs & Hsp & Hr); [|exact Hb].
      exists core, l, r. auto.
    + apply IHs in H as (c & l & r & Hc & Hs & Hsp & Hr). exists c, l, r. auto.
  - intros (c & l & r & [<-|Hc] & Hs & Hr).
    + destruct (infer_spacing_at _ _ core sequence _) eqn:E; [discriminate|].
      assert (Hlen : Seq.len sequence = Seq.len l + Seq.len core + Seq.len r)
        by (rewrite Hs, !len_append; lia).
      assert (H1 : (String.length l <= Z.to_nat (Z.max 0 (Seq.len sequence - Seq.len core)))%nat)
        by (pose proof (len_nonneg r); unfold Seq.len in *; lia).
      exfalso. exact (infer_at_complete _ _ _ _ l r _ Hs Hr H1 Hb E).
    + destruct (infer_spacing_at _ _ core sequence _); [discriminate|].
      apply IHc. exists c, l, r. auto.
Qed.

(** [infer_spacing_from_sequence]: a result is the spacing after an
    occurrence of one of the cores, within the window; and some result is
    found whenever such an occurrence exists *)
Theorem infer_spacing_spec (sd_cores : list string) (spacing_min spacing_max : Z) (sequence : string) :
  (forall sp, infer_spacing_from_sequence sd_cores spacing_min spacing_max sequence = Some sp ->
     exists core l r, In core sd_cores /\ sequence = (l ++ core ++ r)%string /\
       sp = Seq.len r /\ spacing_min <= sp <= spacing_max) /\
  ((exists core l r, In core sd_cores /\ sequence = (l ++ core ++ r)%string /\
       spacing_min <= Seq.len r <= spacing_max) ->
   infer_spacing_from_sequence sd_cores spacing_min spacing_max sequence <> None).
Proof. exact (infer_spacing_props sd_cores spacing_min spacing_max sequence). Qed.

(** ** The OSTIR row selection and the full-sequence evaluation *)

Lemma find_first {A} (f : A -> bool) (l : list A) :
  match find f l with
  | Some x => exists l1 l2, l = app l1 (x :: l2) /\ f x = true /\ Forall (fun y => f y = false) l1
  | None => Forall (fun y => f y = false) l
  end.
Proof.
  induction l as [|a l IH]; simpl; [constructor|].
  destruct (f a) eqn:Ea.
  - exists [], l. auto.
  - destruct (find f l) as [x|].
    + destruct IH as (l1 & l2 & -> & Hx & Hl1). exists (a :: l1), l2. auto.
    + constructor; auto.
Qed.

Lemma position_is_iff e r :
  position_is e r = true <-> exists q, OstirRow.start_position r = Some q /\ (q == inject_Z e)%Q.
Proof.
  unfold position_is. destruct (OstirRow.start_position r) as [q|].
  - rewrite Qeq_bool_iff. split; [eauto | intros (q' & E & H); injection E as <-; exact H].
  - split; [discriminate | intros (q' & E & _); discriminate].
Qed.

Lemma Forall_bool_not {A} (f : A -> bool) (P : A -> Prop) (l : list A) :
  (forall y, f y = true <-> P y) -> Forall (fun y => f y = false) l -> Forall (fun y => ~ P y) l.
Proof.
  intros Hf. apply Forall_impl. intros y Hy HP. apply Hf in HP. congruence.
Qed.

(** [run_ostir_for_start_position] returns the first row at the expected
    start position (with the CDS's start codon when a CDS is given), and
    [None] only when no row qualifies *)
Theorem run_ostir_for_start_position_first (rows : list OstirRow.t) (expected_start : Z)
    (post_seq : string) :
  match run_ostir_for_start_position rows expected_start post_seq with
  | Some r => exists l1 l2, rows = app l1 (r :: l2) /\ row_ok expected_start post_seq r /\
                            Forall (fun y => ~ row_ok expected_start post_seq y) l1
  | None => Forall (fun y => ~ row_ok expected_start post_seq y) rows
  end.
Proof.
  unfold run_ostir_for_start_position. destruct rows as [|r0 rows0]; [constructor|].
  set (rows := r0 :: rows0).
  destruct (String.eqb post_seq "") eqn:Ep; cbn [negb].
  - apply String.eqb_eq in Ep. subst post_seq.
    assert (Hf : forall y, position_is expected_start y = true <-> row_ok expected_start "" y).
    { intros y. unfold row_ok. rewrite position_is_iff. split; [intros H; split; [exact H | congruence] | tauto]. }
    pose proof (find_first (position_is expected_start) rows) as H.
    destruct (find _ rows) as [x|].
    + destruct H as (l1 & l2 & E & Hx & Hl1). exists l1, l2.
      split; [exact E|]. split; [apply Hf, Hx | exact (Forall_bool_not _ _ _ Hf Hl1)].
    + exact (Forall_bool_not _ _ _ Hf H).
  - apply String.eqb_neq in Ep.
    set (f := fun r => position_is expected_start r &&
                       String.eqb (Seq.upper (OstirRow.start_codon r)) (Seq.upper (Seq.prefix post_seq 3))).
    assert (Hf : forall y, f y = true <-> row_ok expected_start post_seq y).
    { intros y. unfold f, row_ok. rewrite andb_true_iff, position_is_iff, String.eqb_eq. tauto. }
    pose proof (find_first f rows) as H.
    destruct (find f rows) as [x|].
    + destruct H as (l1 & l2 & E & Hx & Hl1). exists l1, l2.
      split; [exact E|]. split; [apply Hf, Hx | exact (Forall_bool_not _ _ _ Hf Hl1)].
    + exact (Forall_bool_not _ _ _ Hf H).
Qed.

Lemma py_int_inject (q : Q) (e : Z) : (q == inject_Z e)%Q -> py_int q = e.
Proof.
  destruct q as [n d]. unfold Qeq, py_int; simpl. rewrite Z.mul_1_r. intros ->.
  apply Z.quot_mul. discriminate.
Qed.

(** with the OSTIR row selection as the oracle and a non-empty CDS, a newly
    evaluated candidate is either accepted or rejected as
    [no_valid_ostir_row] or [non_positive_expression] *)
Theorem ensure_cache_ostir_reasons (lm : Libm) (pre_seq post_seq : string)
    (ostir_rows : string -> Z -> list OstirRow.t) (target_log : Q) (rbs_seq : string) (c : Cache) :
  post_seq <> "" -> lookup rbs_seq (evaluated c) = None ->
  let cand := fst (ensure_cache lm pre_seq post_seq (ostir_oracle ostir_rows post_seq) target_log rbs_seq c) in
  reject_reason cand = None \/ reject_reason cand = Some "no_valid_ostir_row" \/
  reject_reason cand = Some "non_positive_expression".
Proof.
  intros Hp Hl. cbv zeta. unfold ensure_cache. rewrite Hl. unfold ostir_oracle.
  match goal with |- context [run_ostir_for_start_position ?rows ?e post_seq] =>
    pose proof (run_ostir_for_start_position_first rows e post_seq) as H;
    destruct (run_ostir_for_start_position rows e post_seq) as [r|] eqn:Er end.
  2: { right; left; reflexivity. }
  destruct H as (l1 & l2 & _ & [(q & Hq & Hqe) Hc] & _).
  specialize (Hc Hp).
  destruct (OstirRow.expression r) as [x|]; [|right; right; reflexivity].
  destruct (Qle_bool x 0); [right; right; reflexivity|].
  unfold start_codon_expected. rewrite Hc, String.eqb_refl. cbn [negb].
  rewrite Hq, (py_int_inject _ _ Hqe), Z.eqb_refl. cbn [negb]. left. reflexivity.
Qed.

Lemma codon_choice (post_seq : string) :
  Seq.upper (if String.eqb (Seq.upper (Seq.prefix post_seq 3)) "" then Seq.prefix post_seq 3
             else Seq.upper (Seq.prefix post_seq 3)) = Seq.upper (Seq.prefix post_seq 3).
Proof. destruct (String.eqb _ _); [reflexivity | apply upper_idem]. Qed.

(** [_evaluate_design_candidate_full_sequence] on the design inputs, with
    the CDS's start codon, agrees with the candidate [ensure_cache] builds:
    the same rejection, reason, error and expression, and the same record
    when accepted *)
Theorem evaluate_full_agrees_with_cache (lm : Libm) (oracle : string -> Z -> option OstirRow.t)
    (pre_seq post_seq : string) (target_log : Q) (rbs_seq : string) (c : Cache) :
  rbs_seq <> "" -> lookup rbs_seq (evaluated c) = None ->
  let cand := fst (ensure_cache lm pre_seq post_seq oracle target_log rbs_seq c) in
  exists e, evaluate_full lm oracle pre_seq post_seq rbs_seq target_log
              (Some (Seq.upper (Seq.prefix post_seq 3))) = Some e /\
    rejected e = rejected cand /\ reject_reason e = reject_reason cand /\
    error e = error cand /\ predicted_expression e = predicted_expression cand /\
    (rejected cand = false -> e = cand).
Proof.
  intros Hr Hl. cbv zeta. unfold ensure_cache, evaluate_full. rewrite Hl.
  replace (String.eqb rbs_seq "") with false by (symmetry; apply String.eqb_neq, Hr).
  cbv zeta. rewrite codon_choice.
  replace (expected_start pre_seq + Seq.len rbs_seq) with (Seq.len pre_seq + Seq.len rbs_seq + 1)
    by (unfold expected_start; lia).
  unfold start_codon_expected.
  destruct (oracle _ _) as [r|]; cbn [fst].
  - destruct (OstirRow.expression r) as [x|].
    + destruct (Qle_bool x 0).
      * eexists; split; [reflexivity|]; cbn; repeat split; discriminate.
      * destruct (negb (String.eqb _ _)).
        -- eexists; split; [reflexivity|]; cbn; repeat split; discriminate.
        -- destruct (OstirRow.start_position r) as [p|].
           ++ destruct (negb (_ =? _)).
              ** eexists; split; [reflexivity|]; cbn; repeat split; discriminate.
              ** eexists; split; [reflexivity|]; cbn; repeat split; reflexivity.
           ++ eexists; split; [reflexivity|]; cbn; repeat split; discriminate.
    + eexists; split; [reflexivity|]; cbn; repeat split; discriminate.
  - eexists; split; [reflexivity|]; cbn; repeat split; discriminate.
Qed.

(** ** [random_rbs]: length, alphabet and core placement *)

Lemma in_zrange (a b x : Z) : In x (Seq.zrange a b) -> a <= x < b.
Proof.
  unfold Seq.zrange. intros H. apply in_map_iff in H as (i & <- & Hi). apply in_seq in Hi. lia.
Qed.

Lemma zrange_in (a b x : Z) : a <= x < b -> In x (Seq.zrange a b).
Proof.
  intros H. unfold Seq.zrange. apply in_map_iff. exists (Z.to_nat (x - a)).
  split; [lia|]. apply in_seq. lia.
Qed.

Lemma ljust_fit_exact (s : string) (n : Z) :
  0 <= n ->
  Seq.len (let canonical := Seq.ljust_A s n in
           if n <? Seq.len canonical then Seq.prefix canonical n else canonical) = n.
Proof.
  intros Hn. cbv zeta.
  assert (Hl : Seq.len (Seq.ljust_A s n) = Seq.len s + Z.of_nat (Z.to_nat (n - Seq.len s))).
  { unfold Seq.ljust_A. rewrite len_append.
    unfold Seq.len at 2. rewrite str_length_of_list, repeat_length. reflexivity. }
  destruct (n <? Seq.len (Seq.ljust_A s n)) eqn:E.
  - apply Z.ltb_lt in E. unfold Seq.prefix, Seq.len at 1. rewrite substring_0_length.
    unfold Seq.len in E. lia.
  - apply Z.ltb_ge in E. pose proof (len_nonneg s). lia.
Qed.

Lemma acgt_app (a b : string) : acgt (a ++ b) = acgt a && acgt b.
Proof. unfold acgt. now rewrite list_of_string_app, forallb_app. Qed.

Lemma acgt_prefix (s : string) (n : nat) : acgt s = true -> acgt (substring 0 n s) = true.
Proof.
  unfold acgt. revert n. induction s as [|c s IH]; intros [|n] H; try reflexivity.
  cbn [substring list_ascii_of_string forallb] in *.
  apply andb_true_iff in H as [H1 H2]. rewrite H1. now apply IH.
Qed.

Lemma acgt_repeat_A (k : nat) : acgt (string_of_list_ascii (repeat "A"%char k)) = true.
Proof. induction k as [|k IH]; [reflexivity|]. exact IH. Qed.

Lemma acgt_fit (s : string) (n : Z) :
  acgt s = true ->
  acgt (let canonical := Seq.ljust_A s n in
        if n <? Seq.len canonical then Seq.prefix canonical n else canonical) = true.
Proof.
  intros Hs. cbv zeta.
  assert (H : acgt (Seq.ljust_A s n) = true)
    by (unfold Seq.ljust_A; rewrite acgt_app, Hs; apply acgt_repeat_A).
  destruct (_ <? _); [apply acgt_prefix|]; exact H.
Qed.

Lemma ok_draw_letters_acgt (n : nat) : ok_with (draw_letters n) (fun s => acgt s = true).
Proof.
  induction n as [|n IH]; cbn [draw_letters]; [now apply ok_with_ret|].
  eapply ok_with_bind; [apply ok_choice; discriminate|]. intros c Hc.
  eapply ok_with_bind; [exact IH|]. intros rest Hr. apply ok_with_ret.
  unfold acgt in *. cbn [list_ascii_of_string forallb]. rewrite Hr, andb_true_r.
  apply existsb_exists. exists c. split; [exact Hc | apply Ascii.eqb_refl].
Qed.

(** the cores [random_rbs] places, once the empty ones are dropped *)
(** [random_rbs]'s length: with a non-negative minimal spacing its result
    is exactly the drawn length, so within [[max(4, min), max(max(4, min), max)]] *)
Lemma random_rbs_length_bounds (min_length max_length : Z) (seed : string)
    (spacing_min spacing_max : Z) (sd_cores : option (list string)) :
  0 <= spacing_min ->
  ok_with (random_rbs min_length max_length seed spacing_min spacing_max sd_cores)
          (fun s => Z.max 4 min_length <= Seq.len s <= Z.max (Z.max 4 min_length) max_length).
Proof.
  intros Hsmin. unfold random_rbs.
  eapply ok_with_bind; [apply ok_randint; lia|]. intros L HL; cbv beta in HL.
  cbv zeta.
  match goal with |- context [existsb (fun core => _) ?c] => set (cores := c) end.
  match goal with |- ok_with (match ?f with [] => _ | _ :: _ => _ end) _ =>
    destruct f as [|sp sps] eqn:Hfeas end.
  - destruct (negb (String.eqb seed "")); apply ok_with_ret;
      rewrite ljust_fit_exact by lia; exact HL.
  - eapply ok_with_bind; [apply ok_choice; discriminate|]. intros spacing Hsp; cbv beta in Hsp.
    rewrite <- Hfeas in Hsp. apply filter_In in Hsp as [Hsp Hex]. apply in_zrange in Hsp.
    apply existsb_exists in Hex as [core0 [Hc0 Hle0]].
    destruct (filter (fun core => Seq.len core + spacing <=? L) cores) as [|v vs] eqn:Hval.
    + exfalso. assert (Hin : In core0 (filter (fun core => Seq.len core + spacing <=? L) cores))
        by (apply filter_In; auto).
      rewrite Hval in Hin. exact Hin.
    + eapply ok_with_bind; [apply ok_choice; discriminate|]. intros core Hcore; cbv beta in Hcore.
      rewrite <- Hval in Hcore. apply filter_In in Hcore as [_ Hle]. apply Z.leb_le in Hle.
      eapply ok_with_bind; [apply ok_draw_letters|]. intros left Hleft; cbv beta in Hleft.
      eapply ok_with_bind; [apply ok_draw_letters|]. intros right Hright; cbv beta in Hright.
      apply ok_with_ret. rewrite !len_append.
      rewrite (len_of_length _ _ Hleft), (len_of_length _ _ Hright).
      pose proof (len_nonneg core). lia.
Qed.

(** [random_rbs]'s alphabet: from a seed and cores over A, C, G, T it
    only returns strings over A, C, G, T *)
Lemma random_rbs_acgt (min_length max_length : Z) (seed : string)
    (spacing_min spacing_max : Z) (sd_cores : option (list string)) :
  acgt seed = true ->
  Forall (fun core => acgt core = true) (match sd_cores with None => [] | Some l => l end) ->
  ok_with (random_rbs min_length max_length seed spacing_min spacing_max sd_cores)
          (fun s => acgt s = true).
Proof.
  intros Hseed Hcores. unfold random_rbs.
  eapply ok_with_bind; [apply ok_randint; lia|]. intros L HL; cbv beta in HL.
  cbv zeta.
  match goal with |- context [existsb (fun core => _) ?c] => set (cores := c) end.
  assert (Hc : Forall (fun core => acgt core = true) cores).
  { unfold cores.
    assert (H0 : Forall (fun core => acgt core = true)
                   (filter (fun core => negb (String.eqb core ""))
                      (match sd_cores with None => [DESIGN_SD_CORE] | Some l => l end))).
    { apply Forall_forall. intros x Hx. apply filter_In in Hx as [Hx _].
      destruct sd_cores as [l|]; [exact (proj1 (Forall_forall _ _) Hcores x Hx)|].
      destruct Hx as [<-|[]]. reflexivity. }
    destruct (filter _ _); [constructor; [reflexivity | constructor] | exact H0]. }
  assert (Hhd : acgt (hd "" cores) = true).
  { destruct cores as [|c0 cs]; [reflexivity|]. now inversion Hc. }
  match goal with |- ok_with (match ?f with [] => _ | _ :: _ => _ end) _ =>
    destruct f as [|sp sps] eqn:Hfeas end.
  - destruct (negb (String.eqb seed "")); apply ok_with_ret; apply acgt_fit; [|exact Hhd].
    apply acgt_prefix, Hseed.
  - eapply ok_with_bind; [apply ok_choice; discriminate|]. intros spacing _.
    destruct (filter (fun core => Seq.len core + spacing <=? L) cores) as [|v vs] eqn:Hval;
      (eapply ok_with_bind; [apply ok_choice; discriminate|]); intros core Hcore; cbv beta in Hcore;
      (assert (Hcg : acgt core = true);
       [ try (destruct Hcore as [<-|[]]; exact Hhd);
         rewrite <- Hval in Hcore; apply filter_In in Hcore as [Hcore _];
         exact (proj1 (Forall_forall _ _) Hc core Hcore) |]).
    all: eapply ok_with_bind; [apply ok_draw_letters_acgt|]; intros left Hleft; cbv beta in Hleft;
      eapply ok_with_bind; [apply ok_draw_letters_acgt|]; intros right Hright; cbv beta in Hright;
      apply ok_with_ret; now rewrite !acgt_app, Hleft, Hcg, Hright.
Qed.

Lemma random_rbs_places (min_length max_length : Z) (seed : string)
    (spacing_min spacing_max : Z) (cores : list string) :
  0 <= spacing_min <= spacing_max ->
  Forall (fun core => core <> "") cores ->
  (exists core, In core cores /\ Seq.len core + spacing_min <= Z.max 4 min_length) ->
  ok_with (random_rbs min_length max_length seed spacing_min spacing_max (Some cores))
          (fun s => exists core left right, In core cores /\ s = (left ++ core ++ right)%string /\
                      spacing_min <= Seq.len right <= spacing_max).
Proof.
  intros Hsp Hne [core0 [Hin0 Hfit0]]. unfold random_rbs.
  eapply ok_with_bind; [apply ok_randint; lia|]. intros L HL; cbv beta in HL.
  cbv zeta.
  assert (Hf : filter (fun core => negb (String.eqb core "")) cores = cores).
  { apply forallb_filter_id, forallb_forall. intros x Hx.
    apply negb_true_iff, String.eqb_neq. exact (proj1 (Forall_forall _ _) Hne x Hx). }
  rewrite Hf.
  assert (Hcores : (match cores with [] => [DESIGN_SD_CORE] | _ => cores end) = cores)
    by (destruct cores; [destruct Hin0 | reflexivity]).
  rewrite Hcores.
  match goal with |- ok_with (match ?f with [] => _ | _ :: _ => _ end) _ =>
    destruct f as [|sp sps] eqn:Hfeas end.
  - exfalso.
    assert (Hin : In spacing_min (filter (fun spacing => existsb (fun core => Seq.len core + spacing <=? L) cores)
                                   (Seq.zrange spacing_min (spacing_max + 1)))).
    { apply filter_In. split; [apply zrange_in; lia|].
      apply existsb_exists. exists core0. split; [exact Hin0 | apply Z.leb_le; lia]. }
    rewrite Hfeas in Hin. exact Hin.
  - eapply ok_with_bind; [apply ok_choice; discriminate|]. intros spacing Hs; cbv beta in Hs.
    rewrite <- Hfeas in Hs. apply filter_In in Hs as [Hs Hex]. apply in_zrange in Hs.
    apply existsb_exists in Hex as [core1 [Hc1 Hle1]].
    destruct (filter (fun core => Seq.len core + spacing <=? L) cores) as [|v vs] eqn:Hval.
    + exfalso. assert (Hin : In core1 (filter (fun core => Seq.len core + spacing <=? L) cores))
        by (apply filter_In; auto).
      rewrite Hval in Hin. exact Hin.
    + eapply ok_with_bind; [apply ok_choice; discriminate|]. intros core Hcore; cbv beta in Hcore.
      rewrite <- Hval in Hcore. apply filter_In in Hcore as [Hcore Hle]. apply Z.leb_le in Hle.
      eapply ok_with_bind; [apply ok_draw_letters|]. intros left _.
      eapply ok_with_bind; [apply ok_draw_letters|]. intros right Hright; cbv beta in Hright.
      apply ok_with_ret. exists core, left, right. split; [exact Hcore|]. split; [reflexivity|].
      rewrite (len_of_length _ _ Hright). lia.
Qed.

(** [random_rbs]'s placement: when some core fits the minimal length with
    the minimal spacing, the result is [left ++ core ++ right] for one of
    the given cores, with a spacing [len right] within the window *)
Theorem random_rbs_places_core (min_length max_length : Z) (seed : string)
    (spacing_min spacing_max : Z) (cores : list string) :
  0 <= spacing_min <= spacing_max ->
  Forall (fun core => core <> "") cores ->
  (exists core, In core cores /\ Seq.len core + spacing_min <= Z.max 4 min_length) ->
  ok_with (random_rbs min_length max_length seed spacing_min spacing_max (Some cores))
          (fun s => exists core left right, In core cores /\ s = (left ++ core ++ right)%string /\
                      spacing_min <= Seq.len right <= spacing_max).
Proof. exact (random_rbs_places min_length max_length seed spacing_min spacing_max cores). Qed.

(** the spacing that [infer_spacing_from_sequence] reads back from a
    sequence drawn by [random_rbs] with the same cores and window is
    found, and lies in the window *)
Theorem random_rbs_spacing_inferred (min_length max_length : Z) (seed : string)
    (spacing_min spacing_max : Z) (cores : list string) :
  0 <= spacing_min <= spacing_max ->
  Forall (fun core => core <> "") cores ->
  (exists core, In core cores /\ Seq.len core + spacing_min <= Z.max 4 min_length) ->
  ok_with (random_rbs min_length max_length seed spacing_min spacing_max (Some cores))
          (fun s => exists sp, infer_spacing_from_sequence cores spacing_min spacing_max s = Some sp /\
                      spacing_min <= sp <= spacing_max).
Proof.
  intros Hsp Hne Hfit. eapply ok_with_mono; [exact (random_rbs_places _ _ _ _ _ _ Hsp Hne Hfit)|].
  intros s Hs. destruct (infer_spacing_props cores spacing_min spacing_max s) as [Hsound Hcomp].
  destruct (infer_spacing_from_sequence cores spacing_min spacing_max s) as [sp|] eqn:E.
  - exists sp. split; [reflexivity|]. destruct (Hsound sp eq_refl) as (_ & _ & _ & _ & _ & _ & H). exact H.
  - exfalso. exact (Hcomp Hs eq_refl).
Qed.

(** ** [mutate_rbs] and the move weights *)

Lemma forallb_firstn_skipn {A} (f : A -> bool) (l : list A) (i : nat) :
  forallb f l = true -> forallb f (firstn i l) = true /\ forallb f (skipn i l) = true.
Proof.
  intros H. rewrite <- (firstn_skipn i l) in H. rewrite forallb_app in H.
  now apply andb_true_iff.
Qed.

Lemma acgt_letter (c : ascii) : In c RBS_NUCLEOTIDES -> existsb (Ascii.eqb c) RBS_NUCLEOTIDES = true.
Proof. intros H. apply existsb_exists. exists c. split; [exact H | apply Ascii.eqb_refl]. Qed.

Lemma acgt_list_set (l : list ascii) (i : nat) (c : ascii) :
  forallb (fun c => existsb (Ascii.eqb c) RBS_NUCLEOTIDES) l = true -> In c RBS_NUCLEOTIDES ->
  acgt (string_of_list_ascii (list_set l i c)) = true.
Proof.
  intros Hl Hc. unfold acgt, list_set. rewrite list_ascii_of_string_of_list_ascii, forallb_app.
  destruct (forallb_firstn_skipn _ l i Hl) as [H1 _].
  destruct (forallb_firstn_skipn _ l (S i) Hl) as [_ H2].
  cbn [forallb]. now rewrite H1, H2, acgt_letter.
Qed.

Lemma acgt_list_insert (l : list ascii) (i : nat) (c : ascii) :
  forallb (fun c => existsb (Ascii.eqb c) RBS_NUCLEOTIDES) l = true -> In c RBS_NUCLEOTIDES ->
  acgt (string_of_list_ascii (list_insert l i c)) = true.
Proof.
  intros Hl Hc. unfold acgt, list_insert. rewrite list_ascii_of_string_of_list_ascii, forallb_app.
  destruct (forallb_firstn_skipn _ l i Hl) as [H1 H2].
  cbn [forallb]. now rewrite H1, H2, acgt_letter.
Qed.

Lemma acgt_list_delete (l : list ascii) (i : nat) :
  forallb (fun c => existsb (Ascii.eqb c) RBS_NUCLEOTIDES) l = true ->
  acgt (string_of_list_ascii (list_delete l i)) = true.
Proof.
  intros Hl. unfold acgt, list_delete. rewrite list_ascii_of_string_of_list_ascii, forallb_app.
  destruct (forallb_firstn_skipn _ l i Hl) as [H1 _].
  destruct (forallb_firstn_skipn _ l (S i) Hl) as [_ H2].
  now rewrite H1, H2.
Qed.

(** [mutate_rbs] on a non-empty sequence: the length stays within
    [[min(min_length, len), max(max_length, len)]] and a sequence over
    A, C, G, T stays over A, C, G, T *)
Lemma mutate_rbs_range_alphabet (spacing_min spacing_max : Z) (sequence : string) (min_length max_length : Z)
    (sub_weight ins_weight del_weight : Q) :
  sequence <> "" ->
  ok_with (mutate_rbs spacing_min spacing_max sequence min_length max_length
             sub_weight ins_weight del_weight)
          (fun r => Z.min min_length (Seq.len sequence) <= Seq.len (fst r) <=
                      Z.max max_length (Seq.len sequence) /\
                    (acgt sequence = true -> acgt (fst r) = true)).
Proof.
  intros Hne. unfold mutate_rbs.
  destruct (String.eqb_spec sequence "") as [|_]; [contradiction|].
  assert (Hpos : (0 < List.length (list_ascii_of_string sequence))%nat).
  { destruct sequence; [congruence | simpl; lia]. }
  assert (Hlen : Seq.len sequence = Z.of_nat (List.length (list_ascii_of_string sequence)))
    by (unfold Seq.len; now rewrite str_length_as_list).
  assert (Hac : acgt sequence = forallb (fun c => existsb (Ascii.eqb c) RBS_NUCLEOTIDES)
                                  (list_ascii_of_string sequence)) by reflexivity.
  set (seq := list_ascii_of_string sequence) in *.
  set (n := Z.of_nat (List.length seq)) in *.
  set (P := fun r : string * move =>
              Z.min min_length (Seq.len sequence) <= Seq.len (fst r) <=
                Z.max max_length (Seq.len sequence) /\
              (acgt sequence = true -> acgt (fst r) = true)).
  assert (Hsub : ok_with
      (idx <- randrange 0 n ;;
       let cur := nth (Z.to_nat idx) seq "A"%char in
       let replacements := filter (fun nt => negb (Ascii.eqb nt cur)) RBS_NUCLEOTIDES in
       c <- choice "A"%char replacements ;;
       ret (string_of_list_ascii (list_set seq (Z.to_nat idx) c), Sub)) P).
  { eapply ok_with_bind; [apply ok_randrange; lia|]. intros idx Hidx; cbv beta in Hidx.
    cbv zeta.
    eapply ok_with_bind; [apply ok_choice, replacements_nonempty|]. intros c Hc; cbv beta in Hc.
    apply filter_In in Hc as [Hc _].
    apply ok_with_ret. unfold P; simpl fst. split.
    - rewrite len_string_of_list, list_set_length by lia. lia.
    - intros Hs. apply acgt_list_set; [congruence | exact Hc]. }
  assert (Hins : n < max_length -> ok_with
      (if n <? max_length then
         idx <- randrange 0 (n + 1) ;;
         c <- choice "A"%char RBS_NUCLEOTIDES ;;
         ret (string_of_list_ascii (list_insert seq (Z.to_nat idx) c), Ins)
       else ret (sequence, Noop)) P).
  { intros Hlt. replace (n <? max_length) with true by (symmetry; now apply Z.ltb_lt).
    eapply ok_with_bind; [apply ok_randrange; lia|]. intros idx Hidx; cbv beta in Hidx.
    eapply ok_with_bind; [apply ok_choice; discriminate|]. intros c Hc.
    apply ok_with_ret. unfold P; simpl fst. split.
    - rewrite len_string_of_list, list_insert_length by lia. unfold n in *. lia.
    - intros Hs. apply acgt_list_insert; [congruence | exact Hc]. }
  assert (Hdel : min_length < n -> ok_with
      (if min_length <? n then
         idx <- randrange 0 n ;;
         ret (string_of_list_ascii (list_delete seq (Z.to_nat idx)), Del)
       else ret (sequence, Noop)) P).
  { intros Hlt. replace (min_length <? n) with true by (symmetry; now apply Z.ltb_lt).
    eapply ok_with_bind; [apply ok_randrange; lia|]. intros idx Hidx; cbv beta in Hidx.
    apply ok_with_ret. unfold P; simpl fst. split.
    - rewrite len_string_of_list, list_delete_length by lia. unfold n in *. lia.
    - intros Hs. apply acgt_list_delete. congruence. }
  destruct (n <=? min_length) eqn:Hmin; destruct (max_length <=? n) eqn:Hmax;
    cbn [filter fst move_eqb negb];
    (eapply ok_with_bind; [apply ok_pick_move; simpl; auto|]);
    intros a Ha; simpl in Ha.
  - destruct Ha as [<-|[]]. exact Hsub.
  - destruct Ha as [<-|[<-|[]]]; [exact Hsub|]. apply Hins. lia.
  - destruct Ha as [<-|[<-|[]]]; [exact Hsub|]. apply Hdel. lia.
  - destruct Ha as [<-|[<-|[<-|[]]]]; [exact Hsub| |]; [apply Hins | apply Hdel]; lia.
Qed.

(** ** [current_move_weights] *)

Lemma Qmin_cases (a b : Q) : (Qmin a b == a /\ a <= b \/ Qmin a b == b /\ b <= a)%Q.
Proof. destruct (Q.min_spec_le a b) as [[H E]|[H E]]; [left|right]; split; try rewrite E; auto; reflexivity. Qed.

Lemma Qmax_cases (a b : Q) : (Qmax a b == b /\ a <= b \/ Qmax a b == a /\ b <= a)%Q.
Proof. destruct (Q.max_spec_le a b) as [[H E]|[H E]]; [left|right]; split; try rewrite E; auto; reflexivity. Qed.

Lemma div_nonneg (a b : Q) : (0 <= a -> 0 < b -> 0 <= a / b)%Q.
Proof. intros Ha Hb. apply Qle_shift_div_l; [exact Hb|]. lra. Qed.

Lemma div_le_mono (a a' b : Q) : (a <= a' -> 0 < b -> a / b <= a' / b)%Q.
Proof.
  intros Ha Hb. unfold Qdiv. apply Qmult_le_compat_r; [exact Ha|].
  apply Qlt_le_weak, Qinv_lt_0_compat, Hb.
Qed.

Lemma weights_ratio_bounds (step total_steps : Z) :
  1 <= step ->
  let ratio := if 1 <? total_steps
               then Qmin 1%Q (inject_Z (step - 1) / inject_Z (Z.max 1 (total_steps - 1)))
               else 0%Q in
  (0 <= ratio <= 1)%Q.
Proof.
  intros Hs ratio. unfold ratio. destruct (1 <? total_steps); [|lra].
  assert (Hd : (0 < inject_Z (Z.max 1 (total_steps - 1)))%Q)
    by (change 0%Q with (inject_Z 0); rewrite <- Zlt_Qlt; lia).
  assert (Hn : (0 <= inject_Z (step - 1))%Q) by (change 0%Q with (inject_Z 0); rewrite <- Zle_Qle; lia).
  pose proof (div_nonneg _ _ Hn Hd) as Hq.
  destruct (Qmin_cases 1 (inject_Z (step - 1) / inject_Z (Z.max 1 (total_steps - 1)))) as [[E H]|[E H]];
    rewrite E; lra.
Qed.

Lemma weights_ratio_mono (step step' total_steps : Z) :
  step <= step' ->
  ((if 1 <? total_steps
    then Qmin 1%Q (inject_Z (step - 1) / inject_Z (Z.max 1 (total_steps - 1)))
    else 0) <=
   (if 1 <? total_steps
    then Qmin 1%Q (inject_Z (step' - 1) / inject_Z (Z.max 1 (total_steps - 1)))
    else 0))%Q.
Proof.
  intros Hs. destruct (1 <? total_steps); [|lra].
  assert (Hd : (0 < inject_Z (Z.max 1 (total_steps - 1)))%Q)
    by (change 0%Q with (inject_Z 0); rewrite <- Zlt_Qlt; lia).
  assert (Hn : (inject_Z (step - 1) <= inject_Z (step' - 1))%Q) by (rewrite <- Zle_Qle; lia).
  pose proof (div_le_mono _ _ _ Hn Hd) as Hq.
  destruct (Qmin_cases 1 (inject_Z (step - 1) / inject_Z (Z.max 1 (total_steps - 1)))) as [[E H]|[E H]];
  destruct (Qmin_cases 1 (inject_Z (step' - 1) / inject_Z (Z.max 1 (total_steps - 1)))) as [[E' H']|[E' H']];
    rewrite E, E'; lra.
Qed.

Lemma temp_factor_bounds (cfg : Config) (t : Q) :
  (0 <= Qmax 0 (Qmin 1 ((t - DESIGN_TEMPERATURE_MIN cfg) /
       Qmax (1 # 1000000000000)
         (Qmax (DESIGN_TEMPERATURE_MAX cfg) (DESIGN_TEMPERATURE_INIT cfg) - DESIGN_TEMPERATURE_MIN cfg)))
   <= 1)%Q.
Proof.
  set (x := ((t - _) / _)%Q).
  destruct (Qmin_cases 1 x) as [[E H]|[E H]]; rewrite E.
  - destruct (Qmax_cases 0 1) as [[E' H']|[E' H']]; rewrite E'; lra.
  - destruct (Qmax_cases 0 x) as [[E' H']|[E' H']]; rewrite E'; lra.
Qed.

Lemma temp_factor_mono (cfg : Config) (t t' : Q) :
  (t <= t')%Q ->
  (Qmax 0 (Qmin 1 ((t - DESIGN_TEMPERATURE_MIN cfg) /
       Qmax (1 # 1000000000000)
         (Qmax (DESIGN_TEMPERATURE_MAX cfg) (DESIGN_TEMPERATURE_INIT cfg) - DESIGN_TEMPERATURE_MIN cfg)))
   <=
   Qmax 0 (Qmin 1 ((t' - DESIGN_TEMPERATURE_MIN cfg) /
       Qmax (1 # 1000000000000)
         (Qmax (DESIGN_TEMPERATURE_MAX cfg) (DESIGN_TEMPERATURE_INIT cfg) - DESIGN_TEMPERATURE_MIN cfg))))%Q.
Proof.
  intros Ht.
  set (d := Qmax (1 # 1000000000000) _).
  assert (Hd : (0 < d)%Q).
  { unfold d. destruct (Qmax_cases (1 # 1000000000000)
      (Qmax (DESIGN_TEMPERATURE_MAX cfg) (DESIGN_TEMPERATURE_INIT cfg) - DESIGN_TEMPERATURE_MIN cfg))
      as [[E H]|[E H]]; rewrite E; [|reflexivity].
    eapply Qlt_le_trans; [|exact H]. reflexivity. }
  assert (Hx : ((t - DESIGN_TEMPERATURE_MIN cfg) / d <= (t' - DESIGN_TEMPERATURE_MIN cfg) / d)%Q)
    by (apply div_le_mono; [lra | exact Hd]).
  set (x := ((t - DESIGN_TEMPERATURE_MIN cfg) / d)%Q) in *.
  set (x' := ((t' - DESIGN_TEMPERATURE_MIN cfg) / d)%Q) in *.
  destruct (Qmin_cases 1 x) as [[E1 H1]|[E1 H1]]; rewrite E1;
  destruct (Qmin_cases 1 x') as [[E2 H2]|[E2 H2]]; rewrite E2.
  all: match goal with |- (Qmax 0 ?a <= Qmax 0 ?b)%Q =>
         destruct (Qmax_cases 0 a) as [[E3 H3]|[E3 H3]];
         destruct (Qmax_cases 0 b) as [[E4 H4]|[E4 H4]] end; lra.
Qed.

(** the weights of one step: from step 1 on, the substitution weight lies
    in [[1, 8]], the insertion and deletion weights are equal and lie in
    [[0.7, 3]] (the 0.2 floor is never reached) *)
Theorem current_move_weights_bounds (cfg : Config) (step total_steps : Z) (current_temperature : Q) :
  1 <= step ->
  match current_move_weights cfg step total_steps current_temperature with
  | (sub_weight, ins_weight, del_weight) =>
      (1 <= sub_weight <= 8)%Q /\ ins_weight = del_weight /\ (7 # 10 <= ins_weight <= 3)%Q
  end.
Proof.
  intros Hs. unfold current_move_weights. cbv zeta.
  pose proof (weights_ratio_bounds step total_steps Hs) as Hr. cbv zeta in Hr.
  pose proof (temp_factor_bounds cfg current_temperature) as Ht.
  set (r := if 1 <? total_steps then _ else _) in *.
  set (tf := Qmax 0 _) in *.
  split; [lra|]. split; [reflexivity|].
  assert (Hp : (7 # 10 <= (1 + 2 * tf) * (1 - (3 # 10) * r) <= 3)%Q) by nra.
  destruct (Qmax_cases (2 # 10) ((1 + 2 * tf) * (1 - (3 # 10) * r))) as [[E H]|[E H]];
    rewrite E; lra.
Qed.

Lemma weights_ratio_le_1 (step total_steps : Z) :
  ((if 1 <? total_steps
    then Qmin 1%Q (inject_Z (step - 1) / inject_Z (Z.max 1 (total_steps - 1)))
    else 0) <= 1)%Q.
Proof.
  destruct (1 <? total_steps); [|lra].
  destruct (Qmin_cases 1 (inject_Z (step - 1) / inject_Z (Z.max 1 (total_steps - 1)))) as [[E H]|[E H]];
    lra.
Qed.

Lemma Qmax_mono_r (a b b' : Q) : (b <= b' -> Qmax a b <= Qmax a b')%Q.
Proof.
  intros H. destruct (Qmax_cases a b) as [[E1 H1]|[E1 H1]];
    destruct (Qmax_cases a b') as [[E2 H2]|[E2 H2]]; lra.
Qed.

(** how the weights move: a later step never lowers the substitution
    weight nor raises the insertion and deletion weights; a higher
    temperature never lowers the insertion and deletion weights and
    leaves the substitution weight as it is *)
Theorem current_move_weights_monotone (cfg : Config) (total_steps : Z) :
  (forall step step' t, step <= step' ->
     match current_move_weights cfg step total_steps t,
           current_move_weights cfg step' total_steps t with
     | (sub, ins, del), (sub', ins', del') =>
         (sub <= sub')%Q /\ (ins' <= ins)%Q /\ (del' <= del)%Q
     end) /\
  (forall step t t', (t <= t')%Q ->
     match current_move_weights cfg step total_steps t,
           current_move_weights cfg step total_steps t' with
     | (sub, ins, del), (sub', ins', del') =>
         sub = sub' /\ (ins <= ins')%Q /\ (del <= del')%Q
     end).
Proof.
  split.
  - intros step step' t Hs. unfold current_move_weights. cbv zeta.
    pose proof (weights_ratio_mono step step' total_steps Hs) as Hr.
    pose proof (weights_ratio_le_1 step' total_steps) as Hr1.
    pose proof (temp_factor_bounds cfg t) as Ht.
    set (r := if 1 <? total_steps then Qmin 1%Q (inject_Z (step - 1) / _) else _) in *.
    set (r' := if 1 <? total_steps then Qmin 1%Q (inject_Z (step' - 1) / _) else _) in *.
    set (tf := Qmax 0 _) in *.
    assert (Hm : ((1 + 2 * tf) * (1 - (3 # 10) * r') <= (1 + 2 * tf) * (1 - (3 # 10) * r))%Q) by nra.
    split; [lra|]. split; apply Qmax_mono_r, Hm.
  - intros step t t' Ht. unfold current_move_weights. cbv zeta.
    pose proof (temp_factor_mono cfg t t' Ht) as Hm.
    pose proof (weights_ratio_le_1 step total_steps) as Hr1.
    set (r := if 1 <? total_steps then _ else _) in *.
    set (tf := Qmax 0 (Qmin 1 ((t - _) / _))) in *.
    set (tf' := Qmax 0 (Qmin 1 ((t' - _) / _))) in *.
    assert (Hw : ((1 + 2 * tf) * (1 - (3 # 10) * r) <= (1 + 2 * tf') * (1 - (3 # 10) * r))%Q) by nra.
    split; [reflexivity|]. split; apply Qmax_mono_r, Hw.
Qed.

(** ** Move counters of a run *)

Lemma record_decision_fields mv cand result acc st :
  let st' := record_decision mv cand result acc st in
  iteration st' = iteration st /\ restart_count st' = restart_count st /\
  move_type_attempts st' = move_type_attempts st /\
  (current_rbs st' = current_rbs st \/ current_rbs st' = cand) /\
  (move_type_accepts st' = move_type_accepts st \/
   move_type_accepts st' = bump mv (move_type_accepts st)).
Proof.
  unfold record_decision. destruct acc; [destruct (_ && _)|]; simpl_st; auto 7.
Qed.

Lemma mutate_facts smin smax sequence min_length max_length a b c s x mv r :
  sequence <> "" ->
  mutate_rbs smin smax sequence min_length max_length a b c s = Ok ((x, mv), r) ->
  (mv = Sub \/ mv = Ins \/ mv = Del) /\ x <> sequence /\ Z.min min_length (Seq.len sequence) <= Seq.len x.
Proof.
  intros Hne E. eapply ok_with_elim in E; [|apply ok_mutate_rbs; exact Hne]. exact E.
Qed.

Section Counts.
Variable lm : Libm.
Variable cfg : Config.
Variables pre_seq post_seq : string.
Variable oracle : string -> Z -> option OstirRow.t.
Variable target_log : Q.
Variables min_length max_length : Z.
Variable sd_cores seed_pool : list string.
Variables accept_window restart_patience max_iter : Z.
Hypothesis Hmin : 1 <= min_length.

Local Abbreviation step := (search_step lm cfg pre_seq post_seq oracle target_log min_length max_length
                          sd_cores accept_window max_iter).

Lemma search_step_counts st st' :
  current_rbs st <> "" -> step st = Ok st' ->
  iteration st' = iteration st + 1 /\ restart_count st' = restart_count st /\
  current_rbs st' <> "" /\
  exists mv, (mv = Sub \/ mv = Ins \/ mv = Del) /\
    move_type_attempts st' = bump mv (move_type_attempts st) /\
    (move_type_accepts st' = move_type_accepts st \/
     move_type_accepts st' = bump mv (move_type_accepts st)).
Proof.
  intros Hne H. unfold search_step in H.
  destruct (String.eqb_spec (current_rbs st) "") as [|_]; [contradiction|].
  assert (Hcl : 0 < Seq.len (current_rbs st))
    by (destruct (current_rbs st); [contradiction | unfold Seq.len; simpl; lia]).
  inv_step.
  all: try match goal with
       | H : negb (current_rbs _ =? "")%string = false |- _ =>
           exfalso; apply Hne; apply negb_false_iff, String.eqb_eq in H; exact H
       end.
  all: match goal with
       | E : mutate_rbs _ _ _ _ _ _ _ _ _ = Ok ((?s, ?m), _) |- _ =>
           destruct (mutate_facts _ _ _ _ _ _ _ _ _ _ _ _ Hne E) as (Hm & Hsne & Hslen);
           assert (Hs0 : s <> "") by (apply len_nonempty; lia)
       end.
  all: try match goal with
       | |- context [record_decision ?mv ?c ?r ?a ?s] =>
           destruct (record_decision_fields mv c r a s) as (R1 & R2 & R3 & R4 & R5);
           cbv zeta in R1, R2, R3, R4, R5;
           set (sr := record_decision mv c r a s) in *; clearbody sr
       end.
  all: simpl_st.
  all: split; [lia|]; split; [first [reflexivity | assumption]|]; split.
  all: try assumption.
  all: try (destruct R4 as [R4|R4]; rewrite R4; assumption).
  all: eexists; split; [exact Hm|]; split; [congruence|]; try (left; congruence).
  all: destruct R5 as [R5|R5]; rewrite R5, ?R3; auto.
Qed.

Lemma counts_ok_step st st' mv :
  counts_ok st -> iteration st' = iteration st + 1 ->
  (mv = Sub \/ mv = Ins \/ mv = Del) ->
  move_type_attempts st' = bump mv (move_type_attempts st) ->
  (move_type_accepts st' = move_type_accepts st \/
   move_type_accepts st' = bump mv (move_type_accepts st)) ->
  counts_ok st'.
Proof.
  unfold counts_ok. intros Hc Hi Hm Ha Hac. rewrite Hi, Ha.
  destruct Hac as [Hac|Hac]; rewrite Hac;
    destruct Hm as [ -> | [ -> | -> ]]; cbn [bump n_sub n_ins n_del n_noop n_random]; lia.
Qed.

Local Abbreviation inner := (inner_loop lm cfg pre_seq post_seq oracle target_log min_length max_length
                           sd_cores accept_window restart_patience max_iter).

Lemma inner_counts n st st' :
  current_rbs st <> "" -> counts_ok st -> inner n st = Ok st' ->
  iteration st <= iteration st' <= iteration st + Z.of_nat n /\
  ((0 < n)%nat -> iteration st < iteration st') /\
  restart_count st' = restart_count st /\ counts_ok st'.
Proof.
  revert st. induction n as [|n IH]; intros st Hne Hc H; cbn [inner_loop] in H.
  - injection H as <-. split; [lia|]. split; [lia|]. auto.
  - apply bindr_Ok in H as (st1 & E & H).
    destruct (search_step_counts st st1 Hne E) as (Hi & Hr & Hne1 & mv & Hm & Ha & Hac).
    pose proof (counts_ok_step st st1 mv Hc Hi Hm Ha Hac) as Hc1.
    destruct (restart_patience <=? stagnation_count st1).
    + injection H as <-. split; [lia|]. split; [lia|]. auto.
    + destruct (IH st1 Hne1 Hc1 H) as (Hb & _ & Hr' & Hc'). split; [lia|]. split; [lia|].
      split; [congruence | exact Hc'].
Qed.

Local Abbreviation restart := (restart_from_pool lm cfg pre_seq post_seq oracle target_log min_length
                             max_length sd_cores seed_pool).

Lemma restart_counts i st st' :
  Forall (fun s => s <> "") seed_pool -> restart i st = Ok st' ->
  iteration st' = iteration st /\ restart_count st' = i /\ current_rbs st' <> "" /\
  move_type_attempts st' = move_type_attempts st /\ move_type_accepts st' = move_type_accepts st.
Proof.
  intros Hpool H. unfold restart_from_pool in H. inv_step.
  all: split; [reflexivity|]; split; [reflexivity|]; split; [|split; reflexivity].
  - apply Nat.ltb_lt in Heqb.
    exact (proj1 (Forall_forall _ _) Hpool _ (nth_In _ _ Heqb)).
  - match goal with E : fresh_random_rbs _ _ _ _ _ = Ok _ |- _ =>
      eapply ok_with_elim in E; [|apply ok_fresh_random_rbs]; cbv beta in E end.
    apply len_nonempty. lia.
Qed.

Local Abbreviation outer := (outer_loop lm cfg pre_seq post_seq oracle target_log min_length max_length
                           sd_cores seed_pool accept_window restart_patience max_iter).

Lemma outer_counts fuel st st' :
  Forall (fun s => s <> "") seed_pool -> 1 <= restart_patience ->
  counts_ok st -> iteration st <= max_iter ->
  0 <= restart_count st <= iteration st -> (0 < iteration st -> 1 <= restart_count st) ->
  outer fuel st = Ok st' ->
  counts_ok st' /\ iteration st' <= max_iter /\
  0 <= restart_count st' <= iteration st' /\ (0 < iteration st' -> 1 <= restart_count st') /\
  restart_count st <= restart_count st' /\
  ((Z.to_nat (max_iter - iteration st) < fuel)%nat -> iteration st' = max_iter).
Proof.
  intros Hpool Hp. revert st.
  induction fuel as [|fuel IH]; intros st Hc Hi Hr Hr1 H; cbn [outer_loop] in H.
  - injection H as <-. split; [exact Hc|]. repeat split; try lia; auto.
  - destruct (iteration st <? max_iter) eqn:Elt.
    2: { injection H as <-. apply Z.ltb_ge in Elt. split; [exact Hc|]. repeat split; try lia; auto. }
    apply Z.ltb_lt in Elt.
    apply bindr_Ok in H as (st1 & E1 & H).
    apply bindr_Ok in H as (st2 & E2 & H).
    destruct (restart_counts _ _ _ Hpool E1) as (Hi1 & Hr1' & Hne1 & Ha1 & Hac1).
    simpl_st.
    assert (Hc1 : counts_ok st1) by (unfold counts_ok in *; rewrite Hi1, Ha1, Hac1; exact Hc).
    destruct (inner_counts _ _ _ Hne1 Hc1 E2) as (Hb2 & Hlt2 & Hr2 & Hc2).
    assert (Hpos : (0 < Z.to_nat (Z.min restart_patience (max_iter - iteration st1)))%nat) by lia.
    specialize (Hlt2 Hpos).
    destruct (IH st2 Hc2 ltac:(lia) ltac:(lia) ltac:(lia) H) as (Hc3 & Hi3 & Hr3 & Hr13 & Hm3 & Hf3).
    split; [exact Hc3|]. split; [lia|]. split; [lia|]. split; [intros _; lia|]. split; [lia|].
    intros Hf. apply Hf3. lia.
Qed.

End Counts.

Lemma design_Ok_run lm cfg oracle global_draw pre_seq post_seq target_expression
    min_length max_length iterations top_n random_seed d :
  (iterations <=? 0) || (top_n <=? 0) = false ->
  design_rbs_candidates lm cfg oracle global_draw pre_seq post_seq target_expression
    min_length max_length iterations top_n random_seed = Ok d ->
  exists seed_pool r st,
    Forall (fun s => Z.max 4 min_length <= Seq.len s) seed_pool /\
    outer_loop lm cfg pre_seq post_seq oracle (log10 lm target_expression) (Z.max 4 min_length)
      (Z.max (Z.max 4 min_length) max_length)
      (filter (fun core => negb (String.eqb core "")) (DESIGN_SD_CORES cfg)) seed_pool
      (Z.max 4 (Z.min (DESIGN_ACCEPT_WINDOW cfg) iterations))
      (Z.max 1 (DESIGN_RESTART_PATIENCE cfg)) (Z.max 1 iterations)
      (S (Z.to_nat (Z.max 1 iterations))) (init_state cfg r) = Ok st /\
    Diagnostics.restart_count (diagnostics d) = restart_count st /\
    Diagnostics.move_type_attempts (diagnostics d) = move_type_attempts st /\
    Diagnostics.move_type_accepts (diagnostics d) = move_type_accepts st.
Proof.
  intros Eex. unfold design_rbs_candidates. rewrite Eex.
  destruct (Qle_bool target_expression 0); [discriminate|].
  intros H. cbv zeta in H.
  apply bindr_Ok in H as ([pool r] & E1 & H).
  apply bindr_Ok in H as ([pool' r'] & E2 & H).
  apply bindr_Ok in H as (st & E3 & H). injection H as <-.
  eapply ok_with_elim in E1; [|apply ok_build_pool_total].
  exists pool', r', st. split; [|split; [exact E3|simpl; auto]].
  destruct pool as [|p ps].
  - destruct (random_rbs _ _ _ _ _ _ r) as [[s r1]|] eqn:Er; [|discriminate].
    injection E2 as <- <-. eapply ok_with_elim in Er; [|apply ok_random_rbs].
    cbv beta in Er. constructor; [lia | constructor].
  - injection E2 as <- <-. eapply Forall_impl; [|exact E1]. intros a Ha; cbv beta in *; lia.
Qed.

(** the move counters of a run of [design_rbs_candidates]: exactly
    [iterations] mutations are attempted, all substitutions, insertions or
    deletions (no [noop] and no [random] move), each move type is accepted
    at most as often as attempted, and between 1 and [iterations] restarts
    are made *)
Theorem design_move_counts lm cfg oracle global_draw pre_seq post_seq target_expression
    min_length max_length iterations top_n random_seed d :
  0 < iterations -> 0 < top_n ->
  design_rbs_candidates lm cfg oracle global_draw pre_seq post_seq target_expression
    min_length max_length iterations top_n random_seed = Ok d ->
  let a := Diagnostics.move_type_attempts (diagnostics d) in
  let c := Diagnostics.move_type_accepts (diagnostics d) in
  n_sub a + n_ins a + n_del a = iterations /\
  n_noop a = 0 /\ n_random a = 0 /\ n_noop c = 0 /\ n_random c = 0 /\
  0 <= n_sub c <= n_sub a /\ 0 <= n_ins c <= n_ins a /\ 0 <= n_del c <= n_del a /\
  1 <= Diagnostics.restart_count (diagnostics d) <= iterations.
Proof.
  intros Hit Htop H.
  assert (Eex : (iterations <=? 0) || (top_n <=? 0) = false)
    by (apply orb_false_iff; split; apply Z.leb_gt; lia).
  destruct (design_Ok_run _ _ _ _ _ _ _ _ _ _ _ _ _ Eex H)
    as (pool & r & st & Hpool & E & Hrc & Ha & Hac).
  cbv zeta. rewrite Hrc, Ha, Hac.
  assert (Hpool' : Forall (fun s => s <> "") pool)
    by (eapply Forall_impl; [|exact Hpool]; intros s Hs; apply len_nonempty; cbv beta in Hs; lia).
  assert (Hc0 : counts_ok (init_state cfg r)) by (unfold counts_ok; simpl; lia).
  eapply outer_counts in E;
    [| lia | exact Hpool' | lia | exact Hc0 | simpl; lia | simpl; lia | simpl; lia].
  destruct E as (Hc & Hi & Hr & Hr1 & _ & Hf).
  simpl iteration in Hf. specialize (Hf ltac:(lia)).
  unfold counts_ok in Hc. lia.
Qed.

(** ** The output records of [_run_design_core] *)

Lemma ensure_cache_placed lm pre_seq post_seq oracle target_log k c :
  Forall (placed pre_seq post_seq) (top_candidates c) ->
  Forall (placed pre_seq post_seq)
    (top_candidates (snd (ensure_cache lm pre_seq post_seq oracle target_log k c))).
Proof.
  intros H. unfold ensure_cache. destruct (lookup k (evaluated c)); [exact H|]. cbv zeta.
  repeat match goal with |- context [match ?x with _ => _ end] => destruct x end;
    simpl; try exact H.
  all: apply Forall_app; split; [exact H|]; constructor; [|constructor].
  all: split; [reflexivity|]; simpl; unfold expected_start; do 2 f_equal; lia.
Qed.

Lemma design_ranked_placed lm cfg oracle global_draw pre_seq post_seq target_expression
    min_length max_length iterations top_n random_seed d :
  design_rbs_candidates lm cfg oracle global_draw pre_seq post_seq target_expression
    min_length max_length iterations top_n random_seed = Ok d ->
  Forall (placed pre_seq post_seq) (ranked d).
Proof.
  intros H. pose proof (design_reach _ _ _ _ _ _ _ _ _ _ _ _ _ H) as R.
  assert (Hc : Forall (placed pre_seq post_seq) (top_candidates (run_cache d))).
  { eapply (cache_reach_invariant lm pre_seq post_seq oracle (log10 lm target_expression)
              (fun c => Forall (placed pre_seq post_seq) (top_candidates c))); [|exact R|constructor].
    intros c k Hc. apply ensure_cache_placed, Hc. }
  apply design_Ok_cases in H as [->|(Eex & pool & r & st & _ & _ & Hr & _ & Hcache & _)];
    [constructor|].
  apply orb_false_iff in Eex as [_ Etop]. apply Z.leb_gt in Etop.
  rewrite Hr. rewrite Hcache in Hc.
  pose proof (take_unique_props top_n [] [] (sort_candidates (top_candidates (cache st)))
    (Forall_nil _) (NoDup_nil _) (incl_refl _) ltac:(simpl; lia) (SSorted_nil _)
    (sort_candidates_strongly _) (fun a b Ha _ => match Ha with end)) as (_ & Hin & _).
  apply Forall_forall. intros x Hx. apply Hin in Hx. simpl in Hx.
  eapply Permutation_in in Hx; [|apply sort_candidates_perm].
  exact (proj1 (Forall_forall _ _) Hc x Hx).
Qed.

Lemma evaluate_full_placed lm oracle pre_seq post_seq rbs_seq target_log start_codon e :
  evaluate_full lm oracle pre_seq post_seq rbs_seq target_log start_codon = Some e ->
  rejected e = false -> placed pre_seq post_seq e.
Proof.
  unfold evaluate_full. destruct (String.eqb rbs_seq "") ; [discriminate|]. cbv zeta.
  repeat match goal with |- context [match ?x with _ => _ end] => destruct x eqn:? end;
    intros H; injection H as <-; simpl; try discriminate.
  all: intros _; split; reflexivity.
Qed.

Lemma refine_placed lm oracle fpre fpost target_log start_codon (l : list Candidate) :
  Forall (placed fpre fpost) (refine lm oracle fpre fpost target_log start_codon l).
Proof.
  induction l as [|c l IH]; simpl; [constructor|].
  destruct (String.eqb (rbs_sequence c) ""); [exact IH|].
  destruct (evaluate_full _ _ _ _ _ _ _) as [e|] eqn:Ee; [|exact IH].
  destruct (rejected e) eqn:Er; [exact IH|].
  constructor; [|exact IH]. eapply evaluate_full_placed; eauto.
Qed.

Lemma build_ranked_In (target_expression : Q) (index : Z) (cs : list Candidate) o :
  In o (build_ranked target_expression index cs) ->
  exists c, In c cs /\ Output.rbs_sequence o = rbs_sequence c /\
    Output.full_sequence o = full_sequence c /\ Output.start_position o = start_position c.
Proof.
  revert index. induction cs as [|c cs IH]; intros index Ho; [destruct Ho|].
  destruct Ho as [<-|Ho].
  - exists c. simpl. auto.
  - destruct (IH _ Ho) as (c' & Hc' & H). exists c'. split; [now right | exact H].
Qed.

(** the records of [_run_design_core] refer to the sequences they were
    scored in: the untruncated ones when the inputs were truncated (the
    refinement pass), the design inputs otherwise; the start position is
    the first base after the RBS *)
Theorem run_design_core_full_sequence lm cfg oracle global_draw pre_seq post_seq full_pre_seq
    full_post_seq truncated target_expression min_len_i max_len_i iterations_i top_n_i random_seed
    refinement_multiplier out :
  run_design_core lm cfg oracle global_draw pre_seq post_seq full_pre_seq full_post_seq truncated
    target_expression min_len_i max_len_i iterations_i top_n_i random_seed refinement_multiplier
    = Ok out ->
  let p := if truncated then full_pre_seq else pre_seq in
  let q := if truncated then full_post_seq else post_seq in
  forall o, In o out ->
    Output.full_sequence o = (p ++ Output.rbs_sequence o ++ q)%string /\
    Output.start_position o = Some (inject_Z (Seq.len p + Seq.len (Output.rbs_sequence o) + 1)).
Proof.
  unfold run_design_core. intros H. apply bindr_Ok in H as (d & Ed & H).
  destruct (Qle_bool target_expression 0); [discriminate|]. cbv zeta in H.
  injection H as <-. cbv zeta. intros o Ho.
  apply build_ranked_In in Ho as (c & Hc & Hrbs & Hfull & Hsp).
  rewrite Hrbs, Hfull, Hsp. destruct truncated.
  - eapply Permutation_in in Hc; [|apply sort_candidates_perm].
    exact (proj1 (Forall_forall _ _) (refine_placed _ _ _ _ _ _ _) c Hc).
  - exact (proj1 (Forall_forall _ _) (design_ranked_placed _ _ _ _ _ _ _ _ _ _ _ _ _ Ed) c Hc).
Qed.

(** ** Witnesses: the hypotheses of the properties above at concrete inputs *)

Lemma truncate_design_sequences_spec_witness :
  ltac:(let t := type of (truncate_design_sequences_spec 2 3 "AACGT" "ATGCC") in
        match t with ?A -> ?B -> ?C => exact (A /\ B /\ C) end).
Proof.
  split; [lia|]. split; [lia|].
  apply (truncate_design_sequences_spec 2 3 "AACGT" "ATGCC"); lia.
Defined.

Lemma truncate_zero_max_keeps_all_witness :
  ltac:(let t := type of (truncate_zero_max_keeps_all 3 "AACGT" "ATGCC") in
        match t with ?A -> ?B => exact (A /\ B) end).
Proof.
  split; [vm_compute; reflexivity|].
  apply (truncate_zero_max_keeps_all 3 "AACGT" "ATGCC"). vm_compute; reflexivity.
Defined.

Lemma build_sequence_context_sound_witness :
  ltac:(let t := type of (build_sequence_context_sound "AAACCCATGGG" (Some 7) 2 5 11 "CCATGGG") in
        match t with ?A -> ?B => exact (A /\ B) end).
Proof.
  split; [vm_compute; reflexivity|].
  apply (build_sequence_context_sound "AAACCCATGGG" (Some 7) 2 5 11 "CCATGGG").
  vm_compute; reflexivity.
Defined.

Lemma build_sequence_context_covers_witness :
  ltac:(let t := type of (build_sequence_context_covers "AAACCCATGGG" 7 2) in
        match t with ?A -> ?B -> ?C => exact (A /\ B /\ C) end).
Proof.
  split; [lia|]. split; [vm_compute; split; discriminate|].
  apply (build_sequence_context_covers "AAACCCATGGG" 7 2); [lia | vm_compute; split; discriminate].
Defined.

Lemma ensure_cache_ostir_reasons_witness :
  ltac:(let t := type of (ensure_cache_ostir_reasons libm_coarse "AAA" "ATGCCC"
                            (fun _ pos => [OstirRow.mk (Some 1%Q) (Some (inject_Z pos)) "ATG"])
                            0 "AGGAGG" empty_cache) in
        match t with ?A -> ?B -> ?C => exact (A /\ B /\ C) end).
Proof.
  split; [vm_compute; discriminate|]. split; [vm_compute; reflexivity|].
  apply (ensure_cache_ostir_reasons libm_coarse "AAA" "ATGCCC"
           (fun _ pos => [OstirRow.mk (Some 1%Q) (Some (inject_Z pos)) "ATG"]) 0 "AGGAGG" empty_cache);
    [vm_compute; discriminate | vm_compute; reflexivity].
Defined.

Lemma evaluate_full_agrees_with_cache_witness :
  ltac:(let t := type of (evaluate_full_agrees_with_cache libm_coarse oracle_any_valid "AAA" "ATGCCC"
                            0 "AGGAGG" empty_cache) in
        match t with ?A -> ?B -> ?C => exact (A /\ B /\ C) end).
Proof.
  split; [vm_compute; discriminate|]. split; [vm_compute; reflexivity|].
  apply (evaluate_full_agrees_with_cache libm_coarse oracle_any_valid "AAA" "ATGCCC" 0 "AGGAGG"
           empty_cache); [vm_compute; discriminate | vm_compute; reflexivity].
Defined.

Lemma random_rbs_length_bounds_witness :
  ltac:(let t := type of (random_rbs_length_bounds 8 12 "AGGAGG" 5 9 None) in
        match t with ?A -> ?B => exact (A /\ B) end).
Proof.
  split; [lia|]. apply (random_rbs_length_bounds 8 12 "AGGAGG" 5 9 None). lia.
Defined.

Lemma random_rbs_acgt_witness :
  ltac:(let t := type of (random_rbs_acgt 8 12 "AGGAGG" 5 9 (Some ["AGGA"; "GGAGG"])) in
        match t with ?A -> ?B -> ?C => exact (A /\ B /\ C) end).
Proof.
  split; [vm_compute; reflexivity|].
  split; [repeat constructor|].
  apply (random_rbs_acgt 8 12 "AGGAGG" 5 9 (Some ["AGGA"; "GGAGG"]));
    [vm_compute; reflexivity | repeat constructor].
Defined.

Lemma random_rbs_places_core_witness :
  ltac:(let t := type of (random_rbs_places_core 12 14 "" 5 9 ["AGGAGG"]) in
        match t with ?A -> ?B -> ?C -> ?D => exact (A /\ B /\ C /\ D) end).
Proof.
  split; [lia|]. split; [repeat constructor; discriminate|].
  split; [exists "AGGAGG"; split; [left; reflexivity | vm_compute; discriminate]|].
  apply (random_rbs_places_core 12 14 "" 5 9 ["AGGAGG"]);
    [lia | repeat constructor; discriminate | exists "AGGAGG"; split; [left; reflexivity | vm_compute; discriminate]].
Defined.

Lemma random_rbs_spacing_inferred_witness :
  ltac:(let t := type of (random_rbs_spacing_inferred 12 14 "" 5 9 ["AGGAGG"; "GGAGG"]) in
        match t with ?A -> ?B -> ?C -> ?D => exact (A /\ B /\ C /\ D) end).
Proof.
  split; [lia|]. split; [repeat constructor; discriminate|].
  split; [exists "AGGAGG"; split; [left; reflexivity | vm_compute; discriminate]|].
  apply (random_rbs_spacing_inferred 12 14 "" 5 9 ["AGGAGG"; "GGAGG"]);
    [lia | repeat constructor; discriminate | exists "AGGAGG"; split; [left; reflexivity | vm_compute; discriminate]].
Defined.

Lemma mutate_rbs_range_alphabet_witness :
  ltac:(let t := type of (mutate_rbs_range_alphabet 5 9 "AGGAGGAAAAAT" 8 14 1 1 1) in
        match t with ?A -> ?B => exact (A /\ B) end).
Proof.
  split; [discriminate|]. apply (mutate_rbs_range_alphabet 5 9 "AGGAGGAAAAAT" 8 14 1 1 1). discriminate.
Defined.

Lemma current_move_weights_bounds_witness :
  ltac:(let t := type of (current_move_weights_bounds default_config 3 10 (1 # 2)) in
        match t with ?A -> ?B => exact (A /\ B) end).
Proof.
  split; [lia|]. apply (current_move_weights_bounds default_config 3 10 (1 # 2)). lia.
Defined.

Lemma design_move_counts_witness :
  ltac:(let t := type of (design_move_counts libm_coarse default_config oracle_any_valid 1 "" "ATG" 1
                            12 12 5 1 (Some "42") c3_design) in
        match t with ?A -> ?B -> ?C -> ?D => exact (A /\ B /\ C /\ D) end).
Proof.
  split; [lia|]. split; [lia|]. split; [vm_compute; reflexivity|].
  apply (design_move_counts libm_coarse default_config oracle_any_valid 1 "" "ATG" 1 12 12 5 1
           (Some "42") c3_design); [lia | lia | vm_compute; reflexivity].
Defined.

Lemma run_design_core_full_sequence_witness :
  ltac:(let t := type of (run_design_core_full_sequence libm_coarse default_config oracle_any_valid 1
                            "" "ATG" "" "ATG" true 1 12 12 5 1 "42" 1 c1_out) in
        match t with ?A -> ?B => exact (A /\ B) end).
Proof.
  split; [vm_compute; reflexivity|].
  apply (run_design_core_full_sequence libm_coarse default_config oracle_any_valid 1 "" "ATG" "" "ATG"
           true 1 12 12 5 1 "42" 1 c1_out).
  vm_compute; reflexivity.
Defined.
